(** * RUL inference (src/analysis/predict_rul.py): a shallow embedding

    The module defines a positional encoding, an encoder/decoder attention
    model with a regression head, and the inference loop
    [infer_rul_without_gt].

    Conventions of the embedding:
    - a tensor is a shape together with an indexing function; two tensors
      are compared by [teq], same shape and same entries inside the shape;
    - every operation that can raise (a torch shape check, an assert, a
      missing file, an unbound name) is a function into [result], and the
      exception is the error value;
    - the entries of float32 tensors are idealised as real numbers, so
      their rounding, overflow and NaN are outside the model; the binary64
      arithmetic of line 154 ([math.pow] and the subtraction) is a
      parameter of the [World], constrained by [Float64_ok], so that what
      is proved of it holds of every platform arithmetic that rounds
      faithfully and raises OverflowError where binary64 overflows;
    - sizes, dimensions and the window size are natural numbers;
    - the compute device and the [eval] and [no_grad] switches change no
      value and are left out; files are read through a [World], which
      gives for each table the element types [pd.read_csv] infers;
    - the last part, [Storage], runs the same code on a store of tensor
      storages, where views share memory and slice assignments write in
      place; it is proved to end as the run on values does. *)

From Stdlib Require Import Reals Lra Lia String Arith Bool List.
Import ListNotations.

Local Open Scope nat_scope.
Local Open Scope list_scope.

(** ** Exceptions and the error monad *)

Definition path := list string.

Inductive exn : Type :=
| ZeroDivisionError
| AssertionError
| NameError (name : string)
| KeyError (key : string)
| IndexError
| FileNotFoundError (file : path)
| ValueError
| ShapeError (op : string) (src dst : list nat)
| LoadError (what : string)
| TypeError
| OverflowError
| OSError (file : string).

Inductive result (A : Type) : Type :=
| Ok (a : A)
| Err (e : exn).
Arguments Ok {A} a.
Arguments Err {A} e.

Definition bind {A B : Type} (m : result A) (k : A -> result B) : result B :=
  match m with
  | Ok a => k a
  | Err e => Err e
  end.

Declare Scope result_scope.
Delimit Scope result_scope with result.
Notation "x <- m ;; k" := (bind m (fun x => k))
  (at level 61, m at next level, right associativity) : result_scope.
Local Open Scope result_scope.

(** ** Tensors *)

Record Tensor : Type := mkT { shape : list nat; get : list nat -> R }.

Definition numel (s : list nat) : nat := fold_right Nat.mul 1 s.

Definition rank (t : Tensor) : nat := length (shape t).

Definition in_bounds (s idx : list nat) : Prop := Forall2 lt idx s.

(** Same shape and same entries at every index inside the shape. *)
Definition teq (a b : Tensor) : Prop :=
  shape a = shape b /\ forall idx, in_bounds (shape a) idx -> get a idx = get b idx.

Fixpoint shape_eqb (s1 s2 : list nat) : bool :=
  match s1, s2 with
  | [], [] => true
  | a :: s1', b :: s2' => (a =? b) && shape_eqb s1' s2'
  | _, _ => false
  end.

(** Row-major flattening of a multi-index, and its inverse. *)
Fixpoint ravel (s idx : list nat) : nat :=
  match s, idx with
  | _ :: s', i :: idx' => i * numel s' + ravel s' idx'
  | _, _ => 0
  end.

Fixpoint unravel (s : list nat) (n : nat) : list nat :=
  match s with
  | [] => []
  | _ :: s' => n / numel s' :: unravel s' (n mod numel s')
  end.

(** [sum_upto n f] is f 0 + ... + f (n-1). *)
Fixpoint sum_upto (n : nat) (f : nat -> R) : R :=
  match n with
  | O => 0%R
  | S n' => (sum_upto n' f + f n')%R
  end.

Definition zeros (s : list nat) : Tensor := mkT s (fun _ => 0%R).

Definition tmap (f : R -> R) (t : Tensor) : Tensor :=
  mkT (shape t) (fun idx => f (get t idx)).

(** [t.view(s)] and [t.reshape(s)]: same elements in row-major order. *)
Definition view (t : Tensor) (s : list nat) : result Tensor :=
  if numel (shape t) =? numel s
  then Ok (mkT s (fun idx => get t (unravel (shape t) (ravel s idx))))
  else Err (ShapeError "view" (shape t) s).

Fixpoint index_of (j : nat) (l : list nat) : nat :=
  match l with
  | [] => 0
  | x :: l' => if x =? j then 0 else S (index_of j l')
  end.

Definition is_perm (perm : list nat) (n : nat) : bool :=
  (length perm =? n) && forallb (fun j => existsb (Nat.eqb j) perm) (seq 0 n).

(** [t.permute(perm)]: output dimension i is input dimension perm[i]. *)
Definition permute (t : Tensor) (perm : list nat) : result Tensor :=
  if is_perm perm (rank t)
  then Ok (mkT (map (fun p => nth p (shape t) 0) perm)
               (fun idx => get t (map (fun j => nth (index_of j perm) idx 0)
                                      (seq 0 (rank t)))))
  else Err (ShapeError "permute" (shape t) perm).

Definition swap_dims (i j : nat) (n : nat) : list nat :=
  map (fun k => if k =? i then j else if k =? j then i else k) (seq 0 n).

(** [t.transpose(i, j)] for non-negative i, j. *)
Definition transpose (t : Tensor) (i j : nat) : result Tensor :=
  if (i <? rank t) && (j <? rank t)
  then permute t (swap_dims i j (rank t))
  else Err IndexError.

(** [t.transpose(-2, -1)]. *)
Definition transpose_last2 (t : Tensor) : result Tensor :=
  if 2 <=? rank t
  then transpose t (rank t - 2) (rank t - 1)
  else Err IndexError.

(** [t[k]]: integer index on the first dimension. *)
Definition select0 (t : Tensor) (k : nat) : result Tensor :=
  match shape t with
  | d :: s' => if k <? d then Ok (mkT s' (fun idx => get t (k :: idx)))
               else Err IndexError
  | [] => Err IndexError
  end.

(** [a @ b]: batched matrix product.  The batch dimensions of the two
    operands must be equal here; torch would broadcast them, which never
    arises for operands cut from views with the same batch and heads. *)
Definition matmul (a b : Tensor) : result Tensor :=
  match rev (shape a), rev (shape b) with
  | m :: n :: ba, p :: m' :: bb =>
      if (m =? m') && shape_eqb ba bb
      then Ok (mkT (rev ba ++ [n; p])
                   (fun idx =>
                      let r := length ba in
                      let bi := firstn r idx in
                      sum_upto m (fun k =>
                        Rmult (get a (bi ++ [nth r idx 0; k]))
                              (get b (bi ++ [k; nth (S r) idx 0])))))
      else Err (ShapeError "matmul" (shape a) (shape b))
  | _, _ => Err (ShapeError "matmul" (shape a) (shape b))
  end.

(** [t / c] for a Python float c. *)
Definition div_scalar (t : Tensor) (c : R) : Tensor :=
  tmap (fun v => (v / c)%R) t.

(** [torch.softmax(t, dim=-1)]. *)
Definition softmax_last (t : Tensor) : result Tensor :=
  match rev (shape t) with
  | n :: _ =>
      Ok (mkT (shape t)
              (fun idx =>
                 Rdiv (exp (get t idx))
                      (sum_upto n (fun j => exp (get t (removelast idx ++ [j]))))))
  | [] => Err IndexError
  end.

(** ** The inverse transform (line 154) *)

(** The binary64 operations of line 154.  [math_pow x y] is Python's
    [math.pow(x, y)], which raises instead of returning an infinity, and
    [float_sub a b] is the float subtraction [a - b]. *)
Record Float64 : Type :=
  mkFloat64 { math_pow : R -> R -> result R; float_sub : R -> R -> R }.

(** The finite binary64 numbers: m * 2^e with |m| < 2^53 and
    -1074 <= e <= 971. *)
Definition binary64 (x : R) : Prop :=
  exists m e : Z,
    (Z.abs m < 2 ^ 53)%Z /\ (-1074 <= e <= 971)%Z /\
    x = (IZR m * powerRZ 2 e)%R.

(** The largest finite binary64 number, (2^53 - 1) * 2^971. *)
Definition max_float : R := IZR (2 ^ 1024 - 2 ^ 971).

(** [y] is a faithful rounding of [x]: no binary64 number lies strictly
    between them, so [y] is [x] itself when [x] is a binary64 number and
    one of its two binary64 neighbours otherwise. *)
Definition faithful (x y : R) : Prop :=
  forall f, binary64 f -> ((f <= x)%R -> (f <= y)%R) /\ ((x <= f)%R -> (y <= f)%R).

(** What line 154 relies on of the platform: [math.pow] with a positive
    base returns a finite faithful rounding of the power or raises
    OverflowError, which it does only above the largest finite number and
    always from 2^1024 on; a subtraction whose exact result is within the
    finite range is rounded faithfully and monotonically. *)
Record Float64_ok (F : Float64) : Prop :=
  mkFloat64_ok {
    pow_rounds : forall x y p, (0 < x)%R -> math_pow F x y = Ok p ->
      (Rabs p <= max_float)%R /\ faithful (Rpower x y) p;
    pow_raises : forall x y e, (0 < x)%R -> math_pow F x y = Err e ->
      e = OverflowError /\ (max_float < Rpower x y)%R;
    pow_overflows : forall x y, (0 < x)%R -> (IZR (2 ^ 1024) <= Rpower x y)%R ->
      math_pow F x y = Err OverflowError;
    sub_rounds : forall a b, (Rabs (a - b) <= max_float)%R ->
      faithful (a - b) (float_sub F a b);
    sub_monotone : forall a a' b, (a <= a')%R ->
      (Rabs (a - b) <= max_float)%R -> (Rabs (a' - b) <= max_float)%R ->
      (float_sub F a b <= float_sub F a' b)%R }.

(** [math.pow(100, s) - 1]. *)
Definition inverse_transform (F : Float64) (s : R) : result R :=
  p <- math_pow F 100 s ;; Ok (float_sub F p 1).

(** ** Broadcasting *)

(** Broadcast shape of two shapes given last dimension first. *)
Fixpoint bshape_rev (a b : list nat) : option (list nat) :=
  match a, b with
  | [], _ => Some b
  | _, [] => Some a
  | x :: a', y :: b' =>
      match bshape_rev a' b' with
      | Some r =>
          if x =? y then Some (x :: r)
          else if x =? 1 then Some (y :: r)
          else if y =? 1 then Some (x :: r)
          else None
      | None => None
      end
  end.

Definition lastn {A : Type} (n : nat) (l : list A) : list A :=
  skipn (length l - n) l.

Fixpoint bc_zip (s idx : list nat) : list nat :=
  match s, idx with
  | d :: s', i :: idx' => (if d =? 1 then 0 else i) :: bc_zip s' idx'
  | _, _ => []
  end.

(** The index read in an operand of shape [s] for the output index [idx]. *)
Definition bc_index (s idx : list nat) : list nat :=
  bc_zip s (lastn (length s) idx).

(** An elementwise binary operation with torch broadcasting. *)
Definition broadcast2 (op : string) (f : R -> R -> R) (a b : Tensor)
  : result Tensor :=
  match bshape_rev (rev (shape a)) (rev (shape b)) with
  | Some r =>
      Ok (mkT (rev r)
              (fun idx => f (get a (bc_index (shape a) idx))
                            (get b (bc_index (shape b) idx))))
  | None => Err (ShapeError op (shape a) (shape b))
  end.

Definition add (a b : Tensor) : result Tensor := broadcast2 "add" Rplus a b.
Definition mul (a b : Tensor) : result Tensor := broadcast2 "mul" Rmult a b.

(** Shapes given last dimension first: can [src] be expanded to [dst]? *)
Fixpoint expandable (src dst : list nat) : bool :=
  match src, dst with
  | [], _ => true
  | _ :: _, [] => false
  | a :: src', b :: dst' => ((a =? b) || (a =? 1)) && expandable src' dst'
  end.

(** [t.expand(s)] with every size given explicitly. *)
Definition expand (t : Tensor) (s : list nat) : result Tensor :=
  if expandable (rev (shape t)) (rev s)
  then Ok (mkT s (fun idx => get t (bc_index (shape t) idx)))
  else Err (ShapeError "expand" (shape t) s).

(** [t.unsqueeze(0)]. *)
Definition unsqueeze0 (t : Tensor) : Tensor :=
  mkT (1 :: shape t) (fun idx => get t (tl idx)).

Fixpoint strip_leading_ones (s : list nat) : list nat :=
  match s with
  | 1 :: s' => strip_leading_ones s'
  | _ => s
  end.

(** [dst[:, start::2] = src] on a matrix [dst]: the source is copied when
    the shapes agree and is otherwise expanded to the shape of the slice,
    which has one column for each of start, start+2, ... below the width. *)
Definition setitem_cols (dst : Tensor) (start : nat) (src : Tensor)
  : result Tensor :=
  match shape dst with
  | [L; D] =>
      let n := (D - start + 1) / 2 in
      src' <- (if shape_eqb (shape src) [L; n] then Ok src
               else v <- view src (strip_leading_ones (shape src)) ;;
                    expand v [L; n]) ;;
      Ok (mkT [L; D]
              (fun idx =>
                 let c := nth 1 idx 0 in
                 if (start <=? c) && Nat.even (c - start)
                 then get src' [nth 0 idx 0; (c - start) / 2]
                 else get dst idx))
  | _ => Err IndexError
  end.

(** ** Positional encoding (lines 22-30) *)

(** [torch.arange(L).unsqueeze(1).float()]. *)
Definition arange_column (L : nat) : Tensor :=
  mkT [L; 1] (fun idx => INR (nth 0 idx 0)).

(** [torch.arange(0, D, 2).float()]: the values 0, 2, 4, ... below D. *)
Definition arange_step2 (D : nat) : Tensor :=
  mkT [(D + 1) / 2] (fun idx => INR (2 * nth 0 idx 0)).

Definition add_positional_encoding (x : Tensor) : result Tensor :=
  match shape x with
  | [B; L; D] =>
      let pos := arange_column L in
      c <- (if D =? 0 then Err ZeroDivisionError
            else Ok (- ln 10000 / INR D)%R) ;;
      let div := tmap exp (tmap (fun v => v * c)%R (arange_step2 D)) in
      let pe := zeros [L; D] in
      a0 <- mul pos div ;;
      pe <- setitem_cols pe 0 (tmap sin a0) ;;
      a1 <- mul pos div ;;
      pe <- setitem_cols pe 1 (tmap cos a1) ;;
      e <- expand (unsqueeze0 pe) [B; L; D] ;;
      add x e
  | _ => Err ValueError
  end.

(** ** Layers *)

(** [nn.GELU()]: x * Phi(x), with Phi the standard normal distribution
    function, Phi(x) = (1 + erf(x / sqrt 2)) / 2. *)
Definition gauss (t : R) : R := exp (- (t * t)).

Definition gauss_integrable (a b : R) : Riemann_integrable gauss a b.
Proof.
  assert (C : forall u v : R, (u <= v)%R -> Riemann_integrable gauss u v).
  { intros u v Huv. apply continuity_implies_RiemannInt; [exact Huv|].
    intros t _. unfold gauss. reg. }
  destruct (Rle_dec a b) as [Hab|Hab].
  - exact (C a b Hab).
  - apply RiemannInt_P1. apply C. lra.
Defined.

Definition erf (x : R) : R :=
  (2 / sqrt PI * RiemannInt (gauss_integrable 0 x))%R.

Definition gelu (x : R) : R := (x * ((1 + erf (x / sqrt 2)) / 2))%R.

(** [nn.Linear]: weight of shape (out, in) and bias of shape (out). *)
Record Linear : Type := mkLinear { weight : Tensor; bias : Tensor }.

Definition linear (l : Linear) (x : Tensor) : result Tensor :=
  match shape (weight l), rev (shape x) with
  | [o; i], d :: pre =>
      if (d =? i) && shape_eqb (shape (bias l)) [o]
      then Ok (mkT (rev pre ++ [o])
                   (fun idx =>
                      let j := last idx 0 in
                      Rplus (sum_upto i (fun k =>
                               Rmult (get x (removelast idx ++ [k]))
                                     (get (weight l) [j; k])))
                            (get (bias l) [j])))
      else Err (ShapeError "linear" (shape x) (shape (weight l)))
  | _, _ => Err (ShapeError "linear" (shape x) (shape (weight l)))
  end.

(** [nn.Sequential] over linear layers and GELU activations. *)
Inductive NetLayer : Type :=
| NLinear (l : Linear)
| NGELU.

Definition NetLayer_forward (n : NetLayer) (x : Tensor) : result Tensor :=
  match n with
  | NLinear l => linear l x
  | NGELU => Ok (tmap gelu x)
  end.

Fixpoint Sequential_forward (net : list NetLayer) (x : Tensor) : result Tensor :=
  match net with
  | [] => Ok x
  | n :: net' => y <- NetLayer_forward n x ;; Sequential_forward net' y
  end.

(** The parameters a constructor creates are drawn from the seeded random
    generator; [rng s] gives the entries of a fresh tensor of shape [s]. *)
Definition Rng : Type := list nat -> list nat -> R.

Definition nn_Linear (rng : Rng) (i o : nat) : Linear :=
  mkLinear (mkT [o; i] (rng [o; i])) (mkT [o] (rng [o])).

(** [load_state_dict] on one linear layer: shapes must match the module's. *)
Definition Linear_load (cur new : Linear) : result Linear :=
  if shape_eqb (shape (weight new)) (shape (weight cur)) &&
     shape_eqb (shape (bias new)) (shape (bias cur))
  then Ok new
  else Err (LoadError "size mismatch").

Module SelfAttention.

Record t : Type := mk { h : nat; dk : nat; qkv : Linear; out : Linear }.

Definition init (rng : Rng) (d_model heads : nat) : result t :=
  if heads =? 0 then Err ZeroDivisionError
  else if d_model mod heads =? 0
  then Ok (mk heads (d_model / heads)
              (nn_Linear rng d_model (d_model * 3))
              (nn_Linear rng d_model d_model))
  else Err AssertionError.

Definition forward (self : t) (x : Tensor) : result Tensor :=
  match shape x with
  | [B; L; D] =>
      y <- linear (qkv self) x ;;
      y <- view y [B; L; 3; h self; dk self] ;;
      y <- permute y [2; 0; 3; 1; 4] ;;
      Q <- select0 y 0 ;;
      K <- select0 y 1 ;;
      V <- select0 y 2 ;;
      Kt <- transpose_last2 K ;;
      W <- matmul Q Kt ;;
      A <- softmax_last (div_scalar W (sqrt (INR (dk self)))) ;;
      AV <- matmul A V ;;
      AV <- transpose AV 1 2 ;;
      r <- view AV [B; L; D] ;;
      o <- linear (out self) r ;;
      add o x
  | _ => Err ValueError
  end.

Definition state_dict : Type := (Linear * Linear)%type.

Definition load_state_dict (self : t) (sd : state_dict) : result t :=
  q <- Linear_load (qkv self) (fst sd) ;;
  o <- Linear_load (out self) (snd sd) ;;
  Ok (mk (h self) (dk self) q o).

End SelfAttention.

Module MultiHeadCrossAttention.

Record t : Type :=
  mk { h : nat; dk : nat; q : Linear; kv : Linear; out : Linear }.

Definition init (rng : Rng) (d_model heads : nat) : result t :=
  if heads =? 0 then Err ZeroDivisionError
  else if d_model mod heads =? 0
  then Ok (mk heads (d_model / heads)
              (nn_Linear rng d_model d_model)
              (nn_Linear rng d_model (d_model * 2))
              (nn_Linear rng d_model d_model))
  else Err AssertionError.

Definition forward (self : t) (x memory : Tensor) : result Tensor :=
  match shape x with
  | [B; T; D] =>
      Sm <- match shape memory with
            | _ :: n :: _ => Ok n
            | _ => Err IndexError
            end ;;
      Q <- linear (q self) x ;;
      Q <- view Q [B; T; h self; dk self] ;;
      Q <- permute Q [0; 2; 1; 3] ;;
      y <- linear (kv self) memory ;;
      y <- view y [B; Sm; 2; h self; dk self] ;;
      y <- permute y [2; 0; 3; 1; 4] ;;
      K <- select0 y 0 ;;
      V <- select0 y 1 ;;
      Kt <- transpose_last2 K ;;
      W <- matmul Q Kt ;;
      A <- softmax_last (div_scalar W (sqrt (INR (dk self)))) ;;
      AV <- matmul A V ;;
      AV <- transpose AV 1 2 ;;
      r <- view AV [B; T; D] ;;
      o <- linear (out self) r ;;
      add o x
  | _ => Err ValueError
  end.

Definition state_dict : Type := (Linear * Linear * Linear)%type.

Definition load_state_dict (self : t) (sd : state_dict) : result t :=
  let '(sq, skv, so) := sd in
  a <- Linear_load (q self) sq ;;
  b <- Linear_load (kv self) skv ;;
  c <- Linear_load (out self) so ;;
  Ok (mk (h self) (dk self) a b c).

End MultiHeadCrossAttention.

Module FeedForward.

(** [net] is Sequential(Linear(d_model, hidden), GELU, Linear(hidden, d_model)). *)
Record t : Type := mk { net : list NetLayer }.

Definition init (rng : Rng) (d_model hidden : nat) : t :=
  mk [NLinear (nn_Linear rng d_model hidden); NGELU;
      NLinear (nn_Linear rng hidden d_model)].

Definition forward (self : t) (x : Tensor) : result Tensor :=
  y <- Sequential_forward (net self) x ;;
  add y x.

End FeedForward.

(** [load_state_dict] on a Sequential: the linear layers of [sd] replace
    those of [net] in order; a missing or unexpected entry is an error. *)
Fixpoint Sequential_load (net : list NetLayer) (sd : list Linear)
  : result (list NetLayer) :=
  match net, sd with
  | [], [] => Ok []
  | NGELU :: net', _ =>
      r <- Sequential_load net' sd ;; Ok (NGELU :: r)
  | NLinear cur :: net', new :: sd' =>
      l <- Linear_load cur new ;;
      r <- Sequential_load net' sd' ;;
      Ok (NLinear l :: r)
  | _, _ => Err (LoadError "missing or unexpected keys")
  end.

(** [for x in xs: acc = f(x, acc)] with errors. *)
Fixpoint foldM {A S : Type} (f : A -> S -> result S) (xs : list A) (s : S)
  : result S :=
  match xs with
  | [] => Ok s
  | x :: xs' => s' <- f x s ;; foldM f xs' s'
  end.

Fixpoint mapM {A B : Type} (f : A -> result B) (xs : list A) : result (list B) :=
  match xs with
  | [] => Ok []
  | x :: xs' => y <- f x ;; ys <- mapM f xs' ;; Ok (y :: ys)
  end.

(** [[f(i) for i in range(n)]] with errors. *)
Definition replicateM {B : Type} (n : nat) (f : result B) : result (list B) :=
  mapM (fun _ => f) (seq 0 n).

(** Pairwise load of a ModuleList; the lengths must agree. *)
Fixpoint load_list {M SD : Type} (ld : M -> SD -> result M)
  (ms : list M) (sds : list SD) : result (list M) :=
  match ms, sds with
  | [], [] => Ok []
  | m :: ms', sd :: sds' =>
      m' <- ld m sd ;; r <- load_list ld ms' sds' ;; Ok (m' :: r)
  | _, _ => Err (LoadError "missing or unexpected keys")
  end.

Module Encoder.

Record t : Type := mk { layers : list (SelfAttention.t * FeedForward.t) }.

Definition init (rng : Rng) (n d_model heads hidden : nat) : result t :=
  ls <- replicateM n
          (sa <- SelfAttention.init rng d_model heads ;;
           Ok (sa, FeedForward.init rng d_model hidden)) ;;
  Ok (mk ls).

Definition forward (self : t) (x : Tensor) : result Tensor :=
  foldM (fun layer x =>
           x <- SelfAttention.forward (fst layer) x ;;
           FeedForward.forward (snd layer) x)
        (layers self) x.

Definition state_dict : Type :=
  list (SelfAttention.state_dict * list Linear).

Definition load_state_dict (self : t) (sd : state_dict) : result t :=
  ls <- load_list
          (fun layer s =>
             sa <- SelfAttention.load_state_dict (fst layer) (fst s) ;;
             net <- Sequential_load (FeedForward.net (snd layer)) (snd s) ;;
             Ok (sa, FeedForward.mk net))
          (layers self) sd ;;
  Ok (mk ls).

End Encoder.

Module Decoder.

Record t : Type :=
  mk { self_layers : list SelfAttention.t;
       cross_layers : list MultiHeadCrossAttention.t;
       ffns : list FeedForward.t }.

Definition init (rng : Rng) (n d_model heads hidden : nat) : result t :=
  sl <- replicateM n (SelfAttention.init rng d_model heads) ;;
  cl <- replicateM n (MultiHeadCrossAttention.init rng d_model heads) ;;
  Ok (mk sl cl (map (fun _ => FeedForward.init rng d_model hidden) (seq 0 n))).

Definition forward (self : t) (tgt enc_out : Tensor) : result Tensor :=
  foldM (fun l x =>
           let '(sa, ca, ff) := l in
           x <- SelfAttention.forward sa x ;;
           x <- MultiHeadCrossAttention.forward ca x enc_out ;;
           FeedForward.forward ff x)
        (combine (combine (self_layers self) (cross_layers self)) (ffns self))
        tgt.

Definition state_dict : Type :=
  (list SelfAttention.state_dict * list MultiHeadCrossAttention.state_dict *
   list (list Linear))%type.

Definition load_state_dict (self : t) (sd : state_dict) : result t :=
  let '(ss, cs, fs) := sd in
  sl <- load_list SelfAttention.load_state_dict (self_layers self) ss ;;
  cl <- load_list MultiHeadCrossAttention.load_state_dict (cross_layers self) cs ;;
  fl <- load_list
          (fun ff s => net <- Sequential_load (FeedForward.net ff) s ;;
                       Ok (FeedForward.mk net))
          (ffns self) fs ;;
  Ok (mk sl cl fl).

End Decoder.

(** [x[:, -1, :]]: the last index of the second dimension, on a tensor of
    rank 3 or more; fewer dimensions are too few for the three indices. *)
Definition select_last_step (x : Tensor) : result Tensor :=
  match shape x with
  | [B; T; D] =>
      if T =? 0 then Err IndexError
      else Ok (mkT [B; D]
                   (fun idx => get x [nth 0 idx 0; T - 1; nth 1 idx 0]))
  | B :: T :: D :: rest =>
      if T =? 0 then Err IndexError
      else Ok (mkT (B :: D :: rest)
                   (fun idx => get x (nth 0 idx 0 :: T - 1 :: tl idx)))
  | _ => Err IndexError
  end.

(** [t.squeeze(-1)]: drops the last dimension when it has size 1. *)
Definition squeeze_last (t : Tensor) : Tensor :=
  match rev (shape t) with
  | 1 :: pre => mkT (rev pre) (fun idx => get t (idx ++ [0]))
  | _ => t
  end.

Module RULHead.

Record t : Type := mk { net : list NetLayer }.

(** The loop of [__init__]: Linear(in_dim, h), GELU for each h, then
    Linear(in_dim, 1). *)
Fixpoint build (rng : Rng) (in_dim : nat) (hidden_dims : list nat)
  : list NetLayer :=
  match hidden_dims with
  | [] => [NLinear (nn_Linear rng in_dim 1)]
  | h :: hs => NLinear (nn_Linear rng in_dim h) :: NGELU :: build rng h hs
  end.

Definition init (rng : Rng) (d_model : nat) (hidden_dims : list nat) : t :=
  mk (build rng d_model hidden_dims).

Definition forward (self : t) (x : Tensor) : result Tensor :=
  v <- select_last_step x ;;
  y <- Sequential_forward (net self) v ;;
  Ok (squeeze_last y).

Definition load_state_dict (self : t) (sd : list Linear) : result t :=
  n <- Sequential_load (net self) sd ;; Ok (mk n).

End RULHead.

(** ** The inference pipeline (lines 109-166) *)

(** The element types [pd.read_csv] infers for a column: numbers (int64
    or float64), booleans, and [object] for anything else. *)
Inductive dtype : Type := Number | Boolean | Object.

(** A table as [pd.read_csv] returns it: the type inferred for each
    column and, for the columns that are not [object], the numbers in
    their cells (0 and 1 for booleans). *)
Record DataFrame : Type :=
  mkDF { nrows : nat; ncols : nat;
         col_dtype : nat -> dtype;
         cell : nat -> nat -> R }.

(** The element type of two columns in one array. *)
Definition common_dtype (a b : dtype) : dtype :=
  match a, b with
  | Number, Number => Number
  | Boolean, Boolean => Boolean
  | _, _ => Object
  end.

(** The common type of columns j, j+1, ..., j+k. *)
Fixpoint columns_dtype (df : DataFrame) (j k : nat) : dtype :=
  match k with
  | 0 => col_dtype df j
  | S k' => common_dtype (col_dtype df j) (columns_dtype df (S j) k')
  end.

(** The element type of [df.values].  A table without data rows has only
    [object] columns, since nothing tells [read_csv] their type; a table
    without columns gives a float array. *)
Definition values_dtype (df : DataFrame) : dtype :=
  if nrows df =? 0 then Object
  else match ncols df with
       | 0 => Number
       | S k => columns_dtype df 0 k
       end.

(** The entries of [df.values]. *)
Definition values (df : DataFrame) : Tensor :=
  mkT [nrows df; ncols df] (fun idx => cell df (nth 0 idx 0) (nth 1 idx 0)).

(** [torch.tensor(a, dtype=torch.float32)] on an array of element type
    [d]: an [object] array cannot be converted. *)
Definition torch_tensor (d : dtype) (a : Tensor) : result Tensor :=
  match d with
  | Object => Err TypeError
  | _ => Ok a
  end.

(** [a[:, :k]] on a matrix. *)
Definition cols_prefix (k : nat) (a : Tensor) : result Tensor :=
  match shape a with
  | [n; c] => Ok (mkT [n; Nat.min k c] (get a))
  | _ => Err IndexError
  end.

(** [t[-w:]]: the last w rows; [-0] is [0], so w = 0 keeps every row, and
    a tensor with fewer than w rows is kept whole. *)
Definition last_rows (w : nat) (t : Tensor) : result Tensor :=
  match shape t with
  | n :: s' =>
      let start := if w =? 0 then 0 else n - w in
      Ok (mkT ((n - start) :: s')
              (fun idx => get t ((start + hd 0 idx) :: tl idx)))
  | [] => Err IndexError
  end.

(** [t.item()]. *)
Definition item (t : Tensor) : result R :=
  if numel (shape t) =? 1
  then Ok (get t (map (fun _ => 0) (shape t)))
  else Err (ShapeError "item" (shape t) []).

Inductive Checkpoint : Type :=
| EncoderCk (sd : Encoder.state_dict)
| DecoderCk (sd : Decoder.state_dict)
| HeadCk (sd : list Linear).

(** What the function reads from outside: the module-level global
    [base_dir], the random generator for a seed, the checkpoints
    [torch.load] returns and the tables [pd.read_csv] returns ([None] for
    a file that does not exist), whether a path can be written, and the
    binary64 arithmetic. *)
Record World : Type :=
  mkWorld { base_dir : option string;
            seeded_rng : nat -> Rng;
            torch_files : string -> option Checkpoint;
            csv_files : path -> option DataFrame;
            can_write : string -> bool;
            float64 : Float64 }.

Record PredictionResult : Type :=
  mkRow { Validation : string; Best_Train : string; Pred_RUL : R }.

Inductive Printed : Type :=
| PrintPrediction (val_name train_file : string) (pred_rul : R)
| PrintSaved (output_csv_path : string).

(** The local variables the session loop reads and writes. *)
Record Locals : Type :=
  mkLocals { encoder : Encoder.t;
             decoder : Decoder.t;
             rul_head : RULHead.t;
             results : list PredictionResult;
             stdout : list Printed }.

Record Output : Type :=
  mkOutput { results_df : list PredictionResult;
             written : string * list PredictionResult;
             printed : list Printed }.

Fixpoint dict_get (d : list (string * string)) (k : string) : result string :=
  match d with
  | [] => Err (KeyError k)
  | (k', v) :: d' => if String.eqb k' k then Ok v else dict_get d' k
  end.

Definition torch_load (w : World) (file : string) : result Checkpoint :=
  match torch_files w file with
  | Some c => Ok c
  | None => Err (FileNotFoundError [file])
  end.

Definition read_csv (w : World) (p : path) : result DataFrame :=
  match csv_files w p with
  | Some df => Ok df
  | None => Err (FileNotFoundError p)
  end.

(** Reading the global name [base_dir]. *)
Definition global_base_dir (w : World) : result string :=
  match base_dir w with
  | Some d => Ok d
  | None => Err (NameError "base_dir")
  end.

Definition set_seed (w : World) (seed : nat) : Rng := seeded_rng w seed.

Definition best_matches : list (string * string) :=
  [("validation1", "train3.csv"); ("validation2", "train5.csv");
   ("validation3", "train5.csv"); ("validation4", "train5.csv");
   ("validation5", "train7.csv"); ("validation6", "train5.csv")]%string.

(** Lines 137-153 and the [.item()] of line 154: the scalar the head
    returns for one entry of the match table. *)
Definition session_scalar (w : World) (data_dir : string)
  (feature_dim window_size : nat) (entry : string * string) (st : Locals)
  : result R :=
  let '(val_name, train_file) := entry in
  base <- global_base_dir w ;;
  let val_csv := [base; "validation"; "feature"; val_name ++ ".csv"]%string in
  let train_csv := [data_dir; train_file] in
  val_df <- read_csv w val_csv ;;
  train_df <- read_csv w train_csv ;;
  train_array <- cols_prefix feature_dim (values train_df) ;;
  train_tensor <- torch_tensor (values_dtype train_df) train_array ;;
  train_tensor <- add_positional_encoding (unsqueeze0 train_tensor) ;;
  val_array <- cols_prefix feature_dim (values val_df) ;;
  val_tensor <- torch_tensor (values_dtype val_df) val_array ;;
  dec_input <- last_rows window_size val_tensor ;;
  dec_input <- add_positional_encoding (unsqueeze0 dec_input) ;;
  enc_out <- Encoder.forward (encoder st) train_tensor ;;
  dec_out <- Decoder.forward (decoder st) dec_input enc_out ;;
  pred_log_rul <- RULHead.forward (rul_head st) dec_out ;;
  item pred_log_rul.

(** The body of the loop at lines 137-161: the scalar, its inverse
    transform (line 154), the appended row and the printed line. *)
Definition session (w : World) (data_dir : string) (feature_dim window_size : nat)
  (entry : string * string) (st : Locals) : result Locals :=
  s <- session_scalar w data_dir feature_dim window_size entry st ;;
  pred_rul <- inverse_transform (float64 w) s ;;
  Ok (mkLocals (encoder st) (decoder st) (rul_head st)
               (results st ++ [mkRow (fst entry) (snd entry) pred_rul])
               (stdout st ++
                  [PrintPrediction (fst entry) (snd entry) pred_rul])).

(** Lines 110-123: the seed is set, the three modules are built and
    their weights are loaded from the files named by [model_paths]. *)
Definition load_models (w : World) (model_paths : list (string * string))
  (feature_dim : nat) : result Locals :=
  let rng := set_seed w 42 in
  encoder <- Encoder.init rng 3 feature_dim 4 256 ;;
  decoder <- Decoder.init rng 3 feature_dim 4 256 ;;
  let rul_head := RULHead.init rng feature_dim [128; 64] in
  pe <- dict_get model_paths "encoder" ;;
  ce <- torch_load w pe ;;
  encoder <- match ce with
             | EncoderCk sd => Encoder.load_state_dict encoder sd
             | _ => Err (LoadError "missing or unexpected keys")
             end ;;
  pd <- dict_get model_paths "decoder" ;;
  cd <- torch_load w pd ;;
  decoder <- match cd with
             | DecoderCk sd => Decoder.load_state_dict decoder sd
             | _ => Err (LoadError "missing or unexpected keys")
             end ;;
  ph <- dict_get model_paths "regressor" ;;
  ch <- torch_load w ph ;;
  rul_head <- match ch with
              | HeadCk sd => RULHead.load_state_dict rul_head sd
              | _ => Err (LoadError "missing or unexpected keys")
              end ;;
  Ok (mkLocals encoder decoder rul_head [] []).

Definition infer_rul_without_gt (w : World)
  (model_paths : list (string * string)) (data_dir output_csv_path : string)
  (feature_dim window_size : nat) : result Output :=
  st <- load_models w model_paths feature_dim ;;
  st <- foldM (session w data_dir feature_dim window_size) best_matches st ;;
  if can_write w output_csv_path
  then Ok (mkOutput (results st) (output_csv_path, results st)
                    (stdout st ++ [PrintSaved output_csv_path]))
  else Err (OSError output_csv_path).

(** ** Well-formed modules

    What the constructors establish and [load_state_dict] preserves: the
    attributes and the parameter shapes for a model dimension and a number
    of heads. *)

Definition Linear_wf (i o : nat) (l : Linear) : Prop :=
  shape (weight l) = [o; i] /\ shape (bias l) = [o].

Definition SelfAttention_wf (d_model heads : nat) (m : SelfAttention.t) : Prop :=
  SelfAttention.h m = heads /\
  SelfAttention.dk m = d_model / heads /\
  Linear_wf d_model (d_model * 3) (SelfAttention.qkv m) /\
  Linear_wf d_model d_model (SelfAttention.out m).

Definition CrossAttention_wf (d_model heads : nat)
  (m : MultiHeadCrossAttention.t) : Prop :=
  MultiHeadCrossAttention.h m = heads /\
  MultiHeadCrossAttention.dk m = d_model / heads /\
  Linear_wf d_model d_model (MultiHeadCrossAttention.q m) /\
  Linear_wf d_model (d_model * 2) (MultiHeadCrossAttention.kv m) /\
  Linear_wf d_model d_model (MultiHeadCrossAttention.out m).

(** A Sequential whose linear layers chain from width [i] to width [o]. *)
Fixpoint Net_wf (i o : nat) (net : list NetLayer) : Prop :=
  match net with
  | [] => i = o
  | NGELU :: net' => Net_wf i o net'
  | NLinear l :: net' => exists m, Linear_wf i m l /\ Net_wf m o net'
  end.

Definition FeedForward_wf (d_model : nat) (m : FeedForward.t) : Prop :=
  Net_wf d_model d_model (FeedForward.net m).

Definition Encoder_wf (d_model heads : nat) (m : Encoder.t) : Prop :=
  Forall (fun l => SelfAttention_wf d_model heads (fst l) /\
                   FeedForward_wf d_model (snd l)) (Encoder.layers m).

Definition Decoder_wf (d_model heads : nat) (m : Decoder.t) : Prop :=
  Forall (SelfAttention_wf d_model heads) (Decoder.self_layers m) /\
  Forall (CrossAttention_wf d_model heads) (Decoder.cross_layers m) /\
  Forall (FeedForward_wf d_model) (Decoder.ffns m).

Definition RULHead_wf (d_model : nat) (m : RULHead.t) : Prop :=
  Net_wf d_model 1 (RULHead.net m).

(** All entries of a linear layer (weight and bias) are zero. *)
Definition Linear_zero (l : Linear) : Prop :=
  (forall idx, get (weight l) idx = 0%R) /\ (forall idx, get (bias l) idx = 0%R).

(** Two tensors of shape [s] with the same entries inside the shape. *)
Definition agree (s : list nat) (a b : Tensor) : Prop :=
  shape a = s /\ shape b = s /\
  forall idx, in_bounds s idx -> get a idx = get b idx.

(** The output widths of the linear layers of a Sequential, in order. *)
Fixpoint widths (net : list NetLayer) : list nat :=
  match net with
  | [] => []
  | NLinear l :: net' => nth 0 (shape (weight l)) 0 :: widths net'
  | NGELU :: net' => widths net'
  end.


(** The files a session needs: both tables exist, each has at least
    [feature_dim] columns, and neither gives an [object] array, so each
    has at least one data row and only numeric columns.  Nothing relates
    the number of rows to the window size. *)
Definition Session_files (w : World) (data_dir : string) (feature_dim : nat)
  (entry : string * string) : Prop :=
  exists base val_df train_df,
    base_dir w = Some base /\
    csv_files w [base; "validation"; "feature"; fst entry ++ ".csv"]%string
      = Some val_df /\
    csv_files w [data_dir; snd entry] = Some train_df /\
    feature_dim <= ncols val_df /\ feature_dim <= ncols train_df /\
    values_dtype val_df <> Object /\ values_dtype train_df <> Object.

(** ** Example worlds *)

(** A table of n rows and c float columns, all zero. *)
Definition zero_df (n c : nat) : DataFrame :=
  mkDF n c (fun _ => Number) (fun _ _ => 0%R).

(** Exact arithmetic inside the binary64 range: the power and the
    difference are not rounded, and [math_pow] raises above the largest
    finite number. *)
Definition exact_float64 : Float64 :=
  mkFloat64 (fun x y => if Rlt_dec max_float (Rpower x y)
                        then Err OverflowError else Ok (Rpower x y))
            Rminus.

Definition const_linear (i o : nat) (b : R) : Linear :=
  mkLinear (zeros [o; i]) (mkT [o] (fun _ => b)).

Definition example_encoder_sd (D : nat) : Encoder.state_dict :=
  repeat ((const_linear D (D * 3) 0, const_linear D D 0),
          [const_linear D 256 0; const_linear 256 D 0]) 3.

Definition example_decoder_sd (D : nat) : Decoder.state_dict :=
  (repeat (const_linear D (D * 3) 0, const_linear D D 0) 3,
   repeat (const_linear D D 0, const_linear D (D * 2) 0, const_linear D D 0) 3,
   repeat [const_linear D 256 0; const_linear 256 D 0] 3).

(** A head whose last layer has a zero matrix and bias [b]. *)
Definition example_head_sd (D : nat) (b : R) : list Linear :=
  [const_linear D 128 0; const_linear 128 64 0; const_linear 64 1 b].

Definition example_paths : list (string * string) :=
  [("encoder", "encoder.pth"); ("decoder", "decoder.pth");
   ("regressor", "head.pth")]%string.

Fixpoint path_eqb (p q : path) : bool :=
  match p, q with
  | [], [] => true
  | a :: p', b :: q' => String.eqb a b && path_eqb p' q'
  | _, _ => false
  end.

(** Feature width 4; validation1 has 10 rows, every other table 30; every
    path can be written except those under "nowhere/". *)
Definition example_world (base : option string) (b : R) : World :=
  mkWorld base
          (fun _ _ _ => 0%R)
          (fun f => if String.eqb f "encoder.pth"
                    then Some (EncoderCk (example_encoder_sd 4))
                    else if String.eqb f "decoder.pth"
                    then Some (DecoderCk (example_decoder_sd 4))
                    else if String.eqb f "head.pth"
                    then Some (HeadCk (example_head_sd 4 b))
                    else None)
          (fun p => if path_eqb p ["data"; "validation"; "feature";
                                   "validation1.csv"]%string
                    then Some (zero_df 10 4)
                    else Some (zero_df 30 4))
          (fun p => negb (String.prefix "nowhere/" p))
          exact_float64.

(** Small blocks for model dimension 4 and 2 heads, all parameters zero. *)
Definition example_sa : SelfAttention.t :=
  SelfAttention.mk 2 2 (const_linear 4 12 0) (const_linear 4 4 0).

Definition example_ca : MultiHeadCrossAttention.t :=
  MultiHeadCrossAttention.mk 2 2 (const_linear 4 4 0) (const_linear 4 8 0)
                             (const_linear 4 4 0).

(** A tensor whose entry is its feature index. *)
Definition ramp (s : list nat) : Tensor := mkT s (fun idx => INR (last idx 0)).

(** All ones except at time index [t], where it is zero. *)
Definition zero_at_step (s : list nat) (t : nat) : Tensor :=
  mkT s (fun idx => if nth 1 idx 0 =? t then 0%R else 1%R).

(** The example world with base_dir "data", zero weights and the tables
    given by [tables]. *)
Definition example_world_tables (tables : path -> option DataFrame) : World :=
  mkWorld (Some "data"%string)
          (seeded_rng (example_world None 0))
          (torch_files (example_world None 0))
          tables
          (can_write (example_world None 0))
          exact_float64.

(** Every table has 30 rows and 4 columns, except that [p] is missing. *)
Definition tables_without (p : path) (q : path) : option DataFrame :=
  if path_eqb q p then None else Some (zero_df 30 4).

(** Every table has 30 rows and 4 columns, except that [p] holds [df]. *)
Definition tables_with (p : path) (df : DataFrame) (q : path)
  : option DataFrame :=
  if path_eqb q p then Some df else Some (zero_df 30 4).

(** The line printed for a row (line 161). *)
Definition print_of_row (r : PredictionResult) : Printed :=
  PrintPrediction (Validation r) (Best_Train r) (Pred_RUL r).

(** ** Architectures

    What [load_state_dict] reads of the module it loads into: the shapes
    of its parameters and the places of its layers, not their values. *)

Definition Linear_arch (l : Linear) : list nat * list nat :=
  (shape (weight l), shape (bias l)).

Definition SelfAttention_arch (m : SelfAttention.t) :=
  (SelfAttention.h m, SelfAttention.dk m,
   Linear_arch (SelfAttention.qkv m), Linear_arch (SelfAttention.out m)).

Definition CrossAttention_arch (m : MultiHeadCrossAttention.t) :=
  (MultiHeadCrossAttention.h m, MultiHeadCrossAttention.dk m,
   Linear_arch (MultiHeadCrossAttention.q m),
   Linear_arch (MultiHeadCrossAttention.kv m),
   Linear_arch (MultiHeadCrossAttention.out m)).

Definition Net_arch (net : list NetLayer) : list (option (list nat * list nat)) :=
  map (fun n => match n with
                | NLinear l => Some (Linear_arch l)
                | NGELU => None
                end) net.

Definition Encoder_arch (m : Encoder.t) :=
  map (fun l => (SelfAttention_arch (fst l), Net_arch (FeedForward.net (snd l))))
      (Encoder.layers m).

Definition Decoder_arch (m : Decoder.t) :=
  (map SelfAttention_arch (Decoder.self_layers m),
   map CrossAttention_arch (Decoder.cross_layers m),
   map (fun ff => Net_arch (FeedForward.net ff)) (Decoder.ffns m)).

(** A world that differs from [w] in its random generator only. *)
Definition reseed (w : World) (rng : nat -> Rng) : World :=
  mkWorld (base_dir w) rng (torch_files w) (csv_files w) (can_write w)
          (float64 w).

(** ** Tables that look alike to a session *)

(** The first row of [t[-w:]] in a table of n rows (line 147). *)
Definition window_start (w n : nat) : nat := if w =? 0 then 0 else n - w.

(** The same last-w-rows window on the first D columns. *)
Definition same_window (D w : nat) (a b : DataFrame) : Prop :=
  nrows a - window_start w (nrows a) = nrows b - window_start w (nrows b) /\
  forall i j, i < nrows a - window_start w (nrows a) -> j < D ->
    cell a (window_start w (nrows a) + i) j =
    cell b (window_start w (nrows b) + i) j.

(** The same rows on the first D columns. *)
Definition same_columns (D : nat) (a b : DataFrame) : Prop :=
  nrows a = nrows b /\
  forall i j, i < nrows a -> j < D -> cell a i j = cell b i j.

(** The tables of one session in two worlds: all four exist, have at
    least D columns and give no [object] array; the validation tables
    have the same window and the training tables the same first D
    columns. *)
Definition Session_alike (w w' : World) (dd dd' : string) (D ws : nat)
  (entry : string * string) : Prop :=
  exists base base' val_df val_df' train_df train_df',
    base_dir w = Some base /\ base_dir w' = Some base' /\
    csv_files w [base; "validation"; "feature"; fst entry ++ ".csv"]%string
      = Some val_df /\
    csv_files w' [base'; "validation"; "feature"; fst entry ++ ".csv"]%string
      = Some val_df' /\
    csv_files w [dd; snd entry] = Some train_df /\
    csv_files w' [dd'; snd entry] = Some train_df' /\
    D <= ncols val_df /\ D <= ncols val_df' /\
    D <= ncols train_df /\ D <= ncols train_df' /\
    values_dtype val_df <> Object /\ values_dtype val_df' <> Object /\
    values_dtype train_df <> Object /\ values_dtype train_df' <> Object /\
    same_window D ws val_df val_df' /\ same_columns D train_df train_df'.

(** A table of 40 rows and 6 float columns that is zero on its last 21
    rows and first 4 columns and one elsewhere. *)
Definition padded_df : DataFrame :=
  mkDF 40 6 (fun _ => Number)
       (fun i j => if (i <? 19) || (4 <=? j) then 1%R else 0%R).

(** ** The storage of tensors

    The definitions above give every tensor its value.  The ones below
    run the same code on a store, to say which tensor objects share
    memory and which statements write it: a tensor object is a view of a
    storage; an operation that returns a new tensor allocates a storage;
    indexing, slicing, [view], [permute], [transpose], [unsqueeze] and
    [squeeze] return a view of the storage of their operand; and the
    slice assignments of lines 28 and 29 write the storage of [pe] in
    place.  The parameters of the three modules are storages like any
    other. *)

Module Storage.

Definition loc : Type := nat.

(** The store: the storages allocated so far, which are those below
    [next], and the files [torch.load] was called on, in order. *)
Record Heap : Type :=
  mkHeap { next : loc; cells : loc -> Tensor; loads : list string }.

(** A tensor object: its storage and the view it takes of it. *)
Record TRef : Type := mkRef { base : loc; look : Tensor -> Tensor }.

(** The value of a tensor object in a store. *)
Definition deref (h : Heap) (r : TRef) : Tensor := look r (cells h (base r)).

(** Something that is read off the store, such as a module with the
    current values of its parameters. *)
Definition Reader (A : Type) : Type := Heap -> A.

Definition M (A : Type) : Type := Heap -> result (A * Heap).

Definition ret {A : Type} (a : A) : M A := fun h => Ok (a, h).

Definition mbind {A B : Type} (m : M A) (k : A -> M B) : M B :=
  fun h => match m h with
           | Ok (a, h') => k a h'
           | Err e => Err e
           end.

Declare Scope store_scope.
Delimit Scope store_scope with store.
Notation "x <~ m ;; k" := (mbind m (fun x => k))
  (at level 61, m at next level, right associativity) : store_scope.
Local Open Scope store_scope.

(** An operation without effect on the store. *)
Definition lift {A : Type} (r : result A) : M A :=
  fun h => match r with
           | Ok a => Ok (a, h)
           | Err e => Err e
           end.

(** The store with one more storage, holding [t]. *)
Definition grow (h : Heap) (t : Tensor) : Heap :=
  mkHeap (S (next h)) (fun l => if l =? next h then t else cells h l)
         (loads h).

(** The store with the storage [l] overwritten by [t]. *)
Definition put (h : Heap) (l : loc) (t : Tensor) : Heap :=
  mkHeap (next h) (fun l' => if l' =? l then t else cells h l') (loads h).

(** The tensor object that owns the storage [l]. *)
Definition owner (l : loc) : TRef := mkRef l (fun s => s).

(** The view [f] of the tensor object [r]. *)
Definition view_of (f : Tensor -> result Tensor) (r : TRef) : TRef :=
  mkRef (base r) (fun s => match f (look r s) with
                           | Ok y => y
                           | Err _ => look r s
                           end).

(** A new tensor with the value [t]. *)
Definition alloc (t : Tensor) : M TRef :=
  fun h => Ok (owner (next h), grow h t).

(** An out-of-place operation: it reads its operands in the store and
    returns a new tensor. *)
Definition compute (e : Heap -> result Tensor) : M TRef :=
  fun h => match e h with
           | Ok y => alloc y h
           | Err err => Err err
           end.

(** A view operation on [r]: the result shares the storage of [r]. *)
Definition alias (f : Tensor -> result Tensor) (r : TRef) : M TRef :=
  fun h => match f (deref h r) with
           | Ok _ => Ok (view_of f r, h)
           | Err err => Err err
           end.

(** [dst[:, start::2] = src], for a tensor [dst] that owns its storage:
    the storage of [dst] is overwritten. *)
Definition setitem_cols_in_place (dst : TRef) (start : nat)
  (src : Heap -> result Tensor) : M unit :=
  fun h => match src h with
           | Ok v =>
               match setitem_cols (deref h dst) start v with
               | Ok t => Ok (tt, put h (base dst) t)
               | Err err => Err err
               end
           | Err err => Err err
           end.

(** [x.shape]. *)
Definition shape_of (x : TRef) : M (list nat) :=
  fun h => Ok (shape (deref h x), h).

(** An attribute of an object in the store, such as [self.dk]. *)
Definition read {A : Type} (rd : Reader A) : M A := fun h => Ok (rd h, h).

(** Lines 22-30. *)
Definition add_positional_encoding (x : TRef) : M TRef :=
  s <~ shape_of x ;;
  match s with
  | [B; L; D] =>
      pos <~ alloc (arange_column L) ;;
      c <~ lift (if D =? 0 then Err ZeroDivisionError
                 else Ok (- ln 10000 / INR D)%R) ;;
      div <~ alloc (tmap exp (tmap (fun v => v * c)%R (arange_step2 D))) ;;
      pe <~ alloc (zeros [L; D]) ;;
      _ <~ setitem_cols_in_place pe 0
             (fun h => a <- mul (deref h pos) (deref h div) ;; Ok (tmap sin a)) ;;
      _ <~ setitem_cols_in_place pe 1
             (fun h => a <- mul (deref h pos) (deref h div) ;; Ok (tmap cos a)) ;;
      compute (fun h => e <- expand (unsqueeze0 (deref h pe)) [B; L; D] ;;
                        add (deref h x) e)
  | _ => lift (Err ValueError)
  end.

(** [l(x)] for an [nn.Linear] whose parameters are read in the store. *)
Definition Linear_forward (l : Reader Linear) (x : TRef) : M TRef :=
  compute (fun h => linear (l h) (deref h x)).

(** A layer of an [nn.Sequential]: a linear layer with its parameters in
    the store, or a GELU. *)
Definition NetLayerH : Type := option (Reader Linear).

Definition NetLayer_at (h : Heap) (n : NetLayerH) : NetLayer :=
  match n with
  | Some l => NLinear (l h)
  | None => NGELU
  end.

Definition NetLayer_forward (n : NetLayerH) (x : TRef) : M TRef :=
  match n with
  | Some l => Linear_forward l x
  | None => compute (fun h => Ok (tmap gelu (deref h x)))
  end.

(** [for a in xs: x = f(a, x)] on the store. *)
Fixpoint foldH {A : Type} (f : A -> TRef -> M TRef) (xs : list A) (x : TRef)
  : M TRef :=
  match xs with
  | [] => ret x
  | a :: xs' => y <~ f a x ;; foldH f xs' y
  end.

Definition Sequential_forward (net : list NetLayerH) (x : TRef) : M TRef :=
  foldH NetLayer_forward net x.

(** Lines 40-45. *)
Definition SelfAttention_forward (self : Reader SelfAttention.t) (x : TRef)
  : M TRef :=
  s <~ shape_of x ;;
  match s with
  | [B; L; D] =>
      heads <~ read (fun h => SelfAttention.h (self h)) ;;
      dk <~ read (fun h => SelfAttention.dk (self h)) ;;
      y <~ Linear_forward (fun h => SelfAttention.qkv (self h)) x ;;
      y <~ alias (fun t => view t [B; L; 3; heads; dk]) y ;;
      y <~ alias (fun t => permute t [2; 0; 3; 1; 4]) y ;;
      Q <~ alias (fun t => select0 t 0) y ;;
      K <~ alias (fun t => select0 t 1) y ;;
      V <~ alias (fun t => select0 t 2) y ;;
      Kt <~ alias transpose_last2 K ;;
      W <~ compute (fun h => matmul (deref h Q) (deref h Kt)) ;;
      A <~ compute (fun h => softmax_last
                               (div_scalar (deref h W) (sqrt (INR dk)))) ;;
      AV <~ compute (fun h => matmul (deref h A) (deref h V)) ;;
      AV <~ alias (fun t => transpose t 1 2) AV ;;
      r <~ compute (fun h => view (deref h AV) [B; L; D]) ;;
      o <~ Linear_forward (fun h => SelfAttention.out (self h)) r ;;
      compute (fun h => add (deref h o) (deref h x))
  | _ => lift (Err ValueError)
  end.

(** Lines 55-62. *)
Definition CrossAttention_forward (self : Reader MultiHeadCrossAttention.t)
  (x memory : TRef) : M TRef :=
  s <~ shape_of x ;;
  match s with
  | [B; T; D] =>
      sm <~ shape_of memory ;;
      Sm <~ lift (match sm with
                  | _ :: n :: _ => Ok n
                  | _ => Err IndexError
                  end) ;;
      heads <~ read (fun h => MultiHeadCrossAttention.h (self h)) ;;
      dk <~ read (fun h => MultiHeadCrossAttention.dk (self h)) ;;
      Q <~ Linear_forward (fun h => MultiHeadCrossAttention.q (self h)) x ;;
      Q <~ alias (fun t => view t [B; T; heads; dk]) Q ;;
      Q <~ alias (fun t => permute t [0; 2; 1; 3]) Q ;;
      y <~ Linear_forward (fun h => MultiHeadCrossAttention.kv (self h)) memory ;;
      y <~ alias (fun t => view t [B; Sm; 2; heads; dk]) y ;;
      y <~ alias (fun t => permute t [2; 0; 3; 1; 4]) y ;;
      K <~ alias (fun t => select0 t 0) y ;;
      V <~ alias (fun t => select0 t 1) y ;;
      Kt <~ alias transpose_last2 K ;;
      W <~ compute (fun h => matmul (deref h Q) (deref h Kt)) ;;
      A <~ compute (fun h => softmax_last
                               (div_scalar (deref h W) (sqrt (INR dk)))) ;;
      AV <~ compute (fun h => matmul (deref h A) (deref h V)) ;;
      AV <~ alias (fun t => transpose t 1 2) AV ;;
      r <~ compute (fun h => view (deref h AV) [B; T; D]) ;;
      o <~ Linear_forward (fun h => MultiHeadCrossAttention.out (self h)) r ;;
      compute (fun h => add (deref h o) (deref h x))
  | _ => lift (Err ValueError)
  end.

(** Lines 68-69. *)
Definition FeedForward_forward (net : list NetLayerH) (x : TRef) : M TRef :=
  y <~ Sequential_forward net x ;;
  compute (fun h => add (deref h y) (deref h x)).

(** The encoder's layers: each a self-attention block and the net of a
    feed-forward block. *)
Definition EncoderH : Type :=
  list (Reader SelfAttention.t * list NetLayerH).

(** Lines 78-81. *)
Definition Encoder_forward (self : EncoderH) (x : TRef) : M TRef :=
  foldH (fun layer x =>
           x <~ SelfAttention_forward (fst layer) x ;;
           FeedForward_forward (snd layer) x)
        self x.

Record DecoderH : Type :=
  mkDecoderH { self_layers : list (Reader SelfAttention.t);
               cross_layers : list (Reader MultiHeadCrossAttention.t);
               ffns : list (list NetLayerH) }.

(** Lines 89-93. *)
Definition Decoder_forward (self : DecoderH) (tgt enc_out : TRef) : M TRef :=
  foldH (fun l x =>
           let '(sa, ca, ff) := l in
           x <~ SelfAttention_forward sa x ;;
           x <~ CrossAttention_forward ca x enc_out ;;
           FeedForward_forward ff x)
        (combine (combine (self_layers self) (cross_layers self)) (ffns self))
        tgt.

(** Lines 105-106. *)
Definition RULHead_forward (net : list NetLayerH) (x : TRef) : M TRef :=
  v <~ alias select_last_step x ;;
  y <~ Sequential_forward net v ;;
  alias (fun t => Ok (squeeze_last t)) y.

(** The module objects of a run. *)
Record Objects : Type :=
  mkObjects { encoder_obj : EncoderH;
              decoder_obj : DecoderH;
              rul_head_obj : list NetLayerH }.

(** The modules with the values their parameters have in a store. *)
Definition Net_at (h : Heap) (net : list NetLayerH) : list NetLayer :=
  map (NetLayer_at h) net.

Definition Encoder_at (h : Heap) (e : EncoderH) : Encoder.t :=
  Encoder.mk (map (fun l => (fst l h, FeedForward.mk (Net_at h (snd l)))) e).

Definition Decoder_at (h : Heap) (d : DecoderH) : Decoder.t :=
  Decoder.mk (map (fun r => r h) (self_layers d))
             (map (fun r => r h) (cross_layers d))
             (map (fun n => FeedForward.mk (Net_at h n)) (ffns d)).

Definition RULHead_at (h : Heap) (net : list NetLayerH) : RULHead.t :=
  RULHead.mk (Net_at h net).

(** The parameters of a linear layer as two new storages. *)
Definition place_Linear (l : Linear) : M (Reader Linear) :=
  w <~ alloc (weight l) ;;
  b <~ alloc (bias l) ;;
  ret (fun h => mkLinear (deref h w) (deref h b)).

Definition place_NetLayer (n : NetLayer) : M NetLayerH :=
  match n with
  | NLinear l => r <~ place_Linear l ;; ret (Some r)
  | NGELU => ret None
  end.

(** [[f(x) for x in xs]] on the store. *)
Fixpoint mapH {A B : Type} (f : A -> M B) (xs : list A) : M (list B) :=
  match xs with
  | [] => ret []
  | x :: xs' => y <~ f x ;; ys <~ mapH f xs' ;; ret (y :: ys)
  end.

Definition place_SelfAttention (m : SelfAttention.t)
  : M (Reader SelfAttention.t) :=
  q <~ place_Linear (SelfAttention.qkv m) ;;
  o <~ place_Linear (SelfAttention.out m) ;;
  ret (fun h => SelfAttention.mk (SelfAttention.h m) (SelfAttention.dk m)
                                 (q h) (o h)).

Definition place_CrossAttention (m : MultiHeadCrossAttention.t)
  : M (Reader MultiHeadCrossAttention.t) :=
  q <~ place_Linear (MultiHeadCrossAttention.q m) ;;
  kv <~ place_Linear (MultiHeadCrossAttention.kv m) ;;
  o <~ place_Linear (MultiHeadCrossAttention.out m) ;;
  ret (fun h => MultiHeadCrossAttention.mk
                  (MultiHeadCrossAttention.h m) (MultiHeadCrossAttention.dk m)
                  (q h) (kv h) (o h)).

Definition place_Encoder (m : Encoder.t) : M EncoderH :=
  mapH (fun l => sa <~ place_SelfAttention (fst l) ;;
                 ff <~ mapH place_NetLayer (FeedForward.net (snd l)) ;;
                 ret (sa, ff))
       (Encoder.layers m).

Definition place_Decoder (m : Decoder.t) : M DecoderH :=
  sl <~ mapH place_SelfAttention (Decoder.self_layers m) ;;
  cl <~ mapH place_CrossAttention (Decoder.cross_layers m) ;;
  fl <~ mapH (fun ff => mapH place_NetLayer (FeedForward.net ff))
             (Decoder.ffns m) ;;
  ret (mkDecoderH sl cl fl).

(** [torch.load(file)]: the call is recorded in the store. *)
Definition torch_load_logged (w : World) (file : string) : M Checkpoint :=
  fun h => match torch_load w file with
           | Ok c => Ok (c, mkHeap (next h) (cells h) (loads h ++ [file]))
           | Err e => Err e
           end.

(** Lines 110-123.  The constructors create the parameters, which are
    storages, and [load_state_dict] copies the values of the checkpoint
    into them: after line 121 every parameter is a storage that holds the
    value loaded for it. *)
Definition load_models (w : World) (model_paths : list (string * string))
  (feature_dim : nat) : M Objects :=
  let rng := set_seed w 42 in
  encoder <~ lift (Encoder.init rng 3 feature_dim 4 256) ;;
  decoder <~ lift (Decoder.init rng 3 feature_dim 4 256) ;;
  let rul_head := RULHead.init rng feature_dim [128; 64] in
  pe <~ lift (dict_get model_paths "encoder") ;;
  ce <~ torch_load_logged w pe ;;
  encoder <~ lift (match ce with
                   | EncoderCk sd => Encoder.load_state_dict encoder sd
                   | _ => Err (LoadError "missing or unexpected keys")
                   end) ;;
  pd <~ lift (dict_get model_paths "decoder") ;;
  cd <~ torch_load_logged w pd ;;
  decoder <~ lift (match cd with
                   | DecoderCk sd => Decoder.load_state_dict decoder sd
                   | _ => Err (LoadError "missing or unexpected keys")
                   end) ;;
  ph <~ lift (dict_get model_paths "regressor") ;;
  ch <~ torch_load_logged w ph ;;
  rul_head <~ lift (match ch with
                    | HeadCk sd => RULHead.load_state_dict rul_head sd
                    | _ => Err (LoadError "missing or unexpected keys")
                    end) ;;
  e <~ place_Encoder encoder ;;
  d <~ place_Decoder decoder ;;
  r <~ mapH place_NetLayer (RULHead.net rul_head) ;;
  ret (mkObjects e d r).

(** Lines 137-153 and the [.item()] of line 154. *)
Definition session_scalar (w : World) (data_dir : string)
  (feature_dim window_size : nat) (entry : string * string) (ob : Objects)
  : M R :=
  let '(val_name, train_file) := entry in
  base <~ lift (global_base_dir w) ;;
  let val_csv := [base; "validation"; "feature"; val_name ++ ".csv"]%string in
  let train_csv := [data_dir; train_file] in
  val_df <~ lift (read_csv w val_csv) ;;
  train_df <~ lift (read_csv w train_csv) ;;
  train_array <~ lift (cols_prefix feature_dim (values train_df)) ;;
  train_tensor <~ compute (fun _ => torch_tensor (values_dtype train_df)
                                                train_array) ;;
  train_tensor <~ alias (fun t => Ok (unsqueeze0 t)) train_tensor ;;
  train_tensor <~ add_positional_encoding train_tensor ;;
  val_array <~ lift (cols_prefix feature_dim (values val_df)) ;;
  val_tensor <~ compute (fun _ => torch_tensor (values_dtype val_df)
                                              val_array) ;;
  dec_input <~ alias (last_rows window_size) val_tensor ;;
  dec_input <~ alias (fun t => Ok (unsqueeze0 t)) dec_input ;;
  dec_input <~ add_positional_encoding dec_input ;;
  enc_out <~ Encoder_forward (encoder_obj ob) train_tensor ;;
  dec_out <~ Decoder_forward (decoder_obj ob) dec_input enc_out ;;
  pred_log_rul <~ RULHead_forward (rul_head_obj ob) dec_out ;;
  v <~ read (fun h => deref h pred_log_rul) ;;
  lift (item v).

(** The rows and the printed lines of the loop. *)
Record Locals : Type :=
  mkLocals { results : list PredictionResult; stdout : list Printed }.

(** The body of the loop at lines 137-161. *)
Definition session (w : World) (data_dir : string)
  (feature_dim window_size : nat) (ob : Objects) (entry : string * string)
  (st : Locals) : M Locals :=
  s <~ session_scalar w data_dir feature_dim window_size entry ob ;;
  pred_rul <~ lift (inverse_transform (float64 w) s) ;;
  ret (mkLocals (results st ++ [mkRow (fst entry) (snd entry) pred_rul])
                (stdout st ++
                   [PrintPrediction (fst entry) (snd entry) pred_rul])).

(** The loop of line 136 over a list of entries. *)
Fixpoint sessions (w : World) (data_dir : string)
  (feature_dim window_size : nat) (ob : Objects)
  (entries : list (string * string)) (st : Locals) : M Locals :=
  match entries with
  | [] => ret st
  | e :: es =>
      st' <~ session w data_dir feature_dim window_size ob e st ;;
      sessions w data_dir feature_dim window_size ob es st'
  end.

Definition infer_rul_without_gt (w : World)
  (model_paths : list (string * string)) (data_dir output_csv_path : string)
  (feature_dim window_size : nat) : M Output :=
  ob <~ load_models w model_paths feature_dim ;;
  st <~ sessions w data_dir feature_dim window_size ob best_matches
          (mkLocals [] []) ;;
  lift (if can_write w output_csv_path
        then Ok (mkOutput (results st) (output_csv_path, results st)
                          (stdout st ++ [PrintSaved output_csv_path]))
        else Err (OSError output_csv_path)).

(** The storages below [n] are the same in both stores. *)
Definition same_below (n : loc) (h h' : Heap) : Prop :=
  forall l, l < n -> cells h' l = cells h l.

(** [h'] comes after [h]: it keeps every storage of [h] with its content
    and has read no further file. *)
Definition extends (h h' : Heap) : Prop :=
  next h <= next h' /\ same_below (next h) h h' /\ loads h' = loads h.

(** The tensor object reads a storage of the store. *)
Definition valid (h : Heap) (r : TRef) : Prop := base r < next h.

(** What is read depends on the storages below [n] only. *)
Definition stable {A : Type} (n : loc) (rd : Reader A) : Prop :=
  forall h h', same_below n h h' -> rd h' = rd h.

Definition NetLayer_stable (n : loc) (l : NetLayerH) : Prop :=
  match l with
  | Some rd => stable n rd
  | None => True
  end.

(** The module objects read their parameters below [n]. *)
Definition Objects_stable (n : loc) (ob : Objects) : Prop :=
  Forall (fun l => stable n (fst l) /\ Forall (NetLayer_stable n) (snd l))
         (encoder_obj ob) /\
  (Forall (stable n) (self_layers (decoder_obj ob)) /\
   Forall (stable n) (cross_layers (decoder_obj ob)) /\
   Forall (Forall (NetLayer_stable n)) (ffns (decoder_obj ob))) /\
  Forall (NetLayer_stable n) (rul_head_obj ob).

(** The outcome [o] of a run on the store from [h] matches the value [v]:
    the same exception, or a tensor object of the store reached that has
    the value, in a store that comes after [h]. *)
Definition matches (h : Heap) (o : result (TRef * Heap)) (v : result Tensor)
  : Prop :=
  match v with
  | Ok y => exists r h', o = Ok (r, h') /\ deref h' r = y /\
                         extends h h' /\ valid h' r
  | Err e => o = Err e
  end.

(** The same for a run that returns a value and not a tensor object. *)
Definition returns {A : Type} (h : Heap) (o : result (A * Heap))
  (v : result A) : Prop :=
  match v with
  | Ok a => exists h', o = Ok (a, h') /\ extends h h'
  | Err e => o = Err e
  end.

End Storage.
(** * Properties *)

(** ** The binary64 arithmetic of line 154 *)








Lemma max_float_ge_1 : (1 <= max_float)%R.
Proof. unfold max_float. apply IZR_le. vm_compute. discriminate. Qed.

Lemma max_float_lt_2_1024 : (max_float < IZR (2 ^ 1024))%R.
Proof. unfold max_float. apply IZR_lt. vm_compute. reflexivity. Qed.




(** The transform fails only by the OverflowError of [math.pow], above
    the largest finite number, and always from 2^1024 on. *)
Lemma inverse_transform_err (F : Float64) (s : R) (e : exn) :
  Float64_ok F -> inverse_transform F s = Err e ->
  e = OverflowError /\ (max_float < Rpower 100 s)%R.
Proof.
  intros HF H. unfold inverse_transform in H.
  destruct (math_pow F 100 s) as [p|e'] eqn:Ep; [discriminate|].
  cbn [bind] in H. injection H as <-.
  exact (pow_raises F HF 100 s e' ltac:(lra) Ep).
Qed.






(** The exact arithmetic of the example worlds is one such arithmetic. *)
Lemma exact_float64_ok : Float64_ok exact_float64.
Proof.
  constructor; unfold exact_float64; cbn [math_pow float_sub].
  - intros x y p Hx H. destruct (Rlt_dec _ _) as [Hlt|Hge]; [discriminate|].
    injection H as <-. split.
    + rewrite Rabs_pos_eq; [lra|]. unfold Rpower. apply Rlt_le, exp_pos.
    + intros f _. split; auto.
  - intros x y e Hx H. destruct (Rlt_dec _ _) as [Hlt|Hge]; [|discriminate].
    injection H as <-. split; [reflexivity|exact Hlt].
  - intros x y Hx H. pose proof max_float_lt_2_1024.
    destruct (Rlt_dec _ _) as [Hlt|Hge]; [reflexivity|lra].
  - intros a b _ f _. split; auto.
  - intros a a' b H _ _. lra.
Qed.

Lemma exact_inverse_transform (s : R) :
  (Rpower 100 s <= max_float)%R ->
  inverse_transform exact_float64 s = Ok (Rpower 100 s - 1)%R.
Proof.
  intros H. unfold inverse_transform, exact_float64. cbn [math_pow float_sub].
  destruct (Rlt_dec _ _) as [Hlt|Hge]; [lra|reflexivity].
Qed.

(** ** The tensor operations on small inputs *)

Example ravel_unravel_example :
  ravel [2; 3; 4] [1; 2; 3] = 23 /\ unravel [2; 3; 4] 23 = [1; 2; 3].
Proof. split; reflexivity. Qed.

Example view_row_major_example :
  exists y, view (mkT [2; 3] (fun idx => INR (ravel [2; 3] idx))) [3; 2] = Ok y /\
            shape y = [3; 2] /\ get y [2; 1] = INR 5.
Proof. eexists. repeat split. Qed.

Example permute_example :
  exists y, permute (mkT [2; 3] (fun idx => INR (ravel [2; 3] idx))) [1; 0] = Ok y /\
            shape y = [3; 2] /\ get y [2; 1] = INR (ravel [2; 3] [1; 2]).
Proof. eexists. repeat split. Qed.

Example permute_rejects_repeats :
  permute (zeros [2; 3]) [0; 0] = Err (ShapeError "permute" [2; 3] [0; 0]).
Proof. reflexivity. Qed.

Example view_rejects_wrong_count :
  view (zeros [2; 3]) [4; 2] = Err (ShapeError "view" [2; 3] [4; 2]).
Proof. reflexivity. Qed.

Example last_rows_long_example :
  exists y, last_rows 21 (mkT [30; 4] (fun idx => INR (hd 0 idx))) = Ok y /\
            shape y = [21; 4] /\ get y [0; 1] = INR 9.
Proof. eexists. repeat split. Qed.

Example last_rows_short_example :
  exists y, last_rows 21 (mkT [10; 4] (fun idx => INR (hd 0 idx))) = Ok y /\
            shape y = [10; 4] /\ get y [0; 1] = INR 0.
Proof. eexists. repeat split. Qed.

Example last_rows_zero_example :
  exists y, last_rows 0 (zeros [10; 4]) = Ok y /\ shape y = [10; 4].
Proof. eexists. repeat split. Qed.

Example select_last_step_rank4 :
  exists y, select_last_step (ramp [2; 3; 4; 5]) = Ok y /\ shape y = [2; 4; 5].
Proof. eexists. split; reflexivity. Qed.

Example expand_singleton_to_empty :
  exists y, expand (zeros [3; 1]) [3; 0] = Ok y /\ shape y = [3; 0].
Proof. eexists. repeat split. Qed.

Example expand_rejects_two_to_one :
  expand (zeros [3; 2]) [3; 1] = Err (ShapeError "expand" [3; 2] [3; 1]).
Proof. reflexivity. Qed.

Example SelfAttention_init_example :
  SelfAttention.init (fun _ _ => 0%R) 37 4 = Err AssertionError /\
  SelfAttention.init (fun _ _ => 0%R) 36 0 = Err ZeroDivisionError.
Proof. split; reflexivity. Qed.

(** ** Shapes of the tensor operations *)

Lemma shape_eqb_refl (s : list nat) : shape_eqb s s = true.
Proof. induction s; simpl; [reflexivity|]. now rewrite Nat.eqb_refl. Qed.

Lemma shape_eqb_eq (s1 s2 : list nat) : shape_eqb s1 s2 = true <-> s1 = s2.
Proof.
  split; [|intros ->; apply shape_eqb_refl].
  revert s2; induction s1 as [|a s1 IH]; intros [|b s2]; simpl; try discriminate; auto.
  intros H. apply andb_prop in H as [H1 H2].
  apply Nat.eqb_eq in H1. f_equal; auto.
Qed.

Lemma sum_upto_ext (n : nat) (f g : nat -> R) :
  (forall k, k < n -> f k = g k) -> sum_upto n f = sum_upto n g.
Proof.
  induction n; simpl; intros H; [reflexivity|].
  rewrite IHn, H by auto. reflexivity.
Qed.

Lemma sum_upto_zero (n : nat) (f : nat -> R) :
  (forall k, k < n -> f k = 0%R) -> sum_upto n f = 0%R.
Proof.
  induction n; simpl; intros H; [reflexivity|].
  rewrite IHn, H by auto. lra.
Qed.

Lemma view_ok (t : Tensor) (s : list nat) :
  numel (shape t) = numel s ->
  exists y, view t s = Ok y /\ shape y = s.
Proof.
  intros H. unfold view. rewrite H, Nat.eqb_refl. eexists; split; reflexivity.
Qed.

Lemma linear_ok (l : Linear) (x : Tensor) (pre : list nat) (i o : nat) :
  shape (weight l) = [o; i] -> shape (bias l) = [o] -> shape x = pre ++ [i] ->
  exists y, linear l x = Ok y /\ shape y = pre ++ [o] /\
    forall idx, get y idx =
      Rplus (sum_upto i (fun k => Rmult (get x (removelast idx ++ [k]))
                                        (get (weight l) [last idx 0; k])))
            (get (bias l) [last idx 0]).
Proof.
  intros Hw Hb Hx. unfold linear. rewrite Hw, Hb, Hx, rev_app_distr. simpl.
  rewrite !Nat.eqb_refl. simpl. rewrite rev_involutive.
  eexists; split; [reflexivity|]. split; reflexivity.
Qed.

Lemma permute5_ok (t : Tensor) (a b c d e : nat) :
  shape t = [a; b; c; d; e] ->
  exists y, permute t [2; 0; 3; 1; 4] = Ok y /\ shape y = [c; a; d; b; e].
Proof.
  intros H. unfold permute, rank. rewrite H. simpl.
  eexists; split; reflexivity.
Qed.

Lemma permute4_ok (t : Tensor) (a b c d : nat) :
  shape t = [a; b; c; d] ->
  exists y, permute t [0; 2; 1; 3] = Ok y /\ shape y = [a; c; b; d].
Proof.
  intros H. unfold permute, rank. rewrite H. simpl.
  eexists; split; reflexivity.
Qed.

Lemma select0_ok (t : Tensor) (k d : nat) (s : list nat) :
  shape t = d :: s -> k < d ->
  exists y, select0 t k = Ok y /\ shape y = s.
Proof.
  intros H Hk. unfold select0. rewrite H.
  apply Nat.ltb_lt in Hk. rewrite Hk. eexists; split; reflexivity.
Qed.

Lemma transpose_last2_ok (t : Tensor) (a b c d : nat) :
  shape t = [a; b; c; d] ->
  exists y, transpose_last2 t = Ok y /\ shape y = [a; b; d; c].
Proof.
  intros H. unfold transpose_last2, transpose, permute, rank. rewrite H. simpl.
  eexists; split; reflexivity.
Qed.

Lemma transpose12_ok (t : Tensor) (a b c d : nat) :
  shape t = [a; b; c; d] ->
  exists y, transpose t 1 2 = Ok y /\ shape y = [a; c; b; d].
Proof.
  intros H. unfold transpose, permute, rank. rewrite H. simpl.
  eexists; split; reflexivity.
Qed.

Lemma matmul4_ok (x y : Tensor) (a b n m p : nat) :
  shape x = [a; b; n; m] -> shape y = [a; b; m; p] ->
  exists z, matmul x y = Ok z /\ shape z = [a; b; n; p].
Proof.
  intros Hx Hy. unfold matmul. rewrite Hx, Hy. simpl.
  rewrite !Nat.eqb_refl. simpl.
  eexists; split; reflexivity.
Qed.

Lemma softmax_last_ok (t : Tensor) (pre : list nat) (n : nat) :
  shape t = pre ++ [n] ->
  exists y, softmax_last t = Ok y /\ shape y = pre ++ [n].
Proof.
  intros H. unfold softmax_last. rewrite H, rev_app_distr. simpl.
  eexists; split; reflexivity.
Qed.

Lemma bshape_rev_same (s : list nat) : bshape_rev s s = Some s.
Proof.
  induction s as [|a s IH]; simpl; [reflexivity|].
  now rewrite IH, Nat.eqb_refl.
Qed.

Lemma lastn_all {A : Type} (l : list A) : lastn (length l) l = l.
Proof. unfold lastn. now rewrite Nat.sub_diag. Qed.

Lemma bc_zip_in_bounds (s idx : list nat) :
  in_bounds s idx -> bc_zip s idx = idx.
Proof.
  unfold in_bounds. intros H. induction H as [|i d idx s Hlt H IH]; [reflexivity|].
  simpl. rewrite IH. destruct (Nat.eqb_spec d 1); [|reflexivity].
  f_equal. lia.
Qed.

Lemma in_bounds_length (s idx : list nat) :
  in_bounds s idx -> length idx = length s.
Proof. unfold in_bounds. intros H. induction H; simpl; congruence. Qed.

Lemma bc_index_in_bounds (s idx : list nat) :
  in_bounds s idx -> bc_index s idx = idx.
Proof.
  intros H. unfold bc_index.
  rewrite <- (in_bounds_length _ _ H), lastn_all.
  now apply bc_zip_in_bounds.
Qed.

Lemma add_same_shape (a b : Tensor) :
  shape a = shape b ->
  exists y, add a b = Ok y /\ shape y = shape a /\
    forall idx, in_bounds (shape a) idx -> get y idx = (get a idx + get b idx)%R.
Proof.
  intros H. unfold add, broadcast2. rewrite <- H, bshape_rev_same.
  eexists; split; [reflexivity|]. simpl. split; [apply rev_involutive|].
  intros idx Hi. now rewrite bc_index_in_bounds.
Qed.

(** ** Attention blocks *)

Ltac run_step L :=
  let y := fresh "t" in
  let Sy := fresh "S" in
  destruct L as (y & -> & Sy); cbn [bind].

Lemma heads_times_dk (D H : nat) : H <> 0 -> D mod H = 0 -> H * (D / H) = D.
Proof.
  intros HH Hm. symmetry. apply Nat.Div0.div_exact. exact Hm.
Qed.

Lemma SelfAttention_forward_ok (D H : nat) (sa : SelfAttention.t)
  (x : Tensor) (B L : nat) :
  H <> 0 -> D mod H = 0 -> SelfAttention_wf D H sa -> shape x = [B; L; D] ->
  exists r o y,
    SelfAttention.forward sa x = Ok y /\ shape y = [B; L; D] /\
    shape r = [B; L; D] /\ linear (SelfAttention.out sa) r = Ok o /\
    forall idx, in_bounds [B; L; D] idx -> get y idx = (get o idx + get x idx)%R.
Proof.
  intros HH Hm (Hh & Hdk & (Hqw & Hqb) & (How & Hob)) Hx.
  pose proof (heads_times_dk D H HH Hm) as HD.
  unfold SelfAttention.forward. rewrite Hx, Hh, Hdk.
  destruct (linear_ok _ x [B; L] _ _ Hqw Hqb Hx) as (t & E & S & _).
  rewrite E; cbn [bind].
  run_step (view_ok t [B; L; 3; H; D / H]).
  { rewrite S. simpl. nia. }
  run_step (permute5_ok _ _ _ _ _ _ S0).
  run_step (select0_ok t1 0 _ _ S1 ltac:(lia)).
  run_step (select0_ok t1 1 _ _ S1 ltac:(lia)).
  run_step (select0_ok t1 2 _ _ S1 ltac:(lia)).
  run_step (transpose_last2_ok _ _ _ _ _ S3).
  run_step (matmul4_ok _ _ _ _ _ _ _ S2 S5).
  run_step (softmax_last_ok (div_scalar t6 (sqrt (INR (D / H)))) [B; H; L] L S6).
  run_step (matmul4_ok _ _ _ _ _ _ _ S7 S4).
  run_step (transpose12_ok _ _ _ _ _ S8).
  run_step (view_ok t9 [B; L; D]).
  { rewrite S9. simpl. nia. }
  destruct (linear_ok _ t10 [B; L] _ _ How Hob S10) as (o & Eo & So & _).
  rewrite Eo; cbn [bind].
  destruct (add_same_shape o x) as (y & Ey & Sy & Gy).
  { rewrite So, Hx. reflexivity. }
  exists t10, o, y. rewrite Sy, So in *. repeat split; auto.
Qed.

Lemma CrossAttention_forward_ok (D H : nat) (ca : MultiHeadCrossAttention.t)
  (x memory : Tensor) (B T Sm : nat) :
  H <> 0 -> D mod H = 0 -> CrossAttention_wf D H ca ->
  shape x = [B; T; D] -> shape memory = [B; Sm; D] ->
  exists y, MultiHeadCrossAttention.forward ca x memory = Ok y /\
            shape y = [B; T; D].
Proof.
  intros HH Hm (Hh & Hdk & (Hqw & Hqb) & (Hkw & Hkb) & (How & Hob)) Hx Hmem.
  pose proof (heads_times_dk D H HH Hm) as HD.
  unfold MultiHeadCrossAttention.forward. rewrite Hx, Hmem, Hh, Hdk. cbn [bind].
  destruct (linear_ok _ x [B; T] _ _ Hqw Hqb Hx) as (t & -> & S & _).
  cbn [bind].
  run_step (view_ok t [B; T; H; D / H]).
  { rewrite S. simpl. nia. }
  run_step (permute4_ok _ _ _ _ _ S0).
  destruct (linear_ok _ memory [B; Sm] _ _ Hkw Hkb Hmem) as (t2 & -> & S2 & _).
  cbn [bind].
  run_step (view_ok t2 [B; Sm; 2; H; D / H]).
  { rewrite S2. simpl. nia. }
  run_step (permute5_ok _ _ _ _ _ _ S3).
  run_step (select0_ok t4 0 _ _ S4 ltac:(lia)).
  run_step (select0_ok t4 1 _ _ S4 ltac:(lia)).
  run_step (transpose_last2_ok _ _ _ _ _ S5).
  run_step (matmul4_ok _ _ _ _ _ _ _ S1 S7).
  run_step (softmax_last_ok (div_scalar t8 (sqrt (INR (D / H)))) [B; H; T] Sm S8).
  run_step (matmul4_ok _ _ _ _ _ _ _ S9 S6).
  run_step (transpose12_ok _ _ _ _ _ S10).
  run_step (view_ok t11 [B; T; D]).
  { rewrite S11. simpl. nia. }
  destruct (linear_ok _ t12 [B; T] _ _ How Hob S12) as (o & -> & So & _).
  cbn [bind].
  destruct (add_same_shape o x) as (y & Ey & Sy & _).
  { rewrite So, Hx. reflexivity. }
  exists y. rewrite Sy, So. auto.
Qed.

(** C6: for every model dimension D and number of heads H with D % H == 0,
    a SelfAttention block maps an input of shape (B, L, D) to an output of
    shape (B, L, D), and a cross-attention block maps a query stream of
    shape (B, T, D) with a memory of any length S to an output of shape
    (B, T, D). *)
Theorem attention_blocks_preserve_shape (D H : nat) :
  H <> 0 -> D mod H = 0 ->
  (forall (sa : SelfAttention.t) (x : Tensor) (B L : nat),
      SelfAttention_wf D H sa -> shape x = [B; L; D] ->
      exists y, SelfAttention.forward sa x = Ok y /\ shape y = [B; L; D]) /\
  (forall (ca : MultiHeadCrossAttention.t) (x memory : Tensor) (B T Sm : nat),
      CrossAttention_wf D H ca ->
      shape x = [B; T; D] -> shape memory = [B; Sm; D] ->
      exists y, MultiHeadCrossAttention.forward ca x memory = Ok y /\
                shape y = [B; T; D]).
Proof.
  intros HH Hm. split.
  - intros sa x B L Hwf Hx.
    destruct (SelfAttention_forward_ok D H sa x B L HH Hm Hwf Hx)
      as (_ & _ & y & Ey & Sy & _).
    now exists y.
  - intros ca x memory B T Sm Hwf Hx Hmem.
    exact (CrossAttention_forward_ok D H ca x memory B T Sm HH Hm Hwf Hx Hmem).
Qed.

(** The constructors build well-formed blocks exactly when heads is
    non-zero and divides d_model. *)
Lemma SelfAttention_init_wf (rng : Rng) (D H : nat) :
  H <> 0 -> D mod H = 0 ->
  exists sa, SelfAttention.init rng D H = Ok sa /\ SelfAttention_wf D H sa.
Proof.
  intros HH Hm. unfold SelfAttention.init.
  destruct (Nat.eqb_spec H 0); [contradiction|].
  rewrite Hm. simpl. eexists; split; [reflexivity|].
  repeat split.
Qed.

Lemma CrossAttention_init_wf (rng : Rng) (D H : nat) :
  H <> 0 -> D mod H = 0 ->
  exists ca, MultiHeadCrossAttention.init rng D H = Ok ca /\
             CrossAttention_wf D H ca.
Proof.
  intros HH Hm. unfold MultiHeadCrossAttention.init.
  destruct (Nat.eqb_spec H 0); [contradiction|].
  rewrite Hm. simpl. eexists; split; [reflexivity|].
  repeat split.
Qed.

Lemma SelfAttention_init_assert (rng : Rng) (D H : nat) :
  H <> 0 -> D mod H <> 0 -> SelfAttention.init rng D H = Err AssertionError.
Proof.
  intros HH Hm. unfold SelfAttention.init.
  destruct (Nat.eqb_spec H 0); [contradiction|].
  destruct (Nat.eqb_spec (D mod H) 0); [contradiction|reflexivity].
Qed.

Lemma Linear_load_wf (cur new l : Linear) (i o : nat) :
  Linear_wf i o cur -> Linear_load cur new = Ok l -> l = new /\ Linear_wf i o l.
Proof.
  intros (Hw & Hb). unfold Linear_load. rewrite Hw, Hb.
  destruct (shape_eqb (shape (weight new)) [o; i]) eqn:E1; [|discriminate].
  destruct (shape_eqb (shape (bias new)) [o]) eqn:E2; [|discriminate].
  simpl. intros [= <-]. apply shape_eqb_eq in E1, E2. repeat split; assumption.
Qed.

(** ** Sequential nets, feed-forward blocks and the stacks *)

Lemma Sequential_forward_ok (net : list NetLayer) :
  forall (i o : nat) (pre : list nat) (x : Tensor),
    Net_wf i o net -> shape x = pre ++ [i] ->
    exists y, Sequential_forward net x = Ok y /\ shape y = pre ++ [o].
Proof.
  induction net as [|n net IH]; intros i o pre x Hwf Hx; simpl in *.
  - subst. now exists x.
  - destruct n as [l|]; simpl.
    + destruct Hwf as (m & (Hw & Hb) & Hwf).
      destruct (linear_ok l x pre i m Hw Hb Hx) as (y & -> & Sy & _).
      cbn [bind]. eapply IH; eauto.
    + eapply IH; eauto.
Qed.

Lemma FeedForward_forward_ok (d : nat) (ff : FeedForward.t) (x : Tensor)
  (pre : list nat) :
  FeedForward_wf d ff -> shape x = pre ++ [d] ->
  exists y, FeedForward.forward ff x = Ok y /\ shape y = pre ++ [d].
Proof.
  intros Hwf Hx. unfold FeedForward.forward.
  destruct (Sequential_forward_ok _ d d pre x Hwf Hx) as (y & -> & Sy).
  cbn [bind].
  destruct (add_same_shape y x) as (z & Ez & Sz & _); [congruence|].
  exists z. split; congruence.
Qed.

Lemma Encoder_forward_ok (D H : nat) (enc : Encoder.t) (x : Tensor) (B L : nat) :
  H <> 0 -> D mod H = 0 -> Encoder_wf D H enc -> shape x = [B; L; D] ->
  exists y, Encoder.forward enc x = Ok y /\ shape y = [B; L; D].
Proof.
  intros HH Hm Hwf. unfold Encoder.forward, Encoder_wf in *.
  revert x. induction Hwf as [|l ls (Hsa & Hff) _ IH]; intros x Hx; simpl.
  - now exists x.
  - destruct (SelfAttention_forward_ok D H (fst l) x B L HH Hm Hsa Hx)
      as (_ & _ & y & -> & Sy & _).
    cbn [bind].
    destruct (FeedForward_forward_ok D (snd l) y [B; L] Hff Sy) as (z & -> & Sz).
    cbn [bind]. apply IH. exact Sz.
Qed.

Lemma Decoder_forward_ok (D H : nat) (dec : Decoder.t) (tgt enc_out : Tensor)
  (B T Sm : nat) :
  H <> 0 -> D mod H = 0 -> Decoder_wf D H dec ->
  shape tgt = [B; T; D] -> shape enc_out = [B; Sm; D] ->
  exists y, Decoder.forward dec tgt enc_out = Ok y /\ shape y = [B; T; D].
Proof.
  intros HH Hm (Hs & Hc & Hf) Ht He. unfold Decoder.forward.
  assert (Hall : Forall (fun l => SelfAttention_wf D H (fst (fst l)) /\
                                  CrossAttention_wf D H (snd (fst l)) /\
                                  FeedForward_wf D (snd l))
                   (combine (combine (Decoder.self_layers dec)
                                     (Decoder.cross_layers dec))
                            (Decoder.ffns dec))).
  { apply Forall_forall. intros ((sa & ca) & ff) Hin. simpl.
    pose proof (in_combine_l _ _ _ _ Hin) as H1.
    pose proof (in_combine_r _ _ _ _ Hin) as H2.
    pose proof (in_combine_l _ _ _ _ H1) as H3.
    pose proof (in_combine_r _ _ _ _ H1) as H4.
    rewrite Forall_forall in Hs, Hc, Hf. auto. }
  revert tgt Ht. induction Hall as [|((sa & ca) & ff) ls (Hsa & Hca & Hff) _ IH];
    intros tgt Ht; simpl in *.
  - now exists tgt.
  - destruct (SelfAttention_forward_ok D H sa tgt B T HH Hm Hsa Ht)
      as (_ & _ & y & -> & Sy & _).
    cbn [bind].
    destruct (CrossAttention_forward_ok D H ca y enc_out B T Sm HH Hm Hca Sy He)
      as (z & -> & Sz).
    cbn [bind].
    destruct (FeedForward_forward_ok D ff z [B; T] Hff Sz) as (u & -> & Su).
    cbn [bind]. apply IH. exact Su.
Qed.

(** ** The regression head *)

Lemma in_bounds_snoc_inv (pre idx : list nat) (n : nat) :
  in_bounds (pre ++ [n]) idx ->
  exists idx1 j, idx = idx1 ++ [j] /\ in_bounds pre idx1 /\ j < n.
Proof.
  unfold in_bounds. intros H.
  apply Forall2_app_inv_r in H as (l1 & l2 & H1 & H2 & ->).
  inversion H2 as [|j n' l2' s' Hj Hnil]; subst.
  inversion Hnil; subst. now exists l1, j.
Qed.

Lemma in_bounds_snoc (pre idx : list nat) (n j : nat) :
  in_bounds pre idx -> j < n -> in_bounds (pre ++ [n]) (idx ++ [j]).
Proof.
  unfold in_bounds. intros H Hj. apply Forall2_app; [exact H|].
  constructor; [exact Hj|constructor].
Qed.

Lemma linear_agree (l : Linear) (pre : list nat) (i o : nat) (x x' : Tensor) :
  Linear_wf i o l -> agree (pre ++ [i]) x x' ->
  exists y y', linear l x = Ok y /\ linear l x' = Ok y' /\
               agree (pre ++ [o]) y y'.
Proof.
  intros (Hw & Hb) (Sx & Sx' & Hg).
  destruct (linear_ok l x pre i o Hw Hb Sx) as (y & Ey & Sy & Gy).
  destruct (linear_ok l x' pre i o Hw Hb Sx') as (y' & Ey' & Sy' & Gy').
  exists y, y'. repeat split; auto.
  intros idx Hi. rewrite Gy, Gy'. f_equal.
  apply sum_upto_ext. intros k Hk. f_equal.
  apply in_bounds_snoc_inv in Hi as (idx1 & j & -> & H1 & Hj).
  rewrite removelast_last. apply Hg. now apply in_bounds_snoc.
Qed.

Lemma Sequential_forward_agree (net : list NetLayer) :
  forall (i o : nat) (pre : list nat) (x x' : Tensor),
    Net_wf i o net -> agree (pre ++ [i]) x x' ->
    exists y y', Sequential_forward net x = Ok y /\
                 Sequential_forward net x' = Ok y' /\
                 agree (pre ++ [o]) y y'.
Proof.
  induction net as [|n net IH]; intros i o pre x x' Hwf Ha; simpl in *.
  - subst. now exists x, x'.
  - destruct n as [l|]; simpl.
    + destruct Hwf as (m & Hl & Hwf).
      destruct (linear_agree l pre i m x x' Hl Ha) as (y & y' & -> & -> & Hy).
      cbn [bind]. eapply IH; eauto.
    + eapply IH; eauto.
      destruct Ha as (Sx & Sx' & Hg). repeat split; auto.
      intros idx Hi. simpl. now rewrite Hg.
Qed.

Lemma select_last_step_ok (x : Tensor) (B T D : nat) :
  shape x = [B; T; D] -> 1 <= T ->
  exists v, select_last_step x = Ok v /\ shape v = [B; D] /\
            forall b d, get v [b; d] = get x [b; T - 1; d].
Proof.
  intros Hx HT. unfold select_last_step. rewrite Hx.
  destruct (Nat.eqb_spec T 0); [lia|].
  eexists; split; [reflexivity|]. split; reflexivity.
Qed.

Lemma squeeze_last_col (y : Tensor) (B : nat) :
  shape y = [B; 1] ->
  shape (squeeze_last y) = [B] /\
  forall idx, get (squeeze_last y) idx = get y (idx ++ [0]).
Proof.
  intros H. unfold squeeze_last. rewrite H. simpl. split; reflexivity.
Qed.

Lemma RULHead_forward_ok (D : nat) (hd : RULHead.t) (x : Tensor) (B T : nat) :
  RULHead_wf D hd -> shape x = [B; T; D] -> 1 <= T ->
  exists v y,
    select_last_step x = Ok v /\
    Sequential_forward (RULHead.net hd) v = Ok y /\ shape y = [B; 1] /\
    RULHead.forward hd x = Ok (squeeze_last y) /\
    shape (squeeze_last y) = [B].
Proof.
  intros Hwf Hx HT. unfold RULHead.forward.
  destruct (select_last_step_ok x B T D Hx HT) as (v & Ev & Sv & _).
  destruct (Sequential_forward_ok _ D 1 [B] v Hwf Sv) as (y & Ey & Sy).
  exists v, y. rewrite Ev. cbn [bind]. rewrite Ey. cbn [bind].
  repeat split; auto. now apply squeeze_last_col.
Qed.

Lemma widths_build (rng : Rng) (hs : list nat) :
  forall d, widths (RULHead.build rng d hs) = hs ++ [1].
Proof. induction hs as [|h hs IH]; intros d; simpl; [reflexivity|]. now rewrite IH. Qed.

Lemma build_wf (rng : Rng) (hs : list nat) :
  forall d, Net_wf d 1 (RULHead.build rng d hs).
Proof.
  induction hs as [|h hs IH]; intros d; simpl.
  - exists 1. repeat split.
  - exists h. repeat split. apply IH.
Qed.

(** C4: the head maps a decoder output of shape (B, T, D) with T >= 1 to
    one scalar per batch element; it reads only the vector at the final
    time step T-1 (two inputs that agree there give the same scalars,
    whatever the other positions hold); the net built for the hidden
    widths [128; 64] is Linear, GELU, Linear, GELU, Linear with output
    widths 128, 64 and 1. *)
Theorem RULHead_last_step_only (D B T : nat) (hd : RULHead.t) (x x' : Tensor) :
  RULHead_wf D hd -> 1 <= T ->
  shape x = [B; T; D] -> shape x' = [B; T; D] ->
  (forall b d, b < B -> d < D -> get x [b; T - 1; d] = get x' [b; T - 1; d]) ->
  (exists v y,
      select_last_step x = Ok v /\
      (forall b d, get v [b; d] = get x [b; T - 1; d]) /\
      Sequential_forward (RULHead.net hd) v = Ok y /\
      RULHead.forward hd x = Ok (squeeze_last y)) /\
  (exists out out',
      RULHead.forward hd x = Ok out /\ RULHead.forward hd x' = Ok out' /\
      shape out = [B] /\ shape out' = [B] /\
      forall b, b < B -> get out [b] = get out' [b]) /\
  (forall rng,
      RULHead.net (RULHead.init rng D [128; 64]) =
        [NLinear (nn_Linear rng D 128); NGELU;
         NLinear (nn_Linear rng 128 64); NGELU;
         NLinear (nn_Linear rng 64 1)] /\
      widths (RULHead.net (RULHead.init rng D [128; 64])) = [128; 64; 1]).
Proof.
  intros Hwf HT Hx Hx' Hlast. split; [|split].
  - destruct (select_last_step_ok x B T D Hx HT) as (v & Ev & Sv & Gv).
    destruct (Sequential_forward_ok _ D 1 [B] v Hwf Sv) as (y & Ey & Sy).
    exists v, y. repeat split; auto.
    unfold RULHead.forward. rewrite Ev. cbn [bind]. now rewrite Ey.
  - destruct (select_last_step_ok x B T D Hx HT) as (v & Ev & Sv & Gv).
    destruct (select_last_step_ok x' B T D Hx' HT) as (v' & Ev' & Sv' & Gv').
    assert (Ha : agree ([B] ++ [D]) v v').
    { repeat split; auto. intros idx Hi.
      apply in_bounds_snoc_inv in Hi as (idx1 & d & -> & H1 & Hd).
      inversion H1 as [|b B' l1 l2 Hb Hnil]; subst. inversion Hnil; subst.
      simpl. rewrite Gv, Gv'. now apply Hlast. }
    destruct (Sequential_forward_agree _ D 1 [B] v v' Hwf Ha)
      as (y & y' & Ey & Ey' & (Sy & Sy' & Gy)).
    exists (squeeze_last y), (squeeze_last y').
    unfold RULHead.forward. rewrite Ev, Ev'. cbn [bind]. rewrite Ey, Ey'. cbn [bind].
    destruct (squeeze_last_col y B Sy) as (S1 & G1).
    destruct (squeeze_last_col y' B Sy') as (S2 & G2).
    repeat split; auto.
    intros b Hb. rewrite G1, G2. apply Gy. simpl.
    repeat constructor; auto.
  - intros rng. split; reflexivity.
Qed.

(** ** The residual connection of self-attention *)

Lemma linear_zero_weight (l : Linear) (r o : Tensor) (pre : list nat) (i w : nat) :
  Linear_wf i w l -> shape r = pre ++ [i] ->
  (forall idx, get (weight l) idx = 0%R) ->
  linear l r = Ok o ->
  forall idx, get o idx = get (bias l) [last idx 0].
Proof.
  intros (Hw & Hb) Hr Hz Ho idx.
  destruct (linear_ok l r pre i w Hw Hb Hr) as (o' & Eo & _ & Go).
  rewrite Eo in Ho. injection Ho as <-.
  rewrite Go, sum_upto_zero; [lra|].
  intros k _. rewrite Hz. lra.
Qed.

(** When the weight matrix of the output projection is zero, the block
    returns its input plus the bias of that projection. *)
Lemma SelfAttention_zero_out_matrix (D H : nat) (sa : SelfAttention.t)
  (x : Tensor) (B L : nat) :
  H <> 0 -> D mod H = 0 -> SelfAttention_wf D H sa -> shape x = [B; L; D] ->
  (forall idx, get (weight (SelfAttention.out sa)) idx = 0%R) ->
  exists y, SelfAttention.forward sa x = Ok y /\ shape y = shape x /\
    forall idx, in_bounds (shape x) idx ->
      get y idx = Rplus (get (bias (SelfAttention.out sa)) [last idx 0]) (get x idx).
Proof.
  intros HH Hm Hwf Hx Hz.
  destruct (SelfAttention_forward_ok D H sa x B L HH Hm Hwf Hx)
    as (r & o & y & Ey & Sy & Sr & Eo & Gy).
  exists y. rewrite Hx. repeat split; auto.
  intros idx Hi. rewrite (Gy idx Hi). f_equal.
  destruct Hwf as (_ & _ & _ & Hout).
  exact (linear_zero_weight _ r o [B; L] D D Hout Sr Hz Eo idx).
Qed.

(** C7: if every projection parameter of a SelfAttention block (the
    weight matrices and the biases of qkv and out) is zero, the block
    returns exactly its input. *)
Theorem SelfAttention_zero_weights_identity (D H : nat) (sa : SelfAttention.t)
  (x : Tensor) (B L : nat) :
  H <> 0 -> D mod H = 0 -> SelfAttention_wf D H sa -> shape x = [B; L; D] ->
  Linear_zero (SelfAttention.qkv sa) -> Linear_zero (SelfAttention.out sa) ->
  exists y, SelfAttention.forward sa x = Ok y /\ teq y x.
Proof.
  intros HH Hm Hwf Hx _ (Hzw & Hzb).
  destruct (SelfAttention_zero_out_matrix D H sa x B L HH Hm Hwf Hx Hzw)
    as (y & Ey & Sy & Gy).
  exists y. split; [exact Ey|]. split; [exact Sy|].
  intros idx Hi. rewrite Sy in Hi. rewrite (Gy idx Hi), Hzb. lra.
Qed.

(** ** Positional encoding *)

Lemma mul_column_row (L n : nat) (d : Tensor) :
  shape d = [n] ->
  exists a, mul (arange_column L) d = Ok a /\ shape a = [L; n] /\
    forall p i, p < L -> i < n -> get a [p; i] = (INR p * get d [i])%R.
Proof.
  intros Hd. unfold mul, broadcast2. rewrite Hd.
  cbn [shape arange_column rev app bshape_rev].
  replace (L =? 1) with (L =? 1) by reflexivity.
  destruct (Nat.eqb_spec 1 n) as [<-|Hn].
  - eexists; split; [reflexivity|]. split; [reflexivity|].
    intros p i Hp Hi. simpl. unfold bc_index, lastn. simpl.
    assert (i = 0) as -> by lia.
    destruct (Nat.eqb_spec L 1); [|reflexivity].
    assert (p = 0) as -> by lia. reflexivity.
  - eexists; split; [reflexivity|]. split; [reflexivity|].
    intros p i Hp Hi. simpl. unfold bc_index, lastn. simpl.
    destruct (Nat.eqb_spec n 1); [lia|].
    destruct (Nat.eqb_spec L 1); [|reflexivity].
    assert (p = 0) as -> by lia. reflexivity.
Qed.

Lemma setitem_cols_same (dst src : Tensor) (start L D : nat) :
  shape dst = [L; D] -> shape src = [L; (D - start + 1) / 2] ->
  exists pe, setitem_cols dst start src = Ok pe /\ shape pe = [L; D] /\
    forall p c, get pe [p; c] =
      if (start <=? c) && Nat.even (c - start)
      then get src [p; (c - start) / 2] else get dst [p; c].
Proof.
  intros Hd Hs. unfold setitem_cols. rewrite Hd, Hs, shape_eqb_refl. cbn [bind].
  eexists; split; [reflexivity|]. split; reflexivity.
Qed.

(** A one-column source assigned to an empty block of columns is
    broadcast to it, and nothing is written. *)
Lemma setitem_cols_empty_block (dst src : Tensor) (L : nat) :
  shape dst = [L; 1] -> shape src = [L; 1] ->
  exists pe, setitem_cols dst 1 src = Ok pe /\ shape pe = [L; 1] /\
    forall p, get pe [p; 0] = get dst [p; 0].
Proof.
  intros Hd Hs. unfold setitem_cols. rewrite Hd, Hs. simpl.
  rewrite Nat.eqb_refl. simpl.
  destruct L as [|[|L']]; simpl.
  - unfold view, expand. rewrite Hs. simpl.
    eexists; split; [reflexivity|]. split; reflexivity.
  - unfold view, expand. rewrite Hs. simpl.
    eexists; split; [reflexivity|]. split; reflexivity.
  - unfold view. rewrite Hs, Nat.eqb_refl.
    cbn [bind]. unfold expand. simpl.
    rewrite Nat.eqb_refl. simpl.
    eexists; split; [reflexivity|]. split; reflexivity.
Qed.

(** A source with m columns, m different from 1 and from the width of the
    block, cannot be expanded to the block. *)
Lemma setitem_cols_mismatch (dst src : Tensor) (start L D m : nat) :
  shape dst = [L; D] -> shape src = [L; m] ->
  m <> (D - start + 1) / 2 -> m <> 1 ->
  exists s, setitem_cols dst start src =
              Err (ShapeError "expand" s [L; (D - start + 1) / 2]).
Proof.
  intros Hd Hs Hm H1. unfold setitem_cols. rewrite Hd, Hs.
  set (n := (D - start + 1) / 2) in *.
  assert (E : shape_eqb [L; m] [L; n] = false).
  { destruct (shape_eqb [L; m] [L; n]) eqn:E; [|reflexivity].
    apply shape_eqb_eq in E. congruence. }
  rewrite E.
  assert (Hstrip : strip_leading_ones [L; m] = [L; m] /\ L <> 1 \/
                   strip_leading_ones [L; m] = [m] /\ L = 1).
  { destruct L as [|[|L']]; simpl; auto.
    right. split; [|reflexivity]. destruct m as [|[|m']]; auto. lia. }
  destruct Hstrip as [(Hst & HL)|(Hst & HL)]; rewrite Hst.
  - destruct (view_ok src [L; m]) as (v & -> & Sv); [now rewrite Hs|].
    cbn [bind]. unfold expand. rewrite Sv. simpl.
    destruct (Nat.eqb_spec m n); [contradiction|].
    destruct (Nat.eqb_spec m 1); [contradiction|].
    simpl. now exists [L; m].
  - destruct (view_ok src [m]) as (v & -> & Sv).
    { rewrite Hs, HL. simpl. lia. }
    cbn [bind]. unfold expand. rewrite Sv. simpl.
    destruct (Nat.eqb_spec m n); [contradiction|].
    destruct (Nat.eqb_spec m 1); [contradiction|].
    simpl. now exists [m].
Qed.

Lemma expand_batch (pe : Tensor) (B L D : nat) :
  shape pe = [L; D] ->
  exists e, expand (unsqueeze0 pe) [B; L; D] = Ok e /\ shape e = [B; L; D] /\
    forall b p c, p < L -> c < D -> get e [b; p; c] = get pe [p; c].
Proof.
  intros Hp. unfold expand, unsqueeze0. cbn [shape]. rewrite Hp.
  cbn [rev app expandable]. rewrite !Nat.eqb_refl, orb_true_r. cbn [orb andb].
  eexists; split; [reflexivity|]. split; [reflexivity|].
  intros b p c Hpl Hc. cbn [get]. unfold bc_index, lastn. simpl.
  destruct (Nat.eqb_spec L 1); destruct (Nat.eqb_spec D 1);
    repeat f_equal; lia.
Qed.

Lemma half_even (D : nat) :
  Nat.even D = true -> (D + 1) / 2 = D / 2 /\ (D - 1 + 1) / 2 = D / 2.
Proof.
  intros H. apply Nat.even_spec in H as (k & ->).
  rewrite <- !Nat.div2_div. destruct k as [|k]; [split; reflexivity|].
  replace (2 * S k - 1 + 1) with (2 * S k) by lia.
  replace (2 * S k + 1) with (S (2 * S k)) by lia.
  rewrite Nat.div2_succ_double, Nat.div2_double. split; reflexivity.
Qed.

Lemma half_odd (D : nat) :
  Nat.odd D = true -> (D + 1) / 2 = D / 2 + 1 /\ (D - 1 + 1) / 2 = D / 2.
Proof.
  intros H. apply Nat.odd_spec in H as (k & ->).
  rewrite <- !Nat.div2_div.
  replace (2 * k + 1 - 1 + 1) with (S (2 * k)) by lia.
  replace (2 * k + 1 + 1) with (2 * (k + 1)) by lia.
  replace (2 * k + 1) with (S (2 * k)) by lia.
  rewrite Nat.div2_succ_double, Nat.div2_double. split; reflexivity.
Qed.

Lemma half_bound (i D : nat) : 2 * i < D -> i < (D + 1) / 2.
Proof.
  intros H. assert (i + 1 <= (D + 1) / 2); [|lia].
  apply Nat.div_le_lower_bound; lia.
Qed.

Lemma angle_rewrite (p i D : nat) :
  D <> 0 ->
  (INR p * exp (INR (2 * i) * (- ln 10000 / INR D)))%R =
  (INR p / Rpower 10000 (INR (2 * i) / INR D))%R.
Proof.
  intros HD. unfold Rpower, Rdiv at 2. f_equal.
  rewrite <- exp_Ropp. f_equal.
  assert (INR D <> 0%R) by (apply not_0_INR; exact HD).
  field. assumption.
Qed.

(** The encoding on a width that is even and positive: both assignments
    copy a table with D/2 columns into a block of D/2 columns. *)
Lemma add_positional_encoding_even (x : Tensor) (B L D : nat) :
  shape x = [B; L; D] -> D <> 0 -> Nat.even D = true ->
  exists y, add_positional_encoding x = Ok y /\ shape y = [B; L; D] /\
    forall b p i, b < B -> p < L ->
      (2 * i < D -> get y [b; p; 2 * i] =
         Rplus (get x [b; p; 2 * i])
               (sin (INR p / Rpower 10000 (INR (2 * i) / INR D)))) /\
      (2 * i + 1 < D -> get y [b; p; 2 * i + 1] =
         Rplus (get x [b; p; 2 * i + 1])
               (cos (INR p / Rpower 10000 (INR (2 * i) / INR D)))).
Proof.
  intros Hx HD Hev. unfold add_positional_encoding. rewrite Hx.
  destruct (Nat.eqb_spec D 0); [contradiction|]. cbn [bind].
  set (dv := tmap exp (tmap _ (arange_step2 D))).
  assert (Hdv : shape dv = [(D + 1) / 2]) by reflexivity.
  destruct (mul_column_row L _ dv Hdv) as (a & -> & Sa & Ga). cbn [bind].
  destruct (setitem_cols_same (zeros [L; D]) (tmap sin a) 0 L D eq_refl)
    as (pe1 & -> & S1 & G1).
  { cbn [tmap shape]. rewrite Sa, Nat.sub_0_r. reflexivity. }
  cbn [bind].
  destruct (setitem_cols_same pe1 (tmap cos a) 1 L D S1)
    as (pe2 & -> & S2 & G2).
  { cbn [tmap shape]. rewrite Sa. destruct (half_even D Hev) as (-> & ->).
    reflexivity. }
  cbn [bind].
  destruct (expand_batch pe2 B L D S2) as (e & -> & Se & Ge). cbn [bind].
  destruct (add_same_shape x e) as (y & Ey & Sy & Gy); [congruence|].
  exists y. rewrite Hx in *. repeat split; auto.
  - intros Hi. rewrite Gy by (repeat constructor; lia).
    rewrite Ge by lia. f_equal.
    rewrite G2.
    assert (E2 : (1 <=? 2 * i) && Nat.even (2 * i - 1) = false).
    { destruct i as [|i']; [reflexivity|].
      replace (2 * S i' - 1) with (S (2 * i')) by lia.
      rewrite Nat.even_succ, Nat.odd_mul. simpl. reflexivity. }
    rewrite E2, G1. cbn [Nat.leb andb]. rewrite Nat.sub_0_r.
    rewrite Nat.even_mul. cbn [Nat.even orb].
    rewrite (Nat.mul_comm 2 i), Nat.div_mul by lia.
    cbn [tmap get]. rewrite Ga by (try lia; apply half_bound; lia).
    f_equal. unfold dv. cbn [tmap get arange_step2 nth].
    rewrite (Nat.mul_comm i 2). now apply angle_rewrite.
  - intros Hi. rewrite Gy by (repeat constructor; lia).
    rewrite Ge by lia. f_equal.
    rewrite G2.
    replace (2 * i + 1 - 1) with (2 * i) by lia.
    assert (E2 : (1 <=? 2 * i + 1) && Nat.even (2 * i) = true).
    { rewrite Nat.even_mul. replace (2 * i + 1) with (S (2 * i)) by lia.
      reflexivity. }
    rewrite E2.
    rewrite (Nat.mul_comm 2 i), Nat.div_mul by lia.
    cbn [tmap get]. rewrite Ga by (try lia; apply half_bound; lia).
    f_equal. unfold dv. cbn [tmap get arange_step2 nth].
    rewrite (Nat.mul_comm i 2). now apply angle_rewrite.
Qed.

Lemma add_positional_encoding_width0 (x : Tensor) (B L : nat) :
  shape x = [B; L; 0] -> add_positional_encoding x = Err ZeroDivisionError.
Proof. intros Hx. unfold add_positional_encoding. now rewrite Hx. Qed.

(** Width 1: the cosine table has one column and the block of odd columns
    is empty, so the table is broadcast to it and only the sine column is
    written. *)
Lemma add_positional_encoding_width1 (x : Tensor) (B L : nat) :
  shape x = [B; L; 1] ->
  exists y, add_positional_encoding x = Ok y /\ shape y = [B; L; 1] /\
    forall b p, b < B -> p < L ->
      get y [b; p; 0] =
        Rplus (get x [b; p; 0]) (sin (INR p / Rpower 10000 (INR 0 / INR 1))).
Proof.
  intros Hx. unfold add_positional_encoding. rewrite Hx.
  cbn [Nat.eqb bind].
  set (dv := tmap exp (tmap _ (arange_step2 1))).
  assert (Hdv : shape dv = [1]) by reflexivity.
  destruct (mul_column_row L _ dv Hdv) as (a & -> & Sa & Ga). cbn [bind].
  destruct (setitem_cols_same (zeros [L; 1]) (tmap sin a) 0 L 1 eq_refl)
    as (pe1 & -> & S1 & G1).
  { cbn [tmap shape]. rewrite Sa. reflexivity. }
  cbn [bind].
  destruct (setitem_cols_empty_block pe1 (tmap cos a) L S1)
    as (pe2 & -> & S2 & G2).
  { cbn [tmap shape]. exact Sa. }
  cbn [bind].
  destruct (expand_batch pe2 B L 1 S2) as (e & -> & Se & Ge). cbn [bind].
  destruct (add_same_shape x e) as (y & Ey & Sy & Gy); [congruence|].
  exists y. rewrite Hx in *. repeat split; auto.
  intros b p Hb Hp. rewrite Gy by (repeat constructor; lia).
  rewrite Ge by lia. f_equal. rewrite G2, G1.
  cbn [Nat.leb Nat.sub Nat.even andb tmap get].
  change (0 / 2) with 0.
  rewrite Ga by lia. f_equal.
  unfold dv. cbn [tmap get arange_step2 nth].
  exact (angle_rewrite p 0 1 ltac:(lia)).
Qed.

(** Odd width from 3 on: the sine assignment succeeds and the cosine
    assignment fails, the table having D/2 + 1 columns and the block of
    odd columns D/2. *)
Lemma add_positional_encoding_odd (x : Tensor) (B L D : nat) :
  shape x = [B; L; D] -> Nat.odd D = true -> 3 <= D ->
  let dv := tmap exp (tmap (fun v => v * (- ln 10000 / INR D))%R
                           (arange_step2 D)) in
  exists a pe1 s,
    mul (arange_column L) dv = Ok a /\ shape a = [L; D / 2 + 1] /\
    setitem_cols (zeros [L; D]) 0 (tmap sin a) = Ok pe1 /\
    shape pe1 = [L; D] /\
    setitem_cols pe1 1 (tmap cos a) = Err (ShapeError "expand" s [L; D / 2]) /\
    add_positional_encoding x = Err (ShapeError "expand" s [L; D / 2]).
Proof.
  intros Hx Hodd H3 dv.
  destruct (half_odd D Hodd) as (Hn0 & Hn1).
  assert (Hdv : shape dv = [(D + 1) / 2]) by reflexivity.
  destruct (mul_column_row L _ dv Hdv) as (a & Ea & Sa & Ga).
  destruct (setitem_cols_same (zeros [L; D]) (tmap sin a) 0 L D eq_refl)
    as (pe1 & E1 & S1 & G1).
  { cbn [tmap shape]. rewrite Sa, Nat.sub_0_r. reflexivity. }
  assert (Hhalf : 1 <= D / 2) by (apply Nat.div_le_lower_bound; lia).
  destruct (setitem_cols_mismatch pe1 (tmap cos a) 1 L D ((D + 1) / 2) S1)
    as (s & E2); [exact Sa|lia|lia|].
  rewrite Hn1 in E2.
  exists a, pe1, s. rewrite Hn0 in Sa. repeat split; auto.
  unfold add_positional_encoding. rewrite Hx.
  destruct (Nat.eqb_spec D 0); [lia|]. cbn [bind].
  fold dv. rewrite Ea. cbn [bind]. rewrite E1. cbn [bind]. now rewrite E2.
Qed.

(** C5 (amended): for an input of shape (B, L, D) whose width D is
    positive and even, or equal to 1, the encoder returns a tensor of the
    same shape, equal to the input plus sin(p / 10000^(2i/D)) at feature
    index 2i and cos(p / 10000^(2i/D)) at feature index 2i+1 of time
    index p. *)
Theorem add_positional_encoding_values (x : Tensor) (B L D : nat) :
  shape x = [B; L; D] -> D <> 0 -> Nat.even D = true \/ D = 1 ->
  exists y, add_positional_encoding x = Ok y /\ shape y = [B; L; D] /\
    forall b p i, b < B -> p < L ->
      (2 * i < D -> get y [b; p; 2 * i] =
         Rplus (get x [b; p; 2 * i])
               (sin (INR p / Rpower 10000 (INR (2 * i) / INR D)))) /\
      (2 * i + 1 < D -> get y [b; p; 2 * i + 1] =
         Rplus (get x [b; p; 2 * i + 1])
               (cos (INR p / Rpower 10000 (INR (2 * i) / INR D)))).
Proof.
  intros Hx HD [Hev| ->].
  - exact (add_positional_encoding_even x B L D Hx HD Hev).
  - destruct (add_positional_encoding_width1 x B L Hx) as (y & Ey & Sy & Gy).
    exists y. repeat split; auto.
    + intros Hi. assert (i = 0) as -> by lia. now apply Gy.
    + intros Hi. lia.
Qed.

(** C10 (amended): the encoder succeeds for every positive even width
    and for width 1; it fails with a division by zero for width 0; for
    every odd width from 3 on the sine assignment succeeds and the cosine
    assignment fails with a shape mismatch, the block of odd columns
    having one column fewer than the sin/cos table. *)
Theorem add_positional_encoding_by_width (x : Tensor) (B L D : nat) :
  shape x = [B; L; D] ->
  (D <> 0 -> Nat.even D = true ->
     exists y, add_positional_encoding x = Ok y /\ shape y = [B; L; D]) /\
  (D = 1 ->
     exists y, add_positional_encoding x = Ok y /\ shape y = [B; L; D]) /\
  (D = 0 -> add_positional_encoding x = Err ZeroDivisionError) /\
  (Nat.odd D = true -> 3 <= D ->
     let dv := tmap exp (tmap (fun v => v * (- ln 10000 / INR D))%R
                              (arange_step2 D)) in
     exists a pe1 s,
       mul (arange_column L) dv = Ok a /\ shape a = [L; D / 2 + 1] /\
       setitem_cols (zeros [L; D]) 0 (tmap sin a) = Ok pe1 /\
       shape pe1 = [L; D] /\
       setitem_cols pe1 1 (tmap cos a) =
         Err (ShapeError "expand" s [L; D / 2]) /\
       add_positional_encoding x = Err (ShapeError "expand" s [L; D / 2])).
Proof.
  intros Hx. repeat split.
  - intros HD Hev.
    destruct (add_positional_encoding_even x B L D Hx HD Hev) as (y & Ey & Sy & _).
    now exists y.
  - intros ->.
    destruct (add_positional_encoding_width1 x B L Hx) as (y & Ey & Sy & _).
    now exists y.
  - intros ->. exact (add_positional_encoding_width0 x B L Hx).
  - intros Hodd H3. exact (add_positional_encoding_odd x B L D Hx Hodd H3).
Qed.

(** C5 as stated fails on a width of 3: no tensor is returned. *)
Lemma add_positional_encoding_width3_fails :
  add_positional_encoding (zeros [1; 1; 3]) =
    Err (ShapeError "expand" [2] [1; 1]).
Proof. reflexivity. Qed.

(** C10 as stated fails at both ends: width 1 is odd and the encoder
    succeeds; width 0 is even and the encoder fails. *)
Lemma add_positional_encoding_width1_ok_width0_fails :
  (Nat.odd 1 = true /\
   exists y, add_positional_encoding (zeros [2; 3; 1]) = Ok y /\
             shape y = [2; 3; 1]) /\
  (Nat.even 0 = true /\
   add_positional_encoding (zeros [2; 3; 0]) = Err ZeroDivisionError).
Proof.
  split; split; try reflexivity.
  destruct (add_positional_encoding_width1 (zeros [2; 3; 1]) 2 3 eq_refl)
    as (y & Ey & Sy & _).
  now exists y.
Qed.

(** ** Construction and loading *)

Lemma mapM_const_ok {A B : Type} (v : B) (xs : list A) :
  mapM (fun _ => Ok v) xs = Ok (map (fun _ => v) xs).
Proof. induction xs as [|x xs IH]; simpl; [reflexivity|]. now rewrite IH. Qed.

Lemma load_list_Forall {M SD : Type} (ld : M -> SD -> result M) (P : M -> Prop)
  (ms : list M) :
  (forall m sd m', P m -> ld m sd = Ok m' -> P m') ->
  forall sds ms', Forall P ms -> load_list ld ms sds = Ok ms' -> Forall P ms'.
Proof.
  intros Hld. induction ms as [|m ms IH]; intros [|sd sds] ms' HP H;
    simpl in H; try discriminate.
  - injection H as <-. constructor.
  - inversion HP; subst.
    destruct (ld m sd) as [m1|e] eqn:E1; [|discriminate]. cbn [bind] in H.
    destruct (load_list ld ms sds) as [r|e] eqn:E2; [|discriminate].
    cbn [bind] in H. injection H as <-. constructor; eauto.
Qed.

Lemma SelfAttention_load_wf (D H : nat) (cur m : SelfAttention.t)
  (sd : SelfAttention.state_dict) :
  SelfAttention_wf D H cur -> SelfAttention.load_state_dict cur sd = Ok m ->
  SelfAttention_wf D H m.
Proof.
  intros (Hh & Hdk & Hq & Ho). unfold SelfAttention.load_state_dict. intros E.
  destruct (Linear_load (SelfAttention.qkv cur) (fst sd)) as [q|e] eqn:Eq;
    [|discriminate].
  cbn [bind] in E.
  destruct (Linear_load (SelfAttention.out cur) (snd sd)) as [o|e] eqn:Eo;
    [|discriminate].
  cbn [bind] in E. injection E as <-.
  apply (Linear_load_wf _ _ _ _ _ Hq) in Eq as (_ & Hq').
  apply (Linear_load_wf _ _ _ _ _ Ho) in Eo as (_ & Ho').
  repeat split; simpl; try assumption; apply Hq' || apply Ho'.
Qed.

Lemma CrossAttention_load_wf (D H : nat) (cur m : MultiHeadCrossAttention.t)
  (sd : MultiHeadCrossAttention.state_dict) :
  CrossAttention_wf D H cur ->
  MultiHeadCrossAttention.load_state_dict cur sd = Ok m ->
  CrossAttention_wf D H m.
Proof.
  intros (Hh & Hdk & Hq & Hkv & Ho).
  unfold MultiHeadCrossAttention.load_state_dict.
  destruct sd as ((sq & skv) & so). intros E.
  destruct (Linear_load (MultiHeadCrossAttention.q cur) sq) as [a|e] eqn:Ea;
    [|discriminate].
  cbn [bind] in E.
  destruct (Linear_load (MultiHeadCrossAttention.kv cur) skv) as [b|e] eqn:Eb;
    [|discriminate].
  cbn [bind] in E.
  destruct (Linear_load (MultiHeadCrossAttention.out cur) so) as [c|e] eqn:Ec;
    [|discriminate].
  cbn [bind] in E. injection E as <-.
  apply (Linear_load_wf _ _ _ _ _ Hq) in Ea as (_ & Ha').
  apply (Linear_load_wf _ _ _ _ _ Hkv) in Eb as (_ & Hb').
  apply (Linear_load_wf _ _ _ _ _ Ho) in Ec as (_ & Hc').
  repeat split; simpl; try assumption; apply Ha' || apply Hb' || apply Hc'.
Qed.

Lemma Sequential_load_wf (net : list NetLayer) :
  forall (i o : nat) (sd : list Linear) (net' : list NetLayer),
    Net_wf i o net -> Sequential_load net sd = Ok net' -> Net_wf i o net'.
Proof.
  induction net as [|n net IH]; intros i o sd net' Hwf E.
  - destruct sd; simpl in E; [|discriminate]. injection E as <-. exact Hwf.
  - destruct n as [cur|].
    + destruct sd as [|new sd]; [discriminate|]. simpl in E, Hwf.
      destruct Hwf as (m & Hl & Hwf).
      destruct (Linear_load cur new) as [l|e] eqn:El; [|discriminate].
      cbn [bind] in E.
      destruct (Sequential_load net sd) as [r|e] eqn:Er; [|discriminate].
      cbn [bind] in E. injection E as <-.
      apply (Linear_load_wf _ _ _ _ _ Hl) in El as (_ & Hl').
      simpl. exists m. split; [exact Hl'|]. eapply IH; eauto.
    + assert (E' : (r <- Sequential_load net sd ;; Ok (NGELU :: r)) = Ok net').
      { destruct sd; exact E. }
      destruct (Sequential_load net sd) as [r|e] eqn:Er; [|discriminate].
      cbn [bind] in E'. injection E' as <-. simpl. eapply IH; eauto.
Qed.

Lemma FeedForward_init_wf (rng : Rng) (D hidden : nat) :
  FeedForward_wf D (FeedForward.init rng D hidden).
Proof.
  unfold FeedForward_wf. simpl.
  exists hidden. split; [split; reflexivity|].
  exists D. split; [split; reflexivity|reflexivity].
Qed.

Lemma mod4_even (D : nat) : D mod 4 = 0 -> Nat.even D = true.
Proof.
  intros H. apply Nat.even_spec.
  exists (2 * (D / 4)). pose proof (Nat.div_mod_eq D 4). lia.
Qed.

(** The three constructors at lines 114-116: they succeed exactly when
    feature_dim is a multiple of the 4 heads. *)
Lemma Encoder_init_spec (rng : Rng) (D : nat) :
  (D mod 4 = 0 ->
   exists enc, Encoder.init rng 3 D 4 256 = Ok enc /\ Encoder_wf D 4 enc) /\
  (D mod 4 <> 0 -> Encoder.init rng 3 D 4 256 = Err AssertionError).
Proof.
  split; intros Hm; unfold Encoder.init, replicateM.
  - destruct (SelfAttention_init_wf rng D 4 ltac:(lia) Hm) as (sa & -> & Hsa).
    cbn [bind]. rewrite mapM_const_ok. cbn [bind].
    eexists; split; [reflexivity|]. unfold Encoder_wf. simpl.
    repeat apply Forall_cons; try apply Forall_nil;
      (split; [exact Hsa|apply FeedForward_init_wf]).
  - rewrite (SelfAttention_init_assert rng D 4 ltac:(lia) Hm). reflexivity.
Qed.

Lemma Decoder_init_spec (rng : Rng) (D : nat) :
  D mod 4 = 0 ->
  exists dec, Decoder.init rng 3 D 4 256 = Ok dec /\ Decoder_wf D 4 dec.
Proof.
  intros Hm. unfold Decoder.init, replicateM.
  destruct (SelfAttention_init_wf rng D 4 ltac:(lia) Hm) as (sa & -> & Hsa).
  destruct (CrossAttention_init_wf rng D 4 ltac:(lia) Hm) as (ca & -> & Hca).
  rewrite !mapM_const_ok. cbn [bind].
  eexists; split; [reflexivity|]. unfold Decoder_wf. simpl.
  split; [|split]; repeat apply Forall_cons; try apply Forall_nil;
    auto using FeedForward_init_wf.
Qed.

Lemma Encoder_load_wf (D H : nat) (cur m : Encoder.t) (sd : Encoder.state_dict) :
  Encoder_wf D H cur -> Encoder.load_state_dict cur sd = Ok m -> Encoder_wf D H m.
Proof.
  unfold Encoder_wf, Encoder.load_state_dict. intros Hwf E.
  match type of E with
  | (ls <- load_list ?ld _ _ ;; _) = _ =>
      destruct (load_list ld (Encoder.layers cur) sd) as [ls|e] eqn:El;
        [|discriminate]
  end.
  cbn [bind] in E. injection E as <-. simpl.
  eapply load_list_Forall; [|exact Hwf|exact El].
  intros l s l' (Hsa & Hff) El'. cbv beta in El'.
  destruct (SelfAttention.load_state_dict (fst l) (fst s)) as [sa|e] eqn:Esa;
    [|discriminate].
  cbn [bind] in El'.
  destruct (Sequential_load (FeedForward.net (snd l)) (snd s)) as [net|e] eqn:En;
    [|discriminate].
  cbn [bind] in El'. injection El' as <-. simpl. split.
  - eapply SelfAttention_load_wf; eauto.
  - unfold FeedForward_wf in *. simpl. eapply Sequential_load_wf; eauto.
Qed.

Lemma Decoder_load_wf (D H : nat) (cur m : Decoder.t) (sd : Decoder.state_dict) :
  Decoder_wf D H cur -> Decoder.load_state_dict cur sd = Ok m -> Decoder_wf D H m.
Proof.
  unfold Decoder_wf, Decoder.load_state_dict. intros (Hs & Hc & Hf) E.
  destruct sd as ((ss & cs) & fs).
  destruct (load_list SelfAttention.load_state_dict (Decoder.self_layers cur) ss)
    as [sl|e] eqn:Es; [|discriminate].
  cbn [bind] in E.
  destruct (load_list MultiHeadCrossAttention.load_state_dict
              (Decoder.cross_layers cur) cs) as [cl|e] eqn:Ec; [|discriminate].
  cbn [bind] in E.
  match type of E with
  | (fl <- load_list ?ld _ _ ;; _) = _ =>
      destruct (load_list ld (Decoder.ffns cur) fs) as [fl|e] eqn:Ef;
        [|discriminate];
      assert (Hfl : Forall (FeedForward_wf D) fl)
  end.
  { eapply load_list_Forall; [|exact Hf|exact Ef].
    intros ff s ff' Hff Eff. cbv beta in Eff.
    destruct (Sequential_load (FeedForward.net ff) s) as [net|e] eqn:En;
      [|discriminate].
    cbn [bind] in Eff. injection Eff as <-.
    unfold FeedForward_wf in *. simpl. eapply Sequential_load_wf; eauto. }
  cbn [bind] in E. injection E as <-. simpl. repeat split.
  - eapply load_list_Forall; [|exact Hs|exact Es].
    intros; eapply SelfAttention_load_wf; eauto.
  - eapply load_list_Forall; [|exact Hc|exact Ec].
    intros; eapply CrossAttention_load_wf; eauto.
  - exact Hfl.
Qed.

Ltac bind_inv H :=
  match type of H with
  | bind ?m _ = Ok _ =>
      let E := fresh "E" in
      destruct m eqn:E; [cbn [bind] in H|discriminate H]
  end.

Lemma load_models_assert (w : World) (mp : list (string * string)) (D : nat) :
  D mod 4 <> 0 -> load_models w mp D = Err AssertionError.
Proof.
  intros Hm. unfold load_models.
  now rewrite (proj2 (Encoder_init_spec (set_seed w 42) D) Hm).
Qed.

Lemma load_models_wf (w : World) (mp : list (string * string)) (D : nat)
  (st : Locals) :
  load_models w mp D = Ok st ->
  D mod 4 = 0 /\ Encoder_wf D 4 (encoder st) /\ Decoder_wf D 4 (decoder st) /\
  RULHead_wf D (rul_head st) /\ results st = [] /\ stdout st = [].
Proof.
  intros E.
  destruct (Nat.eq_dec (D mod 4) 0) as [Hm|Hm];
    [|rewrite (load_models_assert w mp D Hm) in E; discriminate].
  unfold load_models in E.
  destruct (proj1 (Encoder_init_spec (set_seed w 42) D) Hm) as (enc0 & Ee & He).
  destruct (Decoder_init_spec (set_seed w 42) D Hm) as (dec0 & Ed & Hd).
  rewrite Ee, Ed in E. cbn [bind] in E.
  bind_inv E. bind_inv E. bind_inv E. bind_inv E. bind_inv E. bind_inv E.
  bind_inv E. bind_inv E. bind_inv E.
  injection E as <-. simpl.
  destruct a0; try discriminate. destruct a3; try discriminate.
  destruct a6; try discriminate.
  split; [exact Hm|]. split; [eapply Encoder_load_wf; eauto|].
  split; [eapply Decoder_load_wf; eauto|]. split; [|split; reflexivity].
  unfold RULHead.load_state_dict in E8. bind_inv E8. injection E8 as <-.
  unfold RULHead_wf. simpl. eapply Sequential_load_wf; [|exact E].
  apply build_wf.
Qed.

(** ** Sessions *)

Lemma last_rows_shape (w n : nat) (s' : list nat) (t : Tensor) :
  shape t = n :: s' ->
  exists y, last_rows w t = Ok y /\
            shape y = (if w =? 0 then n else Nat.min w n) :: s'.
Proof.
  intros H. unfold last_rows. rewrite H. eexists; split; [reflexivity|].
  simpl. f_equal. destruct (Nat.eqb_spec w 0); lia.
Qed.

(** A tensor with fewer rows than the window is returned whole. *)
Lemma last_rows_short (w n : nat) (s' : list nat) (t : Tensor) :
  shape t = n :: s' -> n < w ->
  exists y, last_rows w t = Ok y /\ shape y = n :: s' /\
            forall i idx, get y (i :: idx) = get t (i :: idx).
Proof.
  intros H Hw. unfold last_rows. rewrite H.
  destruct (Nat.eqb_spec w 0); [lia|].
  replace (n - w) with 0 by lia. rewrite Nat.sub_0_r.
  eexists; split; [reflexivity|]. split; reflexivity.
Qed.

Lemma cols_prefix_values (k : nat) (df : DataFrame) :
  k <= ncols df ->
  exists y, cols_prefix k (values df) = Ok y /\ shape y = [nrows df; k].
Proof.
  intros H. unfold cols_prefix, values. simpl.
  eexists; split; [reflexivity|]. simpl. now rewrite Nat.min_l.
Qed.

(** An array that is not of [object] type has a row and is converted. *)
Lemma values_dtype_rows (df : DataFrame) :
  values_dtype df <> Object -> 1 <= nrows df.
Proof.
  unfold values_dtype. destruct (Nat.eqb_spec (nrows df) 0); [congruence|lia].
Qed.

Lemma torch_tensor_ok (d : dtype) (a : Tensor) :
  d <> Object -> torch_tensor d a = Ok a.
Proof. destruct d; [reflexivity|reflexivity|congruence]. Qed.

(** On well-formed modules and tables, lines 137-153 return the scalar
    of the head. *)
Lemma session_scalar_ok (w : World) (dd : string) (D ws : nat)
  (entry : string * string) (st : Locals) :
  D <> 0 -> D mod 4 = 0 ->
  Encoder_wf D 4 (encoder st) -> Decoder_wf D 4 (decoder st) ->
  RULHead_wf D (rul_head st) ->
  Session_files w dd D entry ->
  exists dec_out out s,
    RULHead.forward (rul_head st) dec_out = Ok out /\ item out = Ok s /\
    session_scalar w dd D ws entry st = Ok s.
Proof.
  intros HD Hm He Hd Hh
    (base & vdf & tdf & Hb & Hv & Ht & Hcv & Hct & Hdv & Hdt).
  destruct entry as (val_name & train_file). simpl in Hv, Ht.
  pose proof (mod4_even D Hm) as Hev.
  pose proof (values_dtype_rows vdf Hdv) as Hrows.
  unfold session_scalar, global_base_dir, read_csv. rewrite Hb. cbn [bind].
  rewrite Hv, Ht. cbn [bind].
  destruct (cols_prefix_values D tdf Hct) as (tt & -> & Stt). cbn [bind].
  rewrite (torch_tensor_ok _ tt Hdt). cbn [bind].
  destruct (add_positional_encoding_even (unsqueeze0 tt) 1 (nrows tdf) D)
    as (tp & -> & Stp & _); [simpl; now rewrite Stt|assumption|assumption|].
  cbn [bind].
  destruct (cols_prefix_values D vdf Hcv) as (vt & -> & Svt). cbn [bind].
  rewrite (torch_tensor_ok _ vt Hdv). cbn [bind].
  destruct (last_rows_shape ws _ _ vt Svt) as (di & -> & Sdi). cbn [bind].
  set (T := if ws =? 0 then nrows vdf else Nat.min ws (nrows vdf)) in *.
  assert (HT : 1 <= T).
  { unfold T. destruct (Nat.eqb_spec ws 0); lia. }
  destruct (add_positional_encoding_even (unsqueeze0 di) 1 T D)
    as (dp & -> & Sdp & _); [simpl; now rewrite Sdi|assumption|assumption|].
  cbn [bind].
  destruct (Encoder_forward_ok D 4 (encoder st) tp 1 (nrows tdf)
              ltac:(lia) Hm He Stp) as (eo & -> & Seo).
  cbn [bind].
  destruct (Decoder_forward_ok D 4 (decoder st) dp eo 1 T (nrows tdf)
              ltac:(lia) Hm Hd Sdp Seo) as (dout & -> & Sdo).
  cbn [bind].
  destruct (RULHead_forward_ok D (rul_head st) dout 1 T Hh Sdo HT)
    as (v & y & _ & _ & _ & Ef & Sf).
  rewrite Ef. cbn [bind].
  assert (Ei : item (squeeze_last y) = Ok (get (squeeze_last y) [0])).
  { unfold item. now rewrite Sf. }
  exists dout, (squeeze_last y), (get (squeeze_last y) [0]).
  repeat split; auto.
Qed.

(** The state after a session whose scalar is s and whose RUL is r. *)
Lemma session_of_scalar (w : World) (dd : string) (D ws : nat)
  (entry : string * string) (st : Locals) (s : R) :
  session_scalar w dd D ws entry st = Ok s ->
  session w dd D ws entry st =
    (r <- inverse_transform (float64 w) s ;;
     Ok (mkLocals (encoder st) (decoder st) (rul_head st)
           (results st ++ [mkRow (fst entry) (snd entry) r])
           (stdout st ++ [PrintPrediction (fst entry) (snd entry) r]))).
Proof. intros H. unfold session. now rewrite H. Qed.

Lemma session_frame (w : World) (dd : string) (D ws : nat)
  (entry : string * string) (st st' : Locals) :
  session w dd D ws entry st = Ok st' ->
  encoder st' = encoder st /\ decoder st' = decoder st /\
  rul_head st' = rul_head st.
Proof.
  unfold session. intros E.
  destruct (session_scalar w dd D ws entry st); [|discriminate].
  cbn [bind] in E.
  destruct (inverse_transform (float64 w) a); [|discriminate].
  cbn [bind] in E. injection E as <-. simpl. auto.
Qed.

Lemma foldM_app {A S : Type} (f : A -> S -> result S) (xs ys : list A) (s : S) :
  foldM f (xs ++ ys) s = (s' <- foldM f xs s ;; foldM f ys s').
Proof.
  revert s. induction xs as [|x xs IH]; intros s; simpl; [reflexivity|].
  destruct (f x s); simpl; auto.
Qed.

Lemma sessions_frame (w : World) (dd : string) (D ws : nat)
  (entries : list (string * string)) :
  forall st st',
    foldM (session w dd D ws) entries st = Ok st' ->
    encoder st' = encoder st /\ decoder st' = decoder st /\
    rul_head st' = rul_head st.
Proof.
  induction entries as [|e es IH]; intros st st' E; simpl in E.
  - injection E as <-. auto.
  - destruct (session w dd D ws e st) as [st1|] eqn:E1; [|discriminate].
    cbn [bind] in E. apply session_frame in E1 as (A1 & A2 & A3).
    apply IH in E as (B1 & B2 & B3). repeat split; congruence.
Qed.

(** The loop over any list of sessions on well-formed modules and
    tables: either every session yields its row, in order, each row
    holding the inverse transform of a scalar the head returned, or the
    inverse transform of such a scalar raised and the loop ended with
    that exception. *)
Lemma sessions_run (w : World) (dd : string) (D ws : nat)
  (entries : list (string * string)) :
  D <> 0 -> D mod 4 = 0 ->
  Forall (Session_files w dd D) entries ->
  forall st,
    Encoder_wf D 4 (encoder st) -> Decoder_wf D 4 (decoder st) ->
    RULHead_wf D (rul_head st) ->
    (exists st' rows,
       foldM (session w dd D ws) entries st = Ok st' /\
       results st' = results st ++ rows /\
       map Validation rows = map fst entries /\
       map Best_Train rows = map snd entries /\
       Forall (fun r => exists dec_out out s,
                 RULHead.forward (rul_head st) dec_out = Ok out /\
                 item out = Ok s /\
                 inverse_transform (float64 w) s = Ok (Pred_RUL r)) rows) \/
    (exists dec_out out s e,
       RULHead.forward (rul_head st) dec_out = Ok out /\ item out = Ok s /\
       inverse_transform (float64 w) s = Err e /\
       foldM (session w dd D ws) entries st = Err e).
Proof.
  intros HD Hm Hall. induction Hall as [|e es Hf _ IH]; intros st He Hd Hh.
  - left. exists st, []. simpl. rewrite app_nil_r. repeat split. constructor.
  - destruct (session_scalar_ok w dd D ws e st HD Hm He Hd Hh Hf)
      as (dout & out & s & Ef & Ei & Es).
    simpl. rewrite (session_of_scalar _ _ _ _ _ _ _ Es).
    destruct (inverse_transform (float64 w) s) as [r|err] eqn:Er; cbn [bind].
    + match goal with
      | |- context [foldM _ es ?s1] =>
          destruct (IH s1 He Hd Hh)
            as [(st' & rows & -> & E4 & E5 & E6 & E7)
               |(dout' & out' & s' & err & Ef' & Ei' & Er' & ->)]
      end.
      * left. exists st', (mkRow (fst e) (snd e) r :: rows).
        simpl in *. rewrite E4, E5, E6, <- app_assoc.
        repeat split; try assumption.
        constructor; [|exact E7]. exists dout, out, s. auto.
      * right. exists dout', out', s', err. auto.
    + right. exists dout, out, s, err. auto.
Qed.

(** The same loop when [math.pow] overflows on no scalar of the head. *)
Lemma sessions_ok (w : World) (dd : string) (D ws : nat)
  (entries : list (string * string)) (st : Locals) :
  D <> 0 -> D mod 4 = 0 ->
  Forall (Session_files w dd D) entries ->
  Encoder_wf D 4 (encoder st) -> Decoder_wf D 4 (decoder st) ->
  RULHead_wf D (rul_head st) ->
  (forall dec_out out s,
     RULHead.forward (rul_head st) dec_out = Ok out -> item out = Ok s ->
     exists r, inverse_transform (float64 w) s = Ok r) ->
  exists st' rows,
    foldM (session w dd D ws) entries st = Ok st' /\
    results st' = results st ++ rows /\
    map Validation rows = map fst entries /\
    map Best_Train rows = map snd entries /\
    Forall (fun r => exists dec_out out s,
              RULHead.forward (rul_head st) dec_out = Ok out /\
              item out = Ok s /\
              inverse_transform (float64 w) s = Ok (Pred_RUL r)) rows.
Proof.
  intros HD Hm Hall He Hd Hh Hpow.
  destruct (sessions_run w dd D ws entries HD Hm Hall st He Hd Hh)
    as [H|(dout & out & s & err & Ef & Ei & Er & _)]; [exact H|].
  destruct (Hpow dout out s Ef Ei) as (r & Hr). congruence.
Qed.

(** The run on well-formed inputs, whatever the window size. *)
Lemma infer_ok (w : World) (mp : list (string * string)) (dd out : string)
  (D ws : nat) (st0 : Locals) :
  load_models w mp D = Ok st0 -> D <> 0 ->
  Forall (Session_files w dd D) best_matches ->
  can_write w out = true ->
  (forall dec_out y s,
     RULHead.forward (rul_head st0) dec_out = Ok y -> item y = Ok s ->
     exists r, inverse_transform (float64 w) s = Ok r) ->
  exists o,
    infer_rul_without_gt w mp dd out D ws = Ok o /\
    map Validation (results_df o) = map fst best_matches /\
    map Best_Train (results_df o) = map snd best_matches /\
    Forall (fun r => exists dec_out y s,
              RULHead.forward (rul_head st0) dec_out = Ok y /\
              item y = Ok s /\
              inverse_transform (float64 w) s = Ok (Pred_RUL r))
           (results_df o).
Proof.
  intros El HD Hall Hw Hpow.
  destruct (load_models_wf w mp D st0 El) as (Hm & He & Hd & Hh & Hr & _).
  destruct (sessions_ok w dd D ws best_matches st0 HD Hm Hall He Hd Hh Hpow)
    as (st' & rows & Ef & E4 & E5 & E6 & E7).
  unfold infer_rul_without_gt. rewrite El. cbn [bind]. rewrite Ef. cbn [bind].
  rewrite Hw. eexists; split; [reflexivity|]. simpl. rewrite E4, Hr. simpl. auto.
Qed.

(** An exception in one session ends the run: nothing catches it. *)
Lemma session_error_aborts_run (w : World) (mp : list (string * string))
  (dd out : string) (D ws : nat) (st0 st1 : Locals)
  (pre post : list (string * string)) (entry : string * string) (e : exn) :
  load_models w mp D = Ok st0 ->
  best_matches = pre ++ entry :: post ->
  foldM (session w dd D ws) pre st0 = Ok st1 ->
  session w dd D ws entry st1 = Err e ->
  infer_rul_without_gt w mp dd out D ws = Err e.
Proof.
  intros El Hb Hpre He. unfold infer_rul_without_gt.
  rewrite El. cbn [bind]. rewrite Hb, foldM_app, Hpre. cbn [bind]. simpl.
  now rewrite He.
Qed.

(** ** A head with a constant output *)

Lemma Sequential_forward_app (n1 n2 : list NetLayer) (x : Tensor) :
  Sequential_forward (n1 ++ n2) x =
    (y <- Sequential_forward n1 x ;; Sequential_forward n2 y).
Proof.
  revert x. induction n1 as [|n n1 IH]; intros x; simpl; [reflexivity|].
  destruct (NetLayer_forward n x); simpl; auto.
Qed.

Lemma linear_const (l : Linear) (x y : Tensor) (b : R) :
  (forall idx, get (weight l) idx = 0%R) -> (forall idx, get (bias l) idx = b) ->
  linear l x = Ok y -> forall idx, get y idx = b.
Proof.
  intros Hw Hb E idx. unfold linear in E.
  destruct (shape (weight l)) as [|o [|i [|? ?]]]; try discriminate.
  destruct (rev (shape x)) as [|d pre]; try discriminate.
  destruct ((d =? i) && shape_eqb (shape (bias l)) [o]); [|discriminate].
  injection E as <-. simpl. rewrite Hb, sum_upto_zero; [lra|].
  intros k _. rewrite Hw. lra.
Qed.

Lemma squeeze_last_const (y : Tensor) (b : R) :
  (forall idx, get y idx = b) -> forall idx, get (squeeze_last y) idx = b.
Proof.
  intros H idx. unfold squeeze_last.
  destruct (rev (shape y)) as [|[|[|n]] pre]; simpl; auto.
Qed.

(** A head whose last layer has a zero matrix and the constant bias [b]
    returns [b] for every input. *)
Lemma RULHead_const (hd : RULHead.t) (pre : list NetLayer) (l : Linear)
  (b : R) (x out : Tensor) (s : R) :
  RULHead.net hd = pre ++ [NLinear l] ->
  (forall idx, get (weight l) idx = 0%R) -> (forall idx, get (bias l) idx = b) ->
  RULHead.forward hd x = Ok out -> item out = Ok s -> s = b.
Proof.
  intros Hn Hw Hb Ef Ei. unfold RULHead.forward in Ef. rewrite Hn in Ef.
  bind_inv Ef. rewrite Sequential_forward_app in Ef. bind_inv Ef.
  injection Ef as <-. bind_inv E0. simpl in E0. bind_inv E0.
  injection E0 as <-.
  unfold item in Ei. destruct (numel _ =? 1); [|discriminate].
  injection Ei as <-. apply squeeze_last_const.
  exact (linear_const l a1 a2 b Hw Hb E2).
Qed.

(** ** The example worlds *)

Lemma example_load (base : option string) (b : R) :
  exists st0,
    load_models (example_world base b) example_paths 4 = Ok st0 /\
    RULHead.net (rul_head st0) =
      [NLinear (const_linear 4 128 0); NGELU;
       NLinear (const_linear 128 64 0); NGELU;
       NLinear (const_linear 64 1 b)].
Proof. eexists. split; reflexivity. Qed.

Lemma example_files (b : R) :
  Forall (Session_files (example_world (Some "data"%string) b) "train" 4)
         best_matches.
Proof.
  repeat constructor;
    (eexists; eexists; eexists;
     split; [reflexivity|];
     split; [reflexivity|];
     split; [reflexivity|];
     split; [simpl; lia|];
     split; [simpl; lia|];
     split; discriminate).
Qed.

(** The head of the example worlds returns its last bias. *)
Lemma example_head_scalar (hd : RULHead.t) (b : R) (x out : Tensor) (s : R) :
  RULHead.net hd =
    [NLinear (const_linear 4 128 0); NGELU;
     NLinear (const_linear 128 64 0); NGELU;
     NLinear (const_linear 64 1 b)] ->
  RULHead.forward hd x = Ok out -> item out = Ok s -> s = b.
Proof.
  intros Hn.
  apply (RULHead_const hd
           [NLinear (const_linear 4 128 0); NGELU;
            NLinear (const_linear 128 64 0); NGELU]
           (const_linear 64 1 b)); [exact Hn|reflexivity|reflexivity].
Qed.

(** The run of an example world whose head returns b, with 100^b inside
    the binary64 range: six rows, each with the RUL 100^b - 1. *)
Lemma example_infer_ok (b : R) (ws : nat) :
  (Rpower 100 b <= max_float)%R ->
  exists o,
    infer_rul_without_gt (example_world (Some "data"%string) b) example_paths
      "train" "out.csv" 4 ws = Ok o /\
    map Validation (results_df o) = map fst best_matches /\
    map Best_Train (results_df o) = map snd best_matches /\
    Forall (fun r => Pred_RUL r = (Rpower 100 b - 1)%R) (results_df o).
Proof.
  intros Hb.
  destruct (example_load (Some "data"%string) b) as (st0 & El & Hn).
  assert (Hpow : forall dec_out y s,
             RULHead.forward (rul_head st0) dec_out = Ok y -> item y = Ok s ->
             exists r,
               inverse_transform
                 (float64 (example_world (Some "data"%string) b)) s = Ok r).
  { intros dout y s Ef Ei.
    rewrite (example_head_scalar _ b _ _ _ Hn Ef Ei).
    eexists. apply exact_inverse_transform. exact Hb. }
  destruct (infer_ok _ _ "train"%string "out.csv"%string 4 ws st0 El
              ltac:(lia) (example_files b) eq_refl Hpow)
    as (o & Eo & Ev & Et & Hr).
  exists o. repeat split; try assumption.
  eapply Forall_impl; [|exact Hr].
  intros r (dout & y & s & Ef & Ei & Er).
  rewrite (example_head_scalar _ b _ _ _ Hn Ef Ei) in Er.
  change (float64 (example_world (Some "data"%string) b))
    with exact_float64 in Er.
  rewrite (exact_inverse_transform b Hb) in Er. now injection Er.
Qed.

Lemma Rpower_100_0_in_range : (Rpower 100 0 <= max_float)%R.
Proof.
  rewrite Rpower_O by lra. exact max_float_ge_1.
Qed.



(** ** A window longer than the table (line 147) *)

(** C1 (amended): a validation table with fewer rows than the window size
    raises no error: [t[-W:]] is then the whole table.  On loaded models,
    on tables that exist with numeric columns and at least one row,
    whatever their lengths against W, and with an output path that can be
    written, every session of the batch yields its PredictionResult, in
    the order of the match table; the one exception left is the
    OverflowError of [math.pow] at line 154, for a scalar s of the head
    with 100^s above the largest binary64 number, which ends the run. *)
Theorem short_window_is_not_an_error (w : World)
  (mp : list (string * string)) (dd out : string) (D ws : nat) (st0 : Locals) :
  load_models w mp D = Ok st0 -> D <> 0 ->
  Forall (Session_files w dd D) best_matches ->
  Float64_ok (float64 w) -> can_write w out = true ->
  (forall t n s', shape t = n :: s' -> n < ws ->
     exists y, last_rows ws t = Ok y /\ shape y = n :: s' /\
               forall i idx, get y (i :: idx) = get t (i :: idx)) /\
  ((exists o,
      infer_rul_without_gt w mp dd out D ws = Ok o /\
      map Validation (results_df o) = map fst best_matches /\
      map Best_Train (results_df o) = map snd best_matches) \/
   (exists dec_out y s,
      RULHead.forward (rul_head st0) dec_out = Ok y /\ item y = Ok s /\
      (max_float < Rpower 100 s)%R /\
      infer_rul_without_gt w mp dd out D ws = Err OverflowError)).
Proof.
  intros El HD Hall HF Hw. split.
  - intros t n s' Ht Hn. exact (last_rows_short ws n s' t Ht Hn).
  - destruct (load_models_wf w mp D st0 El) as (Hm & He & Hd & Hh & Hr & _).
    unfold infer_rul_without_gt. rewrite El. cbn [bind].
    destruct (sessions_run w dd D ws best_matches HD Hm Hall st0 He Hd Hh)
      as [(st' & rows & -> & E4 & E5 & E6 & _)
         |(dout & y & s & e & Ef & Ei & Er & ->)]; cbn [bind].
    + left. rewrite Hw. eexists. split; [reflexivity|].
      simpl. rewrite E4, Hr. simpl. auto.
    + right. destruct (inverse_transform_err _ s e HF Er) as (-> & Hlt).
      exists dout, y, s. auto.
Qed.

Lemma short_window_is_not_an_error_witness :
  exists df,
    csv_files (example_world (Some "data"%string) 0)
      ["data"; "validation"; "feature"; "validation1.csv"]%string = Some df /\
    nrows df = 10 /\
    ((exists o,
        infer_rul_without_gt (example_world (Some "data"%string) 0)
          example_paths "train" "out.csv" 4 21 = Ok o /\
        map Validation (results_df o) = map fst best_matches /\
        map Best_Train (results_df o) = map snd best_matches) \/
     (exists dec_out y s,
        RULHead.forward
          (RULHead.mk [NLinear (const_linear 4 128 0); NGELU;
                       NLinear (const_linear 128 64 0); NGELU;
                       NLinear (const_linear 64 1 0)]) dec_out = Ok y /\
        item y = Ok s /\ (max_float < Rpower 100 s)%R /\
        infer_rul_without_gt (example_world (Some "data"%string) 0)
          example_paths "train" "out.csv" 4 21 = Err OverflowError)).
Proof.
  exists (zero_df 10 4). split; [reflexivity|]. split; [reflexivity|].
  exact (proj2 (short_window_is_not_an_error
                  (example_world (Some "data"%string) 0) example_paths
                  "train"%string "out.csv"%string 4 21 _ eq_refl ltac:(lia)
                  (example_files 0) exact_float64_ok eq_refl)).
Defined.

(** C1 as stated fails: validation1 has 10 rows, the window size is 21,
    and the run returns six rows, validation1's among them; no error is
    raised or recorded for it. *)
Lemma short_validation_session_still_predicts :
  exists df o,
    csv_files (example_world (Some "data"%string) 0)
      ["data"; "validation"; "feature"; "validation1.csv"]%string = Some df /\
    nrows df = 10 /\ 10 < 21 /\
    infer_rul_without_gt (example_world (Some "data"%string) 0) example_paths
      "train" "out.csv" 4 21 = Ok o /\
    map Validation (results_df o) =
      ["validation1"; "validation2"; "validation3"; "validation4";
       "validation5"; "validation6"]%string.
Proof.
  destruct (example_infer_ok 0 21 Rpower_100_0_in_range) as (o & Eo & Ev & _).
  exists (zero_df 10 4), o. repeat split; try assumption. lia.
Qed.

(** ** The inverse transform in the pipeline (line 154) *)






(** ** The sign of the prediction *)




(** ** The global name base_dir *)

(** With [base_dir] bound, the validation table is read under it and
    the training table under [data_dir]. *)
Lemma session_paths (w : World) (dd base : string) (D ws : nat)
  (val_name train_file : string) (st : Locals) :
  base_dir w = Some base ->
  (csv_files w [base; "validation"; "feature"; val_name ++ ".csv"]%string = None ->
   session w dd D ws (val_name, train_file) st =
     Err (FileNotFoundError
            [base; "validation"; "feature"; val_name ++ ".csv"]%string)) /\
  (forall val_df,
     csv_files w [base; "validation"; "feature"; val_name ++ ".csv"]%string
       = Some val_df ->
     csv_files w [dd; train_file] = None ->
     session w dd D ws (val_name, train_file) st =
       Err (FileNotFoundError [dd; train_file])).
Proof.
  intros Hb. unfold session, session_scalar, global_base_dir, read_csv.
  rewrite Hb. cbn [bind]. split.
  - intros Hf. now rewrite Hf.
  - intros val_df Hv Ht. rewrite Hv. cbn [bind]. now rewrite Ht.
Qed.

(** C9 (amended): the path of a session's validation table is built from
    the global name [base_dir], and [data_dir] names only the training
    table.  With [base_dir] unbound every session fails with a NameError,
    whatever the parameters and the state; a call whose models load fails
    with that NameError at the first session, and a call whose
    construction or loading fails fails there with that earlier error.
    No call returns a result. *)
Theorem base_dir_unbound_no_result (w : World) (mp : list (string * string))
  (dd out : string) (D ws : nat) :
  (forall base val_name train_file st,
      base_dir w = Some base ->
      (csv_files w [base; "validation"; "feature"; val_name ++ ".csv"]%string
         = None ->
       session w dd D ws (val_name, train_file) st =
         Err (FileNotFoundError
                [base; "validation"; "feature"; val_name ++ ".csv"]%string)) /\
      (forall val_df,
         csv_files w [base; "validation"; "feature"; val_name ++ ".csv"]%string
           = Some val_df ->
         csv_files w [dd; train_file] = None ->
         session w dd D ws (val_name, train_file) st =
           Err (FileNotFoundError [dd; train_file]))) /\
  (base_dir w = None ->
   (forall dd' D' ws' entry st,
       session w dd' D' ws' entry st = Err (NameError "base_dir")) /\
   (forall st0, load_models w mp D = Ok st0 ->
       infer_rul_without_gt w mp dd out D ws = Err (NameError "base_dir")) /\
   (forall e, load_models w mp D = Err e ->
       infer_rul_without_gt w mp dd out D ws = Err e)).
Proof.
  split.
  - intros base val_name train_file st Hb.
    exact (session_paths w dd base D ws val_name train_file st Hb).
  - intros Hb.
    assert (Hs : forall dd' D' ws' entry st,
               session w dd' D' ws' entry st = Err (NameError "base_dir")).
    { intros dd' D' ws' (v & t) st.
      unfold session, session_scalar, global_base_dir. now rewrite Hb. }
    split; [exact Hs|]. split.
    + intros st0 El. unfold infer_rul_without_gt. rewrite El. cbn [bind].
      unfold best_matches. cbn [foldM]. now rewrite Hs.
    + intros e El. unfold infer_rul_without_gt. now rewrite El.
Qed.

Lemma base_dir_unbound_no_result_witness :
  base_dir (example_world None 0) = None /\
  infer_rul_without_gt (example_world None 0) example_paths
    "train" "out.csv" 4 21 = Err (NameError "base_dir").
Proof.
  split; [reflexivity|].
  destruct (example_load None 0) as (st0 & El & _).
  exact (proj1 (proj2 (proj2 (base_dir_unbound_no_result (example_world None 0)
                         example_paths "train"%string "out.csv"%string 4 21)
                         eq_refl)) st0 El).
Defined.

(** C9 as stated fails: with [base_dir] unbound and feature_dim = 37 the
    call fails with the AssertionError of the SelfAttention constructor,
    not with a NameError. *)
Lemma base_dir_unbound_assertion_first :
  base_dir (example_world None 0) = None /\
  infer_rul_without_gt (example_world None 0) example_paths
    "train" "out.csv" 37 21 = Err AssertionError.
Proof.
  split; [reflexivity|].
  unfold infer_rul_without_gt.
  rewrite (load_models_assert _ _ 37); [reflexivity|].
  simpl. lia.
Qed.

(** ** Instances on small tensors *)

Lemma example_sa_wf : SelfAttention_wf 4 2 example_sa.
Proof. repeat split. Qed.

Lemma example_ca_wf : CrossAttention_wf 4 2 example_ca.
Proof. repeat split. Qed.

Lemma attention_blocks_preserve_shape_witness :
  4 mod 2 = 0 /\
  (exists y, SelfAttention.forward example_sa (ramp [1; 3; 4]) = Ok y /\
             shape y = [1; 3; 4]) /\
  (exists y, MultiHeadCrossAttention.forward example_ca (ramp [1; 3; 4])
               (ramp [1; 5; 4]) = Ok y /\
             shape y = [1; 3; 4]).
Proof.
  split; [reflexivity|].
  destruct (attention_blocks_preserve_shape 4 2 ltac:(lia) eq_refl) as (Hs & Hc).
  split.
  - exact (Hs example_sa (ramp [1; 3; 4]) 1 3 example_sa_wf eq_refl).
  - exact (Hc example_ca (ramp [1; 3; 4]) (ramp [1; 5; 4]) 1 3 5
              example_ca_wf eq_refl eq_refl).
Defined.

Lemma SelfAttention_zero_weights_identity_witness :
  Linear_zero (SelfAttention.qkv example_sa) /\
  Linear_zero (SelfAttention.out example_sa) /\
  exists y, SelfAttention.forward example_sa (ramp [1; 3; 4]) = Ok y /\
            teq y (ramp [1; 3; 4]).
Proof.
  assert (Hq : Linear_zero (SelfAttention.qkv example_sa))
    by (split; intros; reflexivity).
  assert (Ho : Linear_zero (SelfAttention.out example_sa))
    by (split; intros; reflexivity).
  split; [exact Hq|]. split; [exact Ho|].
  exact (SelfAttention_zero_weights_identity 4 2 example_sa (ramp [1; 3; 4]) 1 3
           ltac:(lia) eq_refl example_sa_wf eq_refl Hq Ho).
Defined.

Lemma RULHead_last_step_only_witness :
  exists out out',
    RULHead.forward (RULHead.init (fun _ _ => 0%R) 4 [128; 64])
                    (zeros [2; 3; 4]) = Ok out /\
    RULHead.forward (RULHead.init (fun _ _ => 0%R) 4 [128; 64])
                    (zero_at_step [2; 3; 4] 2) = Ok out' /\
    shape out = [2] /\ shape out' = [2] /\
    forall b, b < 2 -> get out [b] = get out' [b].
Proof.
  exact (proj1 (proj2
           (RULHead_last_step_only 4 2 3
              (RULHead.init (fun _ _ => 0%R) 4 [128; 64])
              (zeros [2; 3; 4]) (zero_at_step [2; 3; 4] 2)
              (build_wf (fun _ _ => 0%R) [128; 64] 4) ltac:(lia)
              eq_refl eq_refl (fun b d _ _ => eq_refl)))).
Defined.

Lemma add_positional_encoding_values_witness :
  Nat.even 2 = true /\
  exists y, add_positional_encoding (ramp [1; 2; 2]) = Ok y /\
            shape y = [1; 2; 2].
Proof.
  split; [reflexivity|].
  destruct (add_positional_encoding_values (ramp [1; 2; 2]) 1 2 2 eq_refl
              ltac:(lia) (or_introl eq_refl)) as (y & Ey & Sy & _).
  exists y. split; assumption.
Defined.

Lemma add_positional_encoding_by_width_witness :
  Nat.odd 5 = true /\
  exists s, add_positional_encoding (ramp [2; 3; 5]) =
              Err (ShapeError "expand" s [3; 2]).
Proof.
  split; [reflexivity|].
  destruct (proj2 (proj2 (proj2
              (add_positional_encoding_by_width (ramp [2; 3; 5]) 2 3 5 eq_refl)))
              eq_refl ltac:(lia)) as (a & pe1 & s & _ & _ & _ & _ & _ & E).
  exists s. exact E.
Defined.

(** * Further properties of the code *)

(** ** Constructors of the attention blocks (lines 34-39 and 48-54) *)

(** X1: both attention constructors raise ZeroDivisionError for heads = 0
    and AssertionError when heads does not divide d_model; otherwise they
    return a block with h = heads, dk = d_model / heads, h * dk = d_model
    and projections of the widths 3 * d_model (2 * d_model for kv) and
    d_model. *)
Theorem attention_init_cases (rng : Rng) (D H : nat) :
  (H = 0 ->
   SelfAttention.init rng D H = Err ZeroDivisionError /\
   MultiHeadCrossAttention.init rng D H = Err ZeroDivisionError) /\
  (H <> 0 -> D mod H <> 0 ->
   SelfAttention.init rng D H = Err AssertionError /\
   MultiHeadCrossAttention.init rng D H = Err AssertionError) /\
  (H <> 0 -> D mod H = 0 ->
   exists sa ca,
     SelfAttention.init rng D H = Ok sa /\
     MultiHeadCrossAttention.init rng D H = Ok ca /\
     SelfAttention_wf D H sa /\ CrossAttention_wf D H ca /\
     SelfAttention.h sa * SelfAttention.dk sa = D /\
     MultiHeadCrossAttention.h ca * MultiHeadCrossAttention.dk ca = D).
Proof.
  split; [|split].
  - intros ->. split; reflexivity.
  - intros HH Hm. unfold SelfAttention.init, MultiHeadCrossAttention.init.
    destruct (Nat.eqb_spec H 0); [contradiction|].
    destruct (Nat.eqb_spec (D mod H) 0); [contradiction|]. split; reflexivity.
  - intros HH Hm.
    destruct (SelfAttention_init_wf rng D H HH Hm) as (sa & Es & Ws).
    destruct (CrossAttention_init_wf rng D H HH Hm) as (ca & Ec & Wc).
    exists sa, ca.
    split; [exact Es|]. split; [exact Ec|].
    split; [exact Ws|]. split; [exact Wc|]. split.
    + destruct Ws as (-> & -> & _). now apply heads_times_dk.
    + destruct Wc as (-> & -> & _). now apply heads_times_dk.
Qed.

(** ** Inputs the attention blocks reject (lines 40-42 and 55-59) *)

(** X2: a SelfAttention block built for width D rejects an input whose
    last dimension is not D at its first projection, and an input that is
    not of rank 3 at the unpacking of its shape. *)
Theorem SelfAttention_forward_rejects (D H : nat) (sa : SelfAttention.t)
  (x : Tensor) :
  SelfAttention_wf D H sa ->
  (forall B L D', shape x = [B; L; D'] -> D' <> D ->
     SelfAttention.forward sa x =
       Err (ShapeError "linear" [B; L; D'] [D * 3; D])) /\
  (length (shape x) <> 3 -> SelfAttention.forward sa x = Err ValueError).
Proof.
  intros (_ & _ & (Hqw & Hqb) & _). split.
  - intros B L D' Hx Hne. unfold SelfAttention.forward. rewrite Hx.
    unfold linear. rewrite Hqw, Hx. simpl.
    destruct (Nat.eqb_spec D' D); [contradiction|]. reflexivity.
  - intros Hr. unfold SelfAttention.forward.
    destruct (shape x) as [|a [|b [|c [|d s]]]]; try reflexivity.
    simpl in Hr. lia.
Qed.

Lemma SelfAttention_forward_rejects_witness :
  SelfAttention.forward example_sa (ramp [1; 3; 5]) =
    Err (ShapeError "linear" [1; 3; 5] [12; 4]) /\
  SelfAttention.forward example_sa (ramp [3; 4]) = Err ValueError.
Proof.
  destruct (SelfAttention_forward_rejects 4 2 example_sa (ramp [1; 3; 5])
              example_sa_wf) as (H1 & _).
  split.
  - exact (H1 1 3 5 eq_refl ltac:(lia)).
  - reflexivity.
Defined.

(** ** The residual of cross-attention (lines 55-62) *)

Lemma CrossAttention_forward_residual (D H : nat)
  (ca : MultiHeadCrossAttention.t) (x memory : Tensor) (B T Sm : nat) :
  H <> 0 -> D mod H = 0 -> CrossAttention_wf D H ca ->
  shape x = [B; T; D] -> shape memory = [B; Sm; D] ->
  exists r o y,
    MultiHeadCrossAttention.forward ca x memory = Ok y /\
    shape y = [B; T; D] /\ shape r = [B; T; D] /\
    linear (MultiHeadCrossAttention.out ca) r = Ok o /\
    forall idx, in_bounds [B; T; D] idx -> get y idx = (get o idx + get x idx)%R.
Proof.
  intros HH Hm (Hh & Hdk & (Hqw & Hqb) & (Hkw & Hkb) & (How & Hob)) Hx Hmem.
  pose proof (heads_times_dk D H HH Hm) as HD.
  unfold MultiHeadCrossAttention.forward. rewrite Hx, Hmem, Hh, Hdk. cbn [bind].
  destruct (linear_ok _ x [B; T] _ _ Hqw Hqb Hx) as (t & -> & S & _).
  cbn [bind].
  run_step (view_ok t [B; T; H; D / H]).
  { rewrite S. simpl. nia. }
  run_step (permute4_ok _ _ _ _ _ S0).
  destruct (linear_ok _ memory [B; Sm] _ _ Hkw Hkb Hmem) as (t2 & -> & S2 & _).
  cbn [bind].
  run_step (view_ok t2 [B; Sm; 2; H; D / H]).
  { rewrite S2. simpl. nia. }
  run_step (permute5_ok _ _ _ _ _ _ S3).
  run_step (select0_ok t4 0 _ _ S4 ltac:(lia)).
  run_step (select0_ok t4 1 _ _ S4 ltac:(lia)).
  run_step (transpose_last2_ok _ _ _ _ _ S5).
  run_step (matmul4_ok _ _ _ _ _ _ _ S1 S7).
  run_step (softmax_last_ok (div_scalar t8 (sqrt (INR (D / H)))) [B; H; T] Sm S8).
  run_step (matmul4_ok _ _ _ _ _ _ _ S9 S6).
  run_step (transpose12_ok _ _ _ _ _ S10).
  run_step (view_ok t11 [B; T; D]).
  { rewrite S11. simpl. nia. }
  destruct (linear_ok _ t12 [B; T] _ _ How Hob S12) as (o & Eo & So & _).
  rewrite Eo. cbn [bind].
  destruct (add_same_shape o x) as (y & Ey & Sy & Gy).
  { rewrite So, Hx. reflexivity. }
  exists t12, o, y. rewrite Sy, So in *. repeat split; auto.
Qed.

(** X4: the residual of a cross-attention block is its query stream, not
    the memory: when the weight matrix of the output projection is zero
    the block returns x plus that projection's bias, for every memory of
    any length, and x itself when the bias is zero as well. *)
Theorem CrossAttention_residual_is_query (D H : nat)
  (ca : MultiHeadCrossAttention.t) (x memory : Tensor) (B T Sm : nat) :
  H <> 0 -> D mod H = 0 -> CrossAttention_wf D H ca ->
  shape x = [B; T; D] -> shape memory = [B; Sm; D] ->
  (forall idx, get (weight (MultiHeadCrossAttention.out ca)) idx = 0%R) ->
  exists y, MultiHeadCrossAttention.forward ca x memory = Ok y /\
    shape y = shape x /\
    (forall idx, in_bounds (shape x) idx ->
       get y idx =
         Rplus (get (bias (MultiHeadCrossAttention.out ca)) [last idx 0])
               (get x idx)) /\
    ((forall idx, get (bias (MultiHeadCrossAttention.out ca)) idx = 0%R) ->
     teq y x).
Proof.
  intros HH Hm Hwf Hx Hmem Hz.
  destruct (CrossAttention_forward_residual D H ca x memory B T Sm HH Hm Hwf
              Hx Hmem) as (r & o & y & Ey & Sy & Sr & Eo & Gy).
  destruct Hwf as (_ & _ & _ & _ & Hout).
  assert (G : forall idx, in_bounds (shape x) idx ->
                get y idx =
                  Rplus (get (bias (MultiHeadCrossAttention.out ca)) [last idx 0])
                        (get x idx)).
  { intros idx Hi. rewrite Hx in Hi. rewrite (Gy idx Hi). f_equal.
    exact (linear_zero_weight _ r o [B; T] D D Hout Sr Hz Eo idx). }
  exists y. split; [exact Ey|]. split; [congruence|]. split; [exact G|].
  intros Hb. split; [congruence|].
  intros idx Hi. rewrite Sy, <- Hx in Hi. rewrite (G idx Hi), Hb. lra.
Qed.

Lemma CrossAttention_residual_is_query_witness :
  exists y, MultiHeadCrossAttention.forward example_ca (ramp [1; 3; 4])
              (zeros [1; 5; 4]) = Ok y /\
            teq y (ramp [1; 3; 4]).
Proof.
  destruct (CrossAttention_residual_is_query 4 2 example_ca (ramp [1; 3; 4])
              (zeros [1; 5; 4]) 1 3 5 ltac:(lia) eq_refl example_ca_wf
              eq_refl eq_refl (fun _ => eq_refl))
    as (y & Ey & _ & _ & Hy).
  exists y. split; [exact Ey|]. exact (Hy (fun _ => eq_refl)).
Defined.

(** ** The feed-forward block (lines 64-69) *)

(** X5: a feed-forward block keeps the shape of its input, whatever the
    number of leading dimensions, and adds its input back: when the last
    linear layer of its net is zero (matrix and bias) the block returns
    its input. *)
Theorem FeedForward_residual (d : nat) (ff : FeedForward.t) (x : Tensor)
  (pre : list nat) :
  FeedForward_wf d ff -> shape x = pre ++ [d] ->
  exists y, FeedForward.forward ff x = Ok y /\ shape y = shape x /\
    (forall net0 l, FeedForward.net ff = net0 ++ [NLinear l] ->
                    Linear_zero l -> teq y x).
Proof.
  intros Hwf Hx. unfold FeedForward.forward.
  destruct (Sequential_forward_ok _ d d pre x Hwf Hx) as (v & Ev & Sv).
  rewrite Ev. cbn [bind].
  destruct (add_same_shape v x) as (y & Ey & Sy & Gy); [congruence|].
  exists y. split; [exact Ey|]. split; [congruence|].
  intros net0 l Hn (Hzw & Hzb). split; [congruence|].
  intros idx Hi. rewrite Sy in Hi. rewrite (Gy idx Hi).
  rewrite Hn, Sequential_forward_app in Ev. bind_inv Ev.
  simpl in Ev. bind_inv Ev. injection Ev as <-.
  rewrite (linear_const l a a0 0%R Hzw Hzb E0 idx). lra.
Qed.

Lemma FeedForward_residual_witness :
  exists y,
    FeedForward.forward
      (FeedForward.mk [NLinear (const_linear 4 256 1); NGELU;
                       NLinear (const_linear 256 4 0)])
      (ramp [2; 3; 4]) = Ok y /\
    teq y (ramp [2; 3; 4]).
Proof.
  destruct (FeedForward_residual 4
              (FeedForward.mk [NLinear (const_linear 4 256 1); NGELU;
                               NLinear (const_linear 256 4 0)])
              (ramp [2; 3; 4]) [2; 3]) as (y & Ey & _ & Hy).
  - exists 256. split; [split; reflexivity|].
    exists 4. split; [split; reflexivity|reflexivity].
  - reflexivity.
  - exists y. split; [exact Ey|].
    apply (Hy [NLinear (const_linear 4 256 1); NGELU] (const_linear 256 4 0));
      [reflexivity|split; intros; reflexivity].
Defined.

(** ** The stacks (lines 71-93) *)

Lemma Forall_map_const {A B : Type} (P : B -> Prop) (v : B) (xs : list A) :
  P v -> Forall P (map (fun _ => v) xs).
Proof. intros Hv. induction xs; simpl; constructor; auto. Qed.

(** X6: for heads that divide d_model the Encoder and Decoder
    constructors build exactly n layers (n of each kind for the decoder),
    all well-formed; with n = 0 no block is built, so they succeed even
    for heads that do not divide d_model. *)
Theorem stack_init_layers (rng : Rng) (n D H hidden : nat) :
  (H <> 0 -> D mod H = 0 ->
   exists enc dec,
     Encoder.init rng n D H hidden = Ok enc /\
     Decoder.init rng n D H hidden = Ok dec /\
     length (Encoder.layers enc) = n /\ Encoder_wf D H enc /\
     length (Decoder.self_layers dec) = n /\
     length (Decoder.cross_layers dec) = n /\
     length (Decoder.ffns dec) = n /\ Decoder_wf D H dec) /\
  (n = 0 ->
   Encoder.init rng n D H hidden = Ok (Encoder.mk []) /\
   Decoder.init rng n D H hidden = Ok (Decoder.mk [] [] [])) /\
  (n <> 0 -> H <> 0 -> D mod H <> 0 ->
   Encoder.init rng n D H hidden = Err AssertionError /\
   Decoder.init rng n D H hidden = Err AssertionError).
Proof.
  split; [|split].
  - intros HH Hm.
    destruct (SelfAttention_init_wf rng D H HH Hm) as (sa & Es & Ws).
    destruct (CrossAttention_init_wf rng D H HH Hm) as (ca & Ec & Wc).
    unfold Encoder.init, Decoder.init, replicateM. rewrite Es, Ec.
    cbn [bind]. rewrite !mapM_const_ok. cbn [bind].
    eexists; eexists. split; [reflexivity|]. split; [reflexivity|].
    unfold Encoder_wf, Decoder_wf. simpl.
    rewrite !length_map, !length_seq. repeat split.
    + apply Forall_map_const. split; [exact Ws|apply FeedForward_init_wf].
    + now apply Forall_map_const.
    + now apply Forall_map_const.
    + apply Forall_map_const. apply FeedForward_init_wf.
  - intros ->. split; reflexivity.
  - intros Hn HH Hm. destruct n as [|n]; [contradiction|].
    unfold Encoder.init, Decoder.init, replicateM.
    rewrite (SelfAttention_init_assert rng D H HH Hm). split; reflexivity.
Qed.

Lemma Encoder_forward_app (l1 l2 : list (SelfAttention.t * FeedForward.t))
  (x : Tensor) :
  Encoder.forward (Encoder.mk (l1 ++ l2)) x =
    (y <- Encoder.forward (Encoder.mk l1) x ;;
     Encoder.forward (Encoder.mk l2) y).
Proof. unfold Encoder.forward. simpl. apply foldM_app. Qed.

(** X7: an encoder stack of any depth keeps the shape (B, L, D) of its
    input; a stack without layers returns its input, and the stack of two
    lists of layers is the second stack applied to the result of the
    first. *)
Theorem Encoder_stack (D H : nat) (enc : Encoder.t) (x : Tensor) (B L : nat) :
  H <> 0 -> D mod H = 0 -> Encoder_wf D H enc -> shape x = [B; L; D] ->
  (exists y, Encoder.forward enc x = Ok y /\ shape y = [B; L; D]) /\
  Encoder.forward (Encoder.mk []) x = Ok x /\
  (forall l1 l2, Encoder.layers enc = l1 ++ l2 ->
     exists mid y,
       Encoder.forward (Encoder.mk l1) x = Ok mid /\ shape mid = [B; L; D] /\
       Encoder.forward (Encoder.mk l2) mid = Ok y /\
       Encoder.forward enc x = Ok y).
Proof.
  intros HH Hm Hwf Hx. split; [|split].
  - exact (Encoder_forward_ok D H enc x B L HH Hm Hwf Hx).
  - reflexivity.
  - intros l1 l2 Hl. unfold Encoder_wf in Hwf. rewrite Hl in Hwf.
    apply Forall_app in Hwf as (H1 & H2).
    destruct (Encoder_forward_ok D H (Encoder.mk l1) x B L HH Hm H1 Hx)
      as (mid & Em & Sm).
    destruct (Encoder_forward_ok D H (Encoder.mk l2) mid B L HH Hm H2 Sm)
      as (y & Ey & Sy).
    exists mid, y. repeat split; auto.
    destruct enc as [ls]. simpl in Hl. subst ls.
    rewrite Encoder_forward_app, Em. exact Ey.
Qed.

Lemma Encoder_stack_witness :
  exists y,
    Encoder.forward
      (Encoder.mk [(example_sa, FeedForward.init (fun _ _ => 0%R) 4 8);
                   (example_sa, FeedForward.init (fun _ _ => 0%R) 4 8)])
      (ramp [1; 3; 4]) = Ok y /\
    shape y = [1; 3; 4].
Proof.
  refine (proj1 (Encoder_stack 4 2 _ (ramp [1; 3; 4]) 1 3 ltac:(lia) eq_refl
                   _ eq_refl)).
  unfold Encoder_wf. simpl.
  repeat apply Forall_cons; try apply Forall_nil;
    (split; [exact example_sa_wf|apply FeedForward_init_wf]).
Defined.

Lemma combine_firstn_ge {A B : Type} (l1 : list A) (l2 : list B) :
  forall n, Nat.min (length l1) (length l2) <= n ->
            combine (firstn n l1) (firstn n l2) = combine l1 l2.
Proof.
  revert l2. induction l1 as [|a l1 IH]; intros [|b l2] n Hn; simpl in *.
  - now rewrite !firstn_nil.
  - rewrite firstn_nil. reflexivity.
  - destruct n; reflexivity.
  - destruct n as [|n]; [lia|]. simpl. f_equal. apply IH. lia.
Qed.

(** X8: the decoder runs its three lists of blocks zipped: with lists of
    unequal lengths only the first n blocks of each are used, n being the
    shortest length, and a decoder with one empty list returns its target
    unchanged. *)
Theorem Decoder_zip_truncates (dec : Decoder.t) (tgt enc_out : Tensor) :
  let n := Nat.min (Nat.min (length (Decoder.self_layers dec))
                            (length (Decoder.cross_layers dec)))
                   (length (Decoder.ffns dec)) in
  Decoder.forward dec tgt enc_out =
    Decoder.forward
      (Decoder.mk (firstn n (Decoder.self_layers dec))
                  (firstn n (Decoder.cross_layers dec))
                  (firstn n (Decoder.ffns dec))) tgt enc_out /\
  (n = 0 -> Decoder.forward dec tgt enc_out = Ok tgt).
Proof.
  intros n.
  assert (E : combine (combine (firstn n (Decoder.self_layers dec))
                               (firstn n (Decoder.cross_layers dec)))
                      (firstn n (Decoder.ffns dec)) =
              combine (combine (Decoder.self_layers dec)
                               (Decoder.cross_layers dec))
                      (Decoder.ffns dec)).
  { rewrite <- combine_firstn. apply combine_firstn_ge.
    rewrite length_combine. unfold n. lia. }
  split.
  - unfold Decoder.forward. simpl. now rewrite E.
  - intros Hn. unfold Decoder.forward. rewrite <- E, Hn. reflexivity.
Qed.

(** X9: a well-formed decoder maps a target of shape (B, T, D) and a
    memory of shape (B, S, D) to a tensor of the target's shape, for every
    memory length S and every depth. *)
Theorem Decoder_keeps_target_shape (D H : nat) (dec : Decoder.t)
  (tgt enc_out : Tensor) (B T Sm : nat) :
  H <> 0 -> D mod H = 0 -> Decoder_wf D H dec ->
  shape tgt = [B; T; D] -> shape enc_out = [B; Sm; D] ->
  exists y, Decoder.forward dec tgt enc_out = Ok y /\ shape y = shape tgt.
Proof.
  intros HH Hm Hwf Ht He.
  destruct (Decoder_forward_ok D H dec tgt enc_out B T Sm HH Hm Hwf Ht He)
    as (y & Ey & Sy).
  exists y. split; congruence.
Qed.

Lemma Decoder_keeps_target_shape_witness :
  exists y,
    Decoder.forward
      (Decoder.mk [example_sa] [example_ca]
                  [FeedForward.init (fun _ _ => 0%R) 4 8])
      (ramp [1; 3; 4]) (ramp [1; 7; 4]) = Ok y /\
    shape y = [1; 3; 4].
Proof.
  refine (Decoder_keeps_target_shape 4 2 _ (ramp [1; 3; 4]) (ramp [1; 7; 4])
            1 3 7 ltac:(lia) eq_refl _ eq_refl eq_refl).
  unfold Decoder_wf. simpl. split; [|split]; apply Forall_cons;
    try apply Forall_nil.
  - exact example_sa_wf.
  - exact example_ca_wf.
  - apply FeedForward_init_wf.
Defined.

(** ** The regression head for any hidden widths (lines 96-106) *)

Lemma build_length (rng : Rng) (hs : list nat) :
  forall d, length (RULHead.build rng d hs) = 2 * length hs + 1.
Proof.
  induction hs as [|h hs IH]; intros d; simpl; [reflexivity|].
  rewrite IH. lia.
Qed.

(** X10: for every list of hidden widths, the empty list included, the
    head built by the constructor has one linear layer per hidden width
    followed by a last linear layer of width 1, with a GELU after each
    hidden layer, and it maps a decoder output of shape (B, T, d_model)
    with T >= 1 to a tensor of shape (B). *)
Theorem RULHead_init_any_widths (rng : Rng) (d : nat) (hs : list nat)
  (x : Tensor) (B T : nat) :
  shape x = [B; T; d] -> 1 <= T ->
  widths (RULHead.net (RULHead.init rng d hs)) = hs ++ [1] /\
  length (RULHead.net (RULHead.init rng d hs)) = 2 * length hs + 1 /\
  exists out, RULHead.forward (RULHead.init rng d hs) x = Ok out /\
              shape out = [B].
Proof.
  intros Hx HT. split; [apply widths_build|]. split; [apply build_length|].
  destruct (RULHead_forward_ok d (RULHead.init rng d hs) x B T
              (build_wf rng hs d) Hx HT) as (v & y & _ & _ & _ & Ef & Sf).
  eexists. split; [exact Ef|exact Sf].
Qed.

Lemma RULHead_init_any_widths_witness :
  widths (RULHead.net (RULHead.init (fun _ _ => 0%R) 4 [])) = [1] /\
  exists out, RULHead.forward (RULHead.init (fun _ _ => 0%R) 4 [])
                (ramp [2; 3; 4]) = Ok out /\
              shape out = [2].
Proof.
  destruct (RULHead_init_any_widths (fun _ _ => 0%R) 4 [] (ramp [2; 3; 4]) 2 3
              eq_refl ltac:(lia)) as (Hw & _ & Ho).
  split; [exact Hw|exact Ho].
Defined.

(** ** The positional bias (lines 22-30) *)

(** X11: on a positive even width the bias the encoder adds depends
    neither on the input nor on the batch element, lies in [-1, 1], and
    at time index 0 is 0 on the even features and 1 on the odd ones. *)
Theorem positional_bias (x x' : Tensor) (B B' L D : nat) :
  shape x = [B; L; D] -> shape x' = [B'; L; D] ->
  D <> 0 -> Nat.even D = true ->
  exists y y',
    add_positional_encoding x = Ok y /\ add_positional_encoding x' = Ok y' /\
    forall b b' p c, b < B -> b' < B' -> p < L -> c < D ->
      (get y [b; p; c] - get x [b; p; c] =
       get y' [b'; p; c] - get x' [b'; p; c])%R /\
      (-1 <= get y [b; p; c] - get x [b; p; c] <= 1)%R /\
      (p = 0 ->
       (get y [b; p; c] - get x [b; p; c])%R =
         if Nat.even c then 0%R else 1%R).
Proof.
  intros Hx Hx' HD Hev.
  destruct (add_positional_encoding_even x B L D Hx HD Hev) as (y & Ey & _ & Gy).
  destruct (add_positional_encoding_even x' B' L D Hx' HD Hev)
    as (y' & Ey' & _ & Gy').
  exists y, y'. split; [exact Ey|]. split; [exact Ey'|].
  intros b b' p c Hb Hb' Hp Hc.
  destruct (Gy b p (c / 2) Hb Hp) as (Ge & Go).
  destruct (Gy' b' p (c / 2) Hb' Hp) as (Ge' & Go').
  destruct (Nat.Even_or_Odd c) as [(i & Hi)|(i & Hi)].
  - assert (Hc2 : 2 * (c / 2) = c).
    { subst c. now rewrite (Nat.mul_comm 2 i), Nat.div_mul, Nat.mul_comm by lia. }
    rewrite Hc2 in Ge, Ge'. rewrite (Ge Hc), (Ge' Hc).
    assert (Hevc : Nat.even c = true) by (apply Nat.even_spec; now exists i).
    rewrite Hevc.
    pose proof (SIN_bound (INR p / Rpower 10000 (INR c / INR D))).
    repeat split; try lra.
    intros ->. simpl. unfold Rdiv at 1. rewrite Rmult_0_l, sin_0. lra.
  - assert (Hc2 : 2 * (c / 2) + 1 = c).
    { subst c. replace (2 * i + 1) with (1 + i * 2) by lia.
      rewrite Nat.div_add by lia. simpl. lia. }
    assert (Hlt : 2 * (c / 2) + 1 < D) by lia.
    specialize (Go Hlt). specialize (Go' Hlt). rewrite Hc2 in Go, Go'.
    rewrite Go, Go'.
    assert (Hoc : Nat.even c = false).
    { rewrite <- Nat.negb_odd.
      assert (Nat.odd c = true) by (apply Nat.odd_spec; now exists i).
      now rewrite H. }
    rewrite Hoc.
    pose proof (COS_bound (INR p / Rpower 10000 (INR (2 * (c / 2)) / INR D))).
    repeat split; try lra.
    intros ->. simpl INR at 1. unfold Rdiv at 1. rewrite Rmult_0_l, cos_0. lra.
Qed.

Lemma positional_bias_witness :
  exists y y',
    add_positional_encoding (ramp [1; 3; 4]) = Ok y /\
    add_positional_encoding (zeros [2; 3; 4]) = Ok y' /\
    Rminus (get y [0; 2; 1]) (get (ramp [1; 3; 4]) [0; 2; 1]) =
    Rminus (get y' [1; 2; 1]) (get (zeros [2; 3; 4]) [1; 2; 1]).
Proof.
  destruct (positional_bias (ramp [1; 3; 4]) (zeros [2; 3; 4]) 1 2 3 4
              eq_refl eq_refl ltac:(lia) eq_refl) as (y & y' & Ey & Ey' & G).
  exists y, y'. split; [exact Ey|]. split; [exact Ey'|].
  exact (proj1 (G 0 1 2 1 ltac:(lia) ltac:(lia) ltac:(lia) ltac:(lia))).
Defined.

(** ** Failures while loading (lines 114-121) *)

Lemma dict_get_missing (d : list (string * string)) (k : string) :
  (forall v, ~ In (k, v) d) -> dict_get d k = Err (KeyError k).
Proof.
  induction d as [|(k' & v) d IH]; intros H; simpl; [reflexivity|].
  destruct (String.eqb_spec k' k) as [->|Hne].
  - exfalso. apply (H v). now left.
  - apply IH. intros v' Hin. apply (H v'). now right.
Qed.

(** X12: when feature_dim is a multiple of 4, a [model_paths] without the
    key "encoder" ends the call with KeyError "encoder", and an encoder
    path that names no file ends it with a FileNotFoundError naming that
    path; both happen before any table is read, whatever the tables
    are. *)
Theorem encoder_weights_missing (w : World) (mp : list (string * string))
  (dd out : string) (D ws : nat) :
  D mod 4 = 0 ->
  ((forall v, ~ In ("encoder"%string, v) mp) ->
   infer_rul_without_gt w mp dd out D ws = Err (KeyError "encoder")) /\
  (forall file, dict_get mp "encoder" = Ok file -> torch_files w file = None ->
   infer_rul_without_gt w mp dd out D ws = Err (FileNotFoundError [file])).
Proof.
  intros Hm.
  destruct (proj1 (Encoder_init_spec (set_seed w 42) D) Hm) as (enc0 & Ee & _).
  destruct (Decoder_init_spec (set_seed w 42) D Hm) as (dec0 & Ed & _).
  split.
  - intros Hk. unfold infer_rul_without_gt, load_models.
    rewrite Ee, Ed. cbn [bind]. now rewrite (dict_get_missing mp _ Hk).
  - intros file Hf Hn. unfold infer_rul_without_gt, load_models.
    rewrite Ee, Ed. cbn [bind]. rewrite Hf. cbn [bind].
    unfold torch_load. now rewrite Hn.
Qed.

Lemma encoder_weights_missing_witness :
  infer_rul_without_gt (example_world (Some "data"%string) 0)
    [("encoder", "nowhere.pth")]%string "train" "out.csv" 4 21 =
    Err (FileNotFoundError ["nowhere.pth"%string]) /\
  infer_rul_without_gt (example_world (Some "data"%string) 0)
    [("decoder", "decoder.pth")]%string "train" "out.csv" 4 21 =
    Err (KeyError "encoder").
Proof.
  split.
  - exact (proj2 (encoder_weights_missing (example_world (Some "data"%string) 0)
                    [("encoder", "nowhere.pth")]%string "train"%string
                    "out.csv"%string 4 21 eq_refl)
                 "nowhere.pth"%string eq_refl eq_refl).
  - apply (proj1 (encoder_weights_missing (example_world (Some "data"%string) 0)
                    [("decoder", "decoder.pth")]%string "train"%string
                    "out.csv"%string 4 21 eq_refl)).
    intros v [Hin|[]]. discriminate Hin.
Defined.

(** ** Failures inside the loop (lines 136-161) *)

(** A session that fails on the loaded models ends the run with its
    error, whatever the sessions before it appended. *)
Lemma run_aborts_at (w : World) (mp : list (string * string))
  (dd out : string) (D ws : nat) (st0 st1 : Locals)
  (pre post : list (string * string)) (entry : string * string) (err : exn) :
  load_models w mp D = Ok st0 ->
  best_matches = pre ++ entry :: post ->
  foldM (session w dd D ws) pre st0 = Ok st1 ->
  (forall st, encoder st = encoder st0 -> decoder st = decoder st0 ->
              rul_head st = rul_head st0 ->
              session w dd D ws entry st = Err err) ->
  session w dd D ws entry st1 = Err err /\
  infer_rul_without_gt w mp dd out D ws = Err err.
Proof.
  intros El Hb Hpre Hs.
  destruct (sessions_frame w dd D ws pre st0 st1 Hpre) as (E1 & E2 & E3).
  pose proof (Hs st1 E1 E2 E3) as He. split; [exact He|].
  exact (session_error_aborts_run w mp dd out D ws st0 st1 pre post entry err
           El Hb Hpre He).
Qed.

(** X13: a missing table ends the whole run, also after earlier sessions
    returned: a missing validation table with a FileNotFoundError naming
    base_dir/validation/feature/<name>.csv, a missing training table with
    one naming data_dir/<train file>.  No result is returned for the
    sessions already processed. *)
Theorem missing_table_aborts_run (w : World) (mp : list (string * string))
  (dd out base : string) (D ws : nat) (st0 st1 : Locals)
  (pre post : list (string * string)) (val_name train_file : string) :
  load_models w mp D = Ok st0 ->
  base_dir w = Some base ->
  best_matches = pre ++ (val_name, train_file) :: post ->
  foldM (session w dd D ws) pre st0 = Ok st1 ->
  (csv_files w [base; "validation"; "feature"; val_name ++ ".csv"]%string = None ->
   infer_rul_without_gt w mp dd out D ws =
     Err (FileNotFoundError
            [base; "validation"; "feature"; val_name ++ ".csv"]%string)) /\
  (forall val_df,
     csv_files w [base; "validation"; "feature"; val_name ++ ".csv"]%string
       = Some val_df ->
     csv_files w [dd; train_file] = None ->
     infer_rul_without_gt w mp dd out D ws =
       Err (FileNotFoundError [dd; train_file])).
Proof.
  intros El Hb Hbm Hpre. split.
  - intros Hv.
    apply (session_error_aborts_run w mp dd out D ws st0 st1 pre post
             (val_name, train_file) _ El Hbm Hpre).
    exact (proj1 (session_paths w dd base D ws val_name train_file st1 Hb) Hv).
  - intros val_df Hv Ht.
    apply (session_error_aborts_run w mp dd out D ws st0 st1 pre post
             (val_name, train_file) _ El Hbm Hpre).
    exact (proj2 (session_paths w dd base D ws val_name train_file st1 Hb)
             val_df Hv Ht).
Qed.

Lemma example_tables_load (tables : path -> option DataFrame) :
  exists st0,
    load_models (example_world_tables tables) example_paths 4 = Ok st0 /\
    RULHead.net (rul_head st0) =
      [NLinear (const_linear 4 128 0); NGELU;
       NLinear (const_linear 128 64 0); NGELU;
       NLinear (const_linear 64 1 0)].
Proof. eexists. split; reflexivity. Qed.

(** The files of a session when every table it reads is the zero table
    of 30 rows and 4 columns. *)
Lemma zero_tables_files (tables : path -> option DataFrame)
  (entry : string * string) :
  tables ["data"; "validation"; "feature"; fst entry ++ ".csv"]%string
    = Some (zero_df 30 4) ->
  tables ["train"; snd entry]%string = Some (zero_df 30 4) ->
  Session_files (example_world_tables tables) "train" 4 entry.
Proof.
  intros Hv Ht. exists "data"%string, (zero_df 30 4), (zero_df 30 4).
  split; [reflexivity|]. split; [exact Hv|]. split; [exact Ht|].
  split; [simpl; lia|]. split; [simpl; lia|]. split; discriminate.
Qed.

(** The sessions of an example world return on well-formed tables. *)
Lemma example_tables_sessions_ok (tables : path -> option DataFrame)
  (ws : nat) (entries : list (string * string)) (st0 : Locals) :
  load_models (example_world_tables tables) example_paths 4 = Ok st0 ->
  Forall (Session_files (example_world_tables tables) "train" 4) entries ->
  exists st1 rows,
    foldM (session (example_world_tables tables) "train" 4 ws) entries st0
      = Ok st1 /\
    results st1 = results st0 ++ rows /\
    map Validation rows = map fst entries /\
    map Best_Train rows = map snd entries /\
    Forall (fun r => Pred_RUL r = 0%R) rows.
Proof.
  intros El Hall.
  destruct (example_tables_load tables) as (st0' & El' & Hn).
  assert (st0' = st0) as -> by congruence.
  destruct (load_models_wf _ _ _ _ El) as (Hm & He & Hd & Hh & _).
  pose proof Rpower_100_0_in_range as Hb.
  destruct (sessions_ok _ "train"%string 4 ws entries st0 ltac:(lia) Hm Hall
              He Hd Hh) as (st1 & rows & Ef & E4 & E5 & E6 & E7).
  { intros dout y s Ef Ei.
    rewrite (example_head_scalar _ 0 _ _ _ Hn Ef Ei).
    eexists. apply exact_inverse_transform. exact Hb. }
  exists st1, rows. repeat split; try assumption.
  eapply Forall_impl; [|exact E7].
  intros r (dout & y & s & Ef' & Ei & Er).
  rewrite (example_head_scalar _ 0 _ _ _ Hn Ef' Ei) in Er.
  change (float64 (example_world_tables tables)) with exact_float64 in Er.
  rewrite (exact_inverse_transform 0 Hb) in Er. injection Er as <-.
  rewrite Rpower_O by lra. lra.
Qed.

Lemma missing_table_aborts_run_witness :
  infer_rul_without_gt
    (example_world_tables
       (tables_without ["data"; "validation"; "feature"; "validation3.csv"]%string))
    example_paths "train" "out.csv" 4 21 =
  Err (FileNotFoundError
         ["data"; "validation"; "feature"; "validation3.csv"]%string).
Proof.
  destruct (example_tables_load
              (tables_without
                 ["data"; "validation"; "feature"; "validation3.csv"]%string))
    as (st0 & El & _).
  destruct (example_tables_sessions_ok
              (tables_without
                 ["data"; "validation"; "feature"; "validation3.csv"]%string)
              21
              [("validation1", "train3.csv"); ("validation2", "train5.csv")]%string
              st0 El) as (st1 & _ & Hpre & _).
  { repeat apply Forall_cons; try apply Forall_nil;
      apply zero_tables_files; reflexivity. }
  exact (proj1 (missing_table_aborts_run _ _ "train"%string "out.csv"%string
                  "data"%string 4 21 st0 st1
                  [("validation1", "train3.csv"); ("validation2", "train5.csv")]%string
                  [("validation4", "train5.csv"); ("validation5", "train7.csv");
                   ("validation6", "train5.csv")]%string
                  "validation3"%string "train5.csv"%string
                  El eq_refl eq_refl Hpre) eq_refl).
Defined.

(** A session whose validation table gives an [object] array raises the
    TypeError of [torch.tensor], at line 143 when the training table
    gives one too and at line 146 otherwise. *)
Lemma session_object_validation (w : World) (dd base : string) (D ws : nat)
  (val_name train_file : string) (val_df train_df : DataFrame) (st : Locals) :
  D <> 0 -> Nat.even D = true ->
  base_dir w = Some base ->
  csv_files w [base; "validation"; "feature"; val_name ++ ".csv"]%string
    = Some val_df ->
  csv_files w [dd; train_file] = Some train_df ->
  D <= ncols train_df -> values_dtype val_df = Object ->
  session w dd D ws (val_name, train_file) st = Err TypeError.
Proof.
  intros HD Hev Hb Hv Ht Hct Hobj.
  unfold session, session_scalar, global_base_dir, read_csv.
  rewrite Hb. cbn [bind]. rewrite Hv, Ht. cbn [bind].
  destruct (cols_prefix_values D train_df Hct) as (tt & -> & Stt). cbn [bind].
  destruct (values_dtype train_df) eqn:Edt; cbn [torch_tensor bind];
    try reflexivity;
    (destruct (add_positional_encoding_even (unsqueeze0 tt) 1 (nrows train_df) D)
       as (tp & -> & _); [simpl; now rewrite Stt|assumption|assumption|];
     cbn [bind];
     unfold cols_prefix, values; cbn [shape bind];
     rewrite Hobj; reflexivity).
Qed.

(** X14: a validation table without data rows, or with a column that is
    not numeric, never reaches the model: [torch.tensor] cannot convert
    the [object] array of its values, and the whole run ends with that
    TypeError, also after earlier sessions returned. *)
Theorem object_validation_table_aborts_run (w : World)
  (mp : list (string * string)) (dd out base : string) (D ws : nat)
  (st0 st1 : Locals) (pre post : list (string * string))
  (val_name train_file : string) (val_df train_df : DataFrame) :
  load_models w mp D = Ok st0 -> D <> 0 ->
  base_dir w = Some base ->
  best_matches = pre ++ (val_name, train_file) :: post ->
  foldM (session w dd D ws) pre st0 = Ok st1 ->
  csv_files w [base; "validation"; "feature"; val_name ++ ".csv"]%string
    = Some val_df ->
  csv_files w [dd; train_file] = Some train_df ->
  D <= ncols train_df ->
  nrows val_df = 0 \/ values_dtype val_df = Object ->
  values_dtype val_df = Object /\
  session w dd D ws (val_name, train_file) st1 = Err TypeError /\
  infer_rul_without_gt w mp dd out D ws = Err TypeError.
Proof.
  intros El HD Hb Hbm Hpre Hv Ht Hct Hrows.
  destruct (load_models_wf w mp D st0 El) as (Hm & _).
  assert (Hobj : values_dtype val_df = Object).
  { destruct Hrows as [H0|H]; [|exact H]. unfold values_dtype. now rewrite H0. }
  split; [exact Hobj|].
  eapply run_aborts_at; eauto.
  intros st _ _ _.
  eapply session_object_validation; eauto using mod4_even.
Qed.

Lemma object_validation_table_aborts_run_witness :
  infer_rul_without_gt
    (example_world_tables
       (tables_with ["data"; "validation"; "feature"; "validation2.csv"]%string
                    (zero_df 0 4)))
    example_paths "train" "out.csv" 4 21 = Err TypeError.
Proof.
  destruct (example_tables_load
              (tables_with
                 ["data"; "validation"; "feature"; "validation2.csv"]%string
                 (zero_df 0 4))) as (st0 & El & _).
  destruct (example_tables_sessions_ok
              (tables_with
                 ["data"; "validation"; "feature"; "validation2.csv"]%string
                 (zero_df 0 4))
              21 [("validation1", "train3.csv")]%string st0 El)
    as (st1 & _ & Hpre & _).
  { repeat apply Forall_cons; try apply Forall_nil;
      apply zero_tables_files; reflexivity. }
  exact (proj2 (proj2
           (object_validation_table_aborts_run _ _ "train"%string
              "out.csv"%string "data"%string 4 21 st0 st1
              [("validation1", "train3.csv")]%string
              [("validation3", "train5.csv"); ("validation4", "train5.csv");
               ("validation5", "train7.csv"); ("validation6", "train5.csv")]%string
              "validation2"%string "train5.csv"%string (zero_df 0 4)
              (zero_df 30 4) El ltac:(lia) eq_refl eq_refl Hpre eq_refl eq_refl
              ltac:(simpl; lia) (or_introl eq_refl)))).
Defined.

(** ** The window size 0 (line 147) *)

Lemma last_rows_zero_eq (w n : nat) (s' : list nat) (t : Tensor) :
  shape t = n :: s' -> n <= w -> last_rows 0 t = last_rows w t.
Proof.
  intros H Hw. unfold last_rows. rewrite H.
  destruct (Nat.eqb_spec w 0) as [->|Hne]; [reflexivity|].
  cbn [Nat.eqb]. replace (n - w) with 0 by lia. reflexivity.
Qed.

Lemma foldM_ext {A S : Type} (f g : A -> S -> result S) (xs : list A) :
  (forall x s, f x s = g x s) -> forall s, foldM f xs s = foldM g xs s.
Proof.
  intros H. induction xs as [|x xs IH]; intros s; simpl; [reflexivity|].
  rewrite H. destruct (g x s); simpl; auto.
Qed.

(** X15: a window size of 0 does not select an empty window: [-0] is
    [0], so the whole validation table is decoded, and the run equals the
    run with any window at least as long as every table. *)
Theorem window_zero_is_whole_table (w : World) (mp : list (string * string))
  (dd out : string) (D wsz : nat) :
  (forall p df, csv_files w p = Some df -> nrows df <= wsz) ->
  infer_rul_without_gt w mp dd out D 0 =
  infer_rul_without_gt w mp dd out D wsz.
Proof.
  intros Hrows. unfold infer_rul_without_gt.
  destruct (load_models w mp D) as [st0|e]; [cbn [bind]|reflexivity].
  rewrite (foldM_ext (session w dd D 0) (session w dd D wsz)); [reflexivity|].
  intros (val_name & train_file) st. unfold session.
  replace (session_scalar w dd D 0 (val_name, train_file) st)
    with (session_scalar w dd D wsz (val_name, train_file) st); [reflexivity|].
  unfold session_scalar.
  destruct (global_base_dir w) as [base|e]; [cbn [bind]|reflexivity].
  unfold read_csv at 1 3.
  destruct (csv_files w [base; "validation"; "feature"; val_name ++ ".csv"]%string)
    as [val_df|] eqn:Ev; [cbn [bind]|reflexivity].
  destruct (read_csv w [dd; train_file]) as [train_df|e];
    [cbn [bind]|reflexivity].
  destruct (cols_prefix D (values train_df)) as [tt|e]; [cbn [bind]|reflexivity].
  destruct (torch_tensor (values_dtype train_df) tt) as [tt'|e];
    [cbn [bind]|reflexivity].
  destruct (add_positional_encoding (unsqueeze0 tt')) as [tp|e];
    [cbn [bind]|reflexivity].
  unfold cols_prefix at 1 2, values. cbn [shape bind].
  destruct (values_dtype val_df); cbn [torch_tensor bind]; try reflexivity;
    (rewrite (last_rows_zero_eq wsz (nrows val_df) [Nat.min D (ncols val_df)]);
     [reflexivity|reflexivity|eauto]).
Qed.

Lemma window_zero_is_whole_table_witness :
  infer_rul_without_gt (example_world (Some "data"%string) 0) example_paths
    "train" "out.csv" 4 0 =
  infer_rul_without_gt (example_world (Some "data"%string) 0) example_paths
    "train" "out.csv" 4 30.
Proof.
  apply window_zero_is_whole_table.
  intros p df. simpl. destruct (path_eqb p _); intros [= <-]; simpl; lia.
Defined.

(** ** What a successful run returns (lines 134-166) *)

Lemma session_appends (w : World) (dd : string) (D ws : nat)
  (entry : string * string) (st st' : Locals) :
  session w dd D ws entry st = Ok st' ->
  exists r, Validation r = fst entry /\ Best_Train r = snd entry /\
            results st' = results st ++ [r] /\
            stdout st' = stdout st ++ [print_of_row r].
Proof.
  unfold session. intros E.
  destruct (session_scalar w dd D ws entry st) as [s|]; [|discriminate].
  cbn [bind] in E.
  destruct (inverse_transform (float64 w) s) as [r|]; [|discriminate].
  cbn [bind] in E. injection E as <-. simpl.
  eexists (mkRow (fst entry) (snd entry) r). repeat split.
Qed.

Lemma sessions_append (w : World) (dd : string) (D ws : nat)
  (entries : list (string * string)) :
  forall st st',
    foldM (session w dd D ws) entries st = Ok st' ->
    exists rows,
      map Validation rows = map fst entries /\
      map Best_Train rows = map snd entries /\
      results st' = results st ++ rows /\
      stdout st' = stdout st ++ map print_of_row rows.
Proof.
  induction entries as [|e es IH]; intros st st' E; simpl in E.
  - injection E as <-. exists []. simpl. rewrite !app_nil_r. repeat split.
  - bind_inv E. apply session_appends in E0 as (r & Hv & Ht & Hr & Hs).
    apply IH in E as (rows & Ev & Et & Er & Es).
    exists (r :: rows). simpl.
    rewrite Hv, Ht, Ev, Et, Er, Es, Hr, Hs, <- !app_assoc. repeat split.
Qed.

(** X16: every successful run returns exactly one row per entry of the
    match table, in its order and with its training file; the rows written
    to output_csv_path are the rows returned, and the lines printed are
    those rows' values followed by the line naming the saved file. *)
Theorem successful_run_output (w : World) (mp : list (string * string))
  (dd out : string) (D ws : nat) (o : Output) :
  infer_rul_without_gt w mp dd out D ws = Ok o ->
  map Validation (results_df o) = map fst best_matches /\
  map Best_Train (results_df o) = map snd best_matches /\
  length (results_df o) = 6 /\
  written o = (out, results_df o) /\
  printed o = map print_of_row (results_df o) ++ [PrintSaved out].
Proof.
  unfold infer_rul_without_gt. intros E. bind_inv E. bind_inv E.
  destruct (can_write w out); [|discriminate]. injection E as <-.
  destruct (load_models_wf w mp D a E0) as (_ & _ & _ & _ & Hr & Hs).
  apply sessions_append in E1 as (rows & Ev & Et & Er & Es).
  rewrite Hr in Er. rewrite Hs in Es. simpl in Er, Es. simpl.
  rewrite Er, Es. repeat split; try assumption.
  rewrite <- (length_map Validation), Ev. reflexivity.
Qed.

Lemma successful_run_output_witness :
  exists o,
    infer_rul_without_gt (example_world (Some "data"%string) 0) example_paths
      "train" "out.csv" 4 21 = Ok o /\
    written o = ("out.csv"%string, results_df o) /\
    printed o = map print_of_row (results_df o) ++ [PrintSaved "out.csv"].
Proof.
  destruct (example_infer_ok 0 21 Rpower_100_0_in_range) as (o & Eo & _).
  exists o. split; [exact Eo|].
  destruct (successful_run_output _ _ _ _ _ _ o Eo) as (_ & _ & _ & Hw & Hp).
  split; assumption.
Defined.

(** ** Random initialisation and loading (lines 111-121) *)

Lemma Linear_load_arch (a b new : Linear) :
  Linear_arch a = Linear_arch b -> Linear_load a new = Linear_load b new.
Proof.
  unfold Linear_arch, Linear_load. intros [= Hw Hb]. now rewrite Hw, Hb.
Qed.

Lemma SelfAttention_load_arch (a b : SelfAttention.t)
  (sd : SelfAttention.state_dict) :
  SelfAttention_arch a = SelfAttention_arch b ->
  SelfAttention.load_state_dict a sd = SelfAttention.load_state_dict b sd.
Proof.
  unfold SelfAttention_arch, SelfAttention.load_state_dict. intros H.
  assert (Hh : SelfAttention.h a = SelfAttention.h b) by congruence.
  assert (Hdk : SelfAttention.dk a = SelfAttention.dk b) by congruence.
  assert (Hq : Linear_arch (SelfAttention.qkv a) =
               Linear_arch (SelfAttention.qkv b)) by congruence.
  assert (Ho : Linear_arch (SelfAttention.out a) =
               Linear_arch (SelfAttention.out b)) by congruence.
  rewrite (Linear_load_arch _ _ (fst sd) Hq), (Linear_load_arch _ _ (snd sd) Ho).
  now rewrite Hh, Hdk.
Qed.

Lemma CrossAttention_load_arch (a b : MultiHeadCrossAttention.t)
  (sd : MultiHeadCrossAttention.state_dict) :
  CrossAttention_arch a = CrossAttention_arch b ->
  MultiHeadCrossAttention.load_state_dict a sd =
  MultiHeadCrossAttention.load_state_dict b sd.
Proof.
  unfold CrossAttention_arch, MultiHeadCrossAttention.load_state_dict.
  intros H. destruct sd as ((sq & skv) & so).
  assert (Hh : MultiHeadCrossAttention.h a = MultiHeadCrossAttention.h b)
    by congruence.
  assert (Hdk : MultiHeadCrossAttention.dk a = MultiHeadCrossAttention.dk b)
    by congruence.
  assert (Hq : Linear_arch (MultiHeadCrossAttention.q a) =
               Linear_arch (MultiHeadCrossAttention.q b)) by congruence.
  assert (Hkv : Linear_arch (MultiHeadCrossAttention.kv a) =
                Linear_arch (MultiHeadCrossAttention.kv b)) by congruence.
  assert (Ho : Linear_arch (MultiHeadCrossAttention.out a) =
               Linear_arch (MultiHeadCrossAttention.out b)) by congruence.
  rewrite (Linear_load_arch _ _ sq Hq), (Linear_load_arch _ _ skv Hkv),
    (Linear_load_arch _ _ so Ho).
  now rewrite Hh, Hdk.
Qed.

Lemma Sequential_load_arch (n1 : list NetLayer) :
  forall n2 sd, Net_arch n1 = Net_arch n2 ->
                Sequential_load n1 sd = Sequential_load n2 sd.
Proof.
  induction n1 as [|a n1 IH]; intros [|b n2] sd H; try discriminate H.
  - reflexivity.
  - unfold Net_arch in H. cbn [map] in H.
    assert (Hrest : Net_arch n1 = Net_arch n2) by (unfold Net_arch; congruence).
    destruct a as [la|], b as [lb|]; try congruence.
    + destruct sd as [|new sd]; [reflexivity|]. simpl.
      assert (Hl : Linear_arch la = Linear_arch lb) by congruence.
      rewrite (Linear_load_arch la lb new Hl), (IH n2 sd Hrest). reflexivity.
    + assert (E : forall m, Sequential_load (NGELU :: m) sd =
                            (r <- Sequential_load m sd ;; Ok (NGELU :: r)))
        by (intros m; destruct sd; reflexivity).
      rewrite !E, (IH n2 sd Hrest). reflexivity.
Qed.

Lemma load_list_arch {M SD X : Type} (ld : M -> SD -> result M) (arch : M -> X)
  (ms : list M) :
  (forall a b sd, arch a = arch b -> ld a sd = ld b sd) ->
  forall ms' sds, map arch ms = map arch ms' ->
                  load_list ld ms sds = load_list ld ms' sds.
Proof.
  intros Hld. induction ms as [|a ms IH]; intros [|b ms'] sds H;
    try discriminate H; [reflexivity|].
  cbn [map] in H.
  assert (Hab : arch a = arch b) by congruence.
  assert (Hrest : map arch ms = map arch ms') by congruence.
  destruct sds as [|sd sds]; [reflexivity|]. simpl.
  now rewrite (Hld a b sd Hab), (IH ms' sds Hrest).
Qed.

Lemma Encoder_load_arch (a b : Encoder.t) (sd : Encoder.state_dict) :
  Encoder_arch a = Encoder_arch b ->
  Encoder.load_state_dict a sd = Encoder.load_state_dict b sd.
Proof.
  unfold Encoder_arch, Encoder.load_state_dict. intros H.
  erewrite (load_list_arch _ _ (Encoder.layers a) _ (Encoder.layers b) sd H).
  reflexivity.
  Unshelve.
  intros l l' s Hl. cbv beta.
  assert (Hsa : SelfAttention_arch (fst l) = SelfAttention_arch (fst l'))
    by congruence.
  assert (Hnet : Net_arch (FeedForward.net (snd l)) =
                 Net_arch (FeedForward.net (snd l'))) by congruence.
  now rewrite (SelfAttention_load_arch _ _ (fst s) Hsa),
    (Sequential_load_arch _ _ (snd s) Hnet).
Qed.

Lemma Decoder_load_arch (a b : Decoder.t) (sd : Decoder.state_dict) :
  Decoder_arch a = Decoder_arch b ->
  Decoder.load_state_dict a sd = Decoder.load_state_dict b sd.
Proof.
  unfold Decoder_arch, Decoder.load_state_dict. intros H.
  destruct sd as ((ss & cs) & fs).
  assert (Hs : map SelfAttention_arch (Decoder.self_layers a) =
               map SelfAttention_arch (Decoder.self_layers b)) by congruence.
  assert (Hc : map CrossAttention_arch (Decoder.cross_layers a) =
               map CrossAttention_arch (Decoder.cross_layers b)) by congruence.
  assert (Hf : map (fun ff => Net_arch (FeedForward.net ff)) (Decoder.ffns a) =
               map (fun ff => Net_arch (FeedForward.net ff)) (Decoder.ffns b))
    by congruence.
  rewrite (load_list_arch _ SelfAttention_arch _ SelfAttention_load_arch _ ss Hs).
  rewrite (load_list_arch _ CrossAttention_arch _ CrossAttention_load_arch _ cs Hc).
  erewrite (load_list_arch _ (fun ff => Net_arch (FeedForward.net ff))
              (Decoder.ffns a) _ (Decoder.ffns b) fs Hf).
  reflexivity.
  Unshelve.
  intros f f' s Hn. cbv beta.
  now rewrite (Sequential_load_arch _ _ s Hn).
Qed.

Lemma Encoder_init_arch (rng rng' : Rng) (n D H hidden : nat) :
  match Encoder.init rng n D H hidden, Encoder.init rng' n D H hidden with
  | Ok a, Ok b => Encoder_arch a = Encoder_arch b
  | Err e, Err e' => e = e'
  | _, _ => False
  end.
Proof.
  unfold Encoder.init, replicateM, SelfAttention.init.
  destruct (H =? 0); [destruct n; reflexivity|].
  destruct (D mod H =? 0); [|destruct n; reflexivity].
  cbn [bind]. rewrite !mapM_const_ok. cbn [bind].
  unfold Encoder_arch. cbn [Encoder.layers]. rewrite !map_map.
  apply map_ext. intros _. reflexivity.
Qed.

Lemma Decoder_init_arch (rng rng' : Rng) (n D H hidden : nat) :
  match Decoder.init rng n D H hidden, Decoder.init rng' n D H hidden with
  | Ok a, Ok b => Decoder_arch a = Decoder_arch b
  | Err e, Err e' => e = e'
  | _, _ => False
  end.
Proof.
  unfold Decoder.init, replicateM, SelfAttention.init,
    MultiHeadCrossAttention.init.
  destruct (H =? 0); [destruct n; reflexivity|].
  destruct (D mod H =? 0); [|destruct n; reflexivity].
  rewrite !mapM_const_ok. cbn [bind].
  unfold Decoder_arch.
  cbn [Decoder.self_layers Decoder.cross_layers Decoder.ffns].
  rewrite !map_map. reflexivity.
Qed.

(** X17: no value drawn by the constructors reaches the result:
    [load_state_dict] reads only the shapes of the parameters it
    replaces, so the loaded models, and with them the run, are the same
    for every random generator and seed. *)
Theorem random_initialisation_never_read (w : World) (rng' : nat -> Rng)
  (mp : list (string * string)) (dd out : string) (D ws : nat) :
  load_models (reseed w rng') mp D = load_models w mp D /\
  infer_rul_without_gt (reseed w rng') mp dd out D ws =
  infer_rul_without_gt w mp dd out D ws.
Proof.
  assert (Hl : load_models (reseed w rng') mp D = load_models w mp D).
  { unfold load_models, set_seed, torch_load, reseed.
    cbn [seeded_rng torch_files].
    pose proof (Encoder_init_arch (rng' 42) (seeded_rng w 42) 3 D 4 256) as HE.
    pose proof (Decoder_init_arch (rng' 42) (seeded_rng w 42) 3 D 4 256) as HD.
    destruct (Encoder.init (rng' 42) 3 D 4 256) as [e1|x1],
             (Encoder.init (seeded_rng w 42) 3 D 4 256) as [e0|x0];
      try contradiction; [|now rewrite HE].
    cbn [bind].
    destruct (Decoder.init (rng' 42) 3 D 4 256) as [d1|y1],
             (Decoder.init (seeded_rng w 42) 3 D 4 256) as [d0|y0];
      try contradiction; [|now rewrite HD].
    cbn [bind].
    destruct (dict_get mp "encoder") as [pe|e]; [cbn [bind]|reflexivity].
    destruct (torch_files w pe) as [ce|]; [cbn [bind]|reflexivity].
    assert (E1 : match ce with
                 | EncoderCk sd => Encoder.load_state_dict e1 sd
                 | _ => Err (LoadError "missing or unexpected keys")
                 end =
                 match ce with
                 | EncoderCk sd => Encoder.load_state_dict e0 sd
                 | _ => Err (LoadError "missing or unexpected keys")
                 end).
    { destruct ce; try reflexivity. now apply Encoder_load_arch. }
    rewrite E1. clear E1.
    match goal with
    | |- bind ?m _ = _ => destruct m as [enc|e]; [cbn [bind]|reflexivity]
    end.
    destruct (dict_get mp "decoder") as [pd|e]; [cbn [bind]|reflexivity].
    destruct (torch_files w pd) as [cd|]; [cbn [bind]|reflexivity].
    assert (E2 : match cd with
                 | DecoderCk sd => Decoder.load_state_dict d1 sd
                 | _ => Err (LoadError "missing or unexpected keys")
                 end =
                 match cd with
                 | DecoderCk sd => Decoder.load_state_dict d0 sd
                 | _ => Err (LoadError "missing or unexpected keys")
                 end).
    { destruct cd; try reflexivity. now apply Decoder_load_arch. }
    rewrite E2. clear E2.
    match goal with
    | |- bind ?m _ = _ => destruct m as [dec|e]; [cbn [bind]|reflexivity]
    end.
    destruct (dict_get mp "regressor") as [ph|e]; [cbn [bind]|reflexivity].
    destruct (torch_files w ph) as [ch|]; [cbn [bind]|reflexivity].
    destruct ch as [sd|sd|sd]; reflexivity. }
  split; [exact Hl|].
  unfold infer_rul_without_gt. rewrite Hl. reflexivity.
Qed.

(** ** Tables narrower than feature_dim (lines 143-152) *)

Lemma SelfAttention_wrong_width (D H : nat) (sa : SelfAttention.t)
  (x : Tensor) (B L D' : nat) :
  SelfAttention_wf D H sa -> shape x = [B; L; D'] -> D' <> D ->
  SelfAttention.forward sa x =
    Err (ShapeError "linear" [B; L; D'] [D * 3; D]).
Proof.
  intros (_ & _ & (Hqw & Hqb) & _) Hx Hne. unfold SelfAttention.forward.
  rewrite Hx. unfold linear. rewrite Hqw, Hx. simpl.
  destruct (Nat.eqb_spec D' D); [contradiction|]. reflexivity.
Qed.

Lemma mapM_length {A B : Type} (f : A -> result B) (xs : list A) :
  forall ys, mapM f xs = Ok ys -> length ys = length xs.
Proof.
  induction xs as [|x xs IH]; simpl; intros ys E.
  - now injection E as <-.
  - bind_inv E. bind_inv E. injection E as <-. simpl. f_equal. now apply IH.
Qed.

Lemma load_list_length {M SD : Type} (ld : M -> SD -> result M) (ms : list M) :
  forall sds r, load_list ld ms sds = Ok r -> length r = length ms.
Proof.
  induction ms as [|m ms IH]; intros [|sd sds] r E; simpl in E;
    try discriminate E.
  - now injection E as <-.
  - bind_inv E. bind_inv E. injection E as <-. simpl. f_equal. eapply IH; eauto.
Qed.

(** The loaded encoder has three layers and the loaded decoder three
    blocks of each kind. *)
Lemma load_models_depth (w : World) (mp : list (string * string)) (D : nat)
  (st : Locals) :
  load_models w mp D = Ok st ->
  length (Encoder.layers (encoder st)) = 3 /\
  length (Decoder.self_layers (decoder st)) = 3 /\
  length (Decoder.cross_layers (decoder st)) = 3 /\
  length (Decoder.ffns (decoder st)) = 3.
Proof.
  unfold load_models. intros E.
  destruct (Encoder.init (set_seed w 42) 3 D 4 256) as [enc0|] eqn:Ee;
    [cbn [bind] in E|discriminate].
  destruct (Decoder.init (set_seed w 42) 3 D 4 256) as [dec0|] eqn:Ed;
    [cbn [bind] in E|discriminate].
  bind_inv E. bind_inv E. bind_inv E. bind_inv E. bind_inv E. bind_inv E.
  bind_inv E. bind_inv E. bind_inv E. injection E as <-. simpl.
  destruct a0; try discriminate. destruct a3; try discriminate.
  unfold Encoder.init, replicateM in Ee. bind_inv Ee. injection Ee as <-.
  apply mapM_length in E. rewrite length_seq in E.
  unfold Encoder.load_state_dict in E2. bind_inv E2. injection E2 as <-.
  apply load_list_length in E9. simpl in *.
  unfold Decoder.init, replicateM in Ed. bind_inv Ed. bind_inv Ed.
  injection Ed as <-.
  apply mapM_length in E2, E10. rewrite length_seq in E2, E10.
  unfold Decoder.load_state_dict in E5. destruct sd0 as ((ss & cs) & fs).
  bind_inv E5. bind_inv E5. bind_inv E5. injection E5 as <-.
  apply load_list_length in E11, E12, E13. simpl in *. lia.
Qed.

Lemma Encoder_wrong_width (D H : nat) (enc : Encoder.t) (x : Tensor)
  (B L D' : nat) :
  Encoder_wf D H enc -> Encoder.layers enc <> [] ->
  shape x = [B; L; D'] -> D' <> D ->
  Encoder.forward enc x = Err (ShapeError "linear" [B; L; D'] [D * 3; D]).
Proof.
  intros Hwf Hne Hx HD. unfold Encoder.forward, Encoder_wf in *.
  destruct (Encoder.layers enc) as [|l ls]; [contradiction|].
  inversion Hwf as [|? ? (Hsa & _) _]; subst. simpl.
  now rewrite (SelfAttention_wrong_width D H (fst l) x B L D' Hsa Hx HD).
Qed.

Lemma Decoder_wrong_width (D H : nat) (dec : Decoder.t) (x mem : Tensor)
  (B L D' : nat) :
  Decoder_wf D H dec ->
  Decoder.self_layers dec <> [] -> Decoder.cross_layers dec <> [] ->
  Decoder.ffns dec <> [] ->
  shape x = [B; L; D'] -> D' <> D ->
  Decoder.forward dec x mem = Err (ShapeError "linear" [B; L; D'] [D * 3; D]).
Proof.
  intros (Hs & _ & _) H1 H2 H3 Hx HD. unfold Decoder.forward.
  destruct (Decoder.self_layers dec) as [|sa sl]; [contradiction|].
  destruct (Decoder.cross_layers dec) as [|ca cl]; [contradiction|].
  destruct (Decoder.ffns dec) as [|ff fl]; [contradiction|].
  inversion Hs as [|? ? Hsa _]; subst. simpl.
  now rewrite (SelfAttention_wrong_width D H sa x B L D' Hsa Hx HD).
Qed.

Lemma nonempty_of_length {A : Type} (l : list A) (n : nat) :
  length l = S n -> l <> [].
Proof. destruct l; [discriminate|]. intros _ H. discriminate H. Qed.

(** The three ways the positional encoding can end, by the width. *)
Lemma add_positional_encoding_cases (x : Tensor) (B L c : nat) :
  shape x = [B; L; c] ->
  (exists y, add_positional_encoding x = Ok y /\ shape y = [B; L; c]) \/
  add_positional_encoding x = Err ZeroDivisionError \/
  (exists s, add_positional_encoding x = Err (ShapeError "expand" s [L; c / 2])).
Proof.
  intros Hx.
  destruct (Nat.eq_dec c 0) as [->|HD].
  { right. left. exact (add_positional_encoding_width0 x B L Hx). }
  destruct (Nat.even c) eqn:Hev.
  - destruct (add_positional_encoding_even x B L c Hx HD Hev) as (y & Ey & Sy & _).
    left. now exists y.
  - assert (Hodd : Nat.odd c = true) by (now rewrite <- Nat.negb_even, Hev).
    destruct (Nat.eq_dec c 1) as [->|H1].
    + destruct (add_positional_encoding_width1 x B L Hx) as (y & Ey & Sy & _).
      left. now exists y.
    + assert (H3 : 3 <= c).
      { destruct c as [|[|[|c']]]; try lia. discriminate Hodd. }
      destruct (add_positional_encoding_odd x B L c Hx Hodd H3)
        as (_ & _ & s & _ & _ & _ & _ & _ & E).
      right. right. now exists s.
Qed.

(** A session whose validation or training table is numeric and has fewer
    columns than feature_dim raises: in the positional encoding, when the
    width is 0 or odd and at least 3, or at the first projection of the
    encoder (training table) or of the decoder (validation table). *)
Lemma session_narrow_table (w : World) (dd base : string) (D ws : nat)
  (val_name train_file : string) (val_df train_df : DataFrame) (st : Locals) :
  D mod 4 = 0 ->
  Encoder_wf D 4 (encoder st) -> Decoder_wf D 4 (decoder st) ->
  length (Encoder.layers (encoder st)) = 3 ->
  length (Decoder.self_layers (decoder st)) = 3 ->
  length (Decoder.cross_layers (decoder st)) = 3 ->
  length (Decoder.ffns (decoder st)) = 3 ->
  base_dir w = Some base ->
  csv_files w [base; "validation"; "feature"; val_name ++ ".csv"]%string
    = Some val_df ->
  csv_files w [dd; train_file] = Some train_df ->
  values_dtype val_df <> Object -> values_dtype train_df <> Object ->
  ncols val_df < D \/ ncols train_df < D ->
  exists e,
    session w dd D ws (val_name, train_file) st = Err e /\
    (e = ZeroDivisionError \/
     (exists s L c, e = ShapeError "expand" s [L; c / 2]) \/
     (exists L c, c < D /\ e = ShapeError "linear" [1; L; c] [D * 3; D])).
Proof.
  intros Hm He Hd Le L1 L2 L3 Hb Hv Ht Hdv Hdt Hnarrow.
  unfold session, session_scalar, global_base_dir, read_csv.
  rewrite Hb. cbn [bind]. rewrite Hv, Ht. cbn [bind].
  unfold cols_prefix at 1, values at 1. cbn [shape bind].
  rewrite (torch_tensor_ok _ _ Hdt). cbn [bind].
  match goal with
  | |- context [add_positional_encoding (unsqueeze0 ?t)] => set (tt := t)
  end.
  destruct (add_positional_encoding_cases (unsqueeze0 tt) 1 (nrows train_df)
              (Nat.min D (ncols train_df)) eq_refl)
    as [(tp & -> & Stp)|[-> |(s & ->)]]; cbn [bind];
    [|eexists; split; [reflexivity|]; now left
     |eexists; split; [reflexivity|]; right; left; eauto].
  unfold cols_prefix, values. cbn [shape bind].
  rewrite (torch_tensor_ok _ _ Hdv). cbn [bind].
  match goal with
  | |- context [last_rows ws ?t] =>
      destruct (last_rows_shape ws (nrows val_df)
                  [Nat.min D (ncols val_df)] t eq_refl) as (di & -> & Sdi)
  end.
  cbn [bind].
  set (T := if ws =? 0 then nrows val_df else Nat.min ws (nrows val_df)) in *.
  destruct (add_positional_encoding_cases (unsqueeze0 di) 1 T
              (Nat.min D (ncols val_df))) as [(dp & -> & Sdp)|[-> |(s & ->)]];
    [simpl; now rewrite Sdi| | |]; cbn [bind];
    [|eexists; split; [reflexivity|]; now left
     |eexists; split; [reflexivity|]; right; left; eauto].
  destruct (Nat.lt_ge_cases (ncols train_df) D) as [Hlt|Hge].
  - rewrite (Encoder_wrong_width D 4 (encoder st) tp _ _ _ He
               (nonempty_of_length _ _ Le) Stp ltac:(lia)).
    cbn [bind]. eexists. split; [reflexivity|]. right. right.
    exists (nrows train_df), (Nat.min D (ncols train_df)). split; [lia|reflexivity].
  - rewrite Nat.min_l in Stp by exact Hge.
    destruct (Encoder_forward_ok D 4 (encoder st) tp 1 (nrows train_df)
                ltac:(lia) Hm He Stp) as (eo & -> & Seo).
    cbn [bind].
    rewrite (Decoder_wrong_width D 4 (decoder st) dp eo _ _ _ Hd
               (nonempty_of_length _ _ L1) (nonempty_of_length _ _ L2)
               (nonempty_of_length _ _ L3) Sdp ltac:(lia)).
    cbn [bind]. eexists. split; [reflexivity|]. right. right.
    exists T, (Nat.min D (ncols val_df)). split; [lia|reflexivity].
Qed.

(** X18: a numeric validation or training table with fewer columns than
    feature_dim never yields a prediction, also after earlier sessions
    returned: its session raises and the whole run ends with that error,
    which is the ZeroDivisionError of line 26 (a table of width 0), the
    shape mismatch of the cosine assignment at line 29 (an odd width of
    at least 3), or the shape mismatch of the first qkv projection, of the
    encoder for the training table and of the decoder for the validation
    table (lines 42, 151 and 152). *)
Theorem narrow_table_aborts_run (w : World) (mp : list (string * string))
  (dd out base : string) (D ws : nat) (st0 st1 : Locals)
  (pre post : list (string * string)) (val_name train_file : string)
  (val_df train_df : DataFrame) :
  load_models w mp D = Ok st0 ->
  base_dir w = Some base ->
  best_matches = pre ++ (val_name, train_file) :: post ->
  foldM (session w dd D ws) pre st0 = Ok st1 ->
  csv_files w [base; "validation"; "feature"; val_name ++ ".csv"]%string
    = Some val_df ->
  csv_files w [dd; train_file] = Some train_df ->
  values_dtype val_df <> Object -> values_dtype train_df <> Object ->
  ncols val_df < D \/ ncols train_df < D ->
  exists e,
    session w dd D ws (val_name, train_file) st1 = Err e /\
    infer_rul_without_gt w mp dd out D ws = Err e /\
    (e = ZeroDivisionError \/
     (exists s L c, e = ShapeError "expand" s [L; c / 2]) \/
     (exists L c, c < D /\ e = ShapeError "linear" [1; L; c] [D * 3; D])).
Proof.
  intros El Hb Hbm Hpre Hv Ht Hdv Hdt Hnarrow.
  destruct (load_models_wf w mp D st0 El) as (Hm & He & Hd & Hh & _).
  destruct (load_models_depth w mp D st0 El) as (Le & L1 & L2 & L3).
  destruct (sessions_frame w dd D ws pre st0 st1 Hpre) as (E1 & E2 & E3).
  destruct (session_narrow_table w dd base D ws val_name train_file
              val_df train_df st1) as (e & Ee & Hk); try congruence.
  exists e. split; [exact Ee|]. split; [|exact Hk].
  exact (session_error_aborts_run w mp dd out D ws st0 st1 pre post _ e
           El Hbm Hpre Ee).
Qed.

Lemma narrow_table_aborts_run_witness :
  exists e,
    infer_rul_without_gt
      (example_world_tables
         (tables_with ["train"; "train7.csv"]%string (zero_df 30 2)))
      example_paths "train" "out.csv" 4 21 = Err e /\
    (e = ZeroDivisionError \/
     (exists s L c, e = ShapeError "expand" s [L; c / 2]) \/
     (exists L c, c < 4 /\ e = ShapeError "linear" [1; L; c] [4 * 3; 4])).
Proof.
  destruct (example_tables_load
              (tables_with ["train"; "train7.csv"]%string (zero_df 30 2)))
    as (st0 & El & _).
  destruct (example_tables_sessions_ok
              (tables_with ["train"; "train7.csv"]%string (zero_df 30 2))
              21
              [("validation1", "train3.csv"); ("validation2", "train5.csv");
               ("validation3", "train5.csv"); ("validation4", "train5.csv")]%string
              st0 El) as (st1 & _ & Hpre & _).
  { repeat apply Forall_cons; try apply Forall_nil;
      apply zero_tables_files; reflexivity. }
  destruct (narrow_table_aborts_run _ _ "train"%string "out.csv"%string
              "data"%string 4 21 st0 st1
              [("validation1", "train3.csv"); ("validation2", "train5.csv");
               ("validation3", "train5.csv"); ("validation4", "train5.csv")]%string
              [("validation6", "train5.csv")]%string
              "validation5"%string "train7.csv"%string (zero_df 30 4)
              (zero_df 30 2)
              El eq_refl eq_refl Hpre eq_refl eq_refl
              ltac:(discriminate) ltac:(discriminate)
              ltac:(right; simpl; lia)) as (e & _ & Ee & Hk).
  exists e. split; assumption.
Defined.

(** ** Entries outside the shape are never read

    Each operation maps tensors that agree inside their shape to tensors
    that agree inside theirs. *)

Lemma numel_cons (d : nat) (s : list nat) : numel (d :: s) = d * numel s.
Proof. reflexivity. Qed.

Lemma ravel_lt (s idx : list nat) :
  in_bounds s idx -> ravel s idx < numel s.
Proof.
  unfold in_bounds. intros H. induction H as [|i d idx s Hi H IH].
  - simpl. lia.
  - rewrite numel_cons. cbn [ravel]. nia.
Qed.

Lemma unravel_in_bounds (s : list nat) :
  forall n, n < numel s -> in_bounds s (unravel s n).
Proof.
  induction s as [|d s IH]; intros n Hn; simpl; [constructor|].
  rewrite numel_cons in Hn.
  assert (Hpos : numel s <> 0) by (intros E; rewrite E in Hn; lia).
  constructor.
  - apply Nat.Div0.div_lt_upper_bound. lia.
  - apply IH. now apply Nat.mod_upper_bound.
Qed.

Lemma view_agree (s s' : list nat) (a b : Tensor) :
  agree s a b -> numel s = numel s' ->
  exists a' b', view a s' = Ok a' /\ view b s' = Ok b' /\ agree s' a' b'.
Proof.
  intros (Sa & Sb & G) Hn. unfold view. rewrite Sa, Sb, Hn, Nat.eqb_refl.
  eexists; eexists. split; [reflexivity|]. split; [reflexivity|].
  repeat split. intros idx Hi. simpl. apply G.
  apply unravel_in_bounds. rewrite Hn. now apply ravel_lt.
Qed.

Ltac inv_bounds H :=
  unfold in_bounds in H; simpl in H;
  repeat match goal with
         | H' : Forall2 lt _ (_ :: _) |- _ => inversion H'; clear H'; subst
         | H' : Forall2 lt _ [] |- _ => inversion H'; clear H'; subst
         end.

Ltac in_bounds_now := unfold in_bounds; repeat constructor; assumption.

Lemma permute5_agree (t t' : Tensor) (a b c d e : nat) :
  agree [a; b; c; d; e] t t' ->
  exists y y', permute t [2; 0; 3; 1; 4] = Ok y /\
               permute t' [2; 0; 3; 1; 4] = Ok y' /\
               agree [c; a; d; b; e] y y'.
Proof.
  intros (S & S' & G). unfold permute, rank. rewrite S, S'. simpl.
  eexists; eexists. split; [reflexivity|]. split; [reflexivity|].
  repeat split. intros idx Hi. inv_bounds Hi. simpl. apply G. in_bounds_now.
Qed.

Lemma permute4_agree (t t' : Tensor) (a b c d : nat) :
  agree [a; b; c; d] t t' ->
  exists y y', permute t [0; 2; 1; 3] = Ok y /\
               permute t' [0; 2; 1; 3] = Ok y' /\
               agree [a; c; b; d] y y'.
Proof.
  intros (S & S' & G). unfold permute, rank. rewrite S, S'. simpl.
  eexists; eexists. split; [reflexivity|]. split; [reflexivity|].
  repeat split. intros idx Hi. inv_bounds Hi. simpl. apply G. in_bounds_now.
Qed.

Lemma transpose_last2_agree (t t' : Tensor) (a b c d : nat) :
  agree [a; b; c; d] t t' ->
  exists y y', transpose_last2 t = Ok y /\ transpose_last2 t' = Ok y' /\
               agree [a; b; d; c] y y'.
Proof.
  intros (S & S' & G). unfold transpose_last2, transpose, permute, rank.
  rewrite S, S'. simpl.
  eexists; eexists. split; [reflexivity|]. split; [reflexivity|].
  repeat split. intros idx Hi. inv_bounds Hi. simpl. apply G. in_bounds_now.
Qed.

Lemma transpose12_agree (t t' : Tensor) (a b c d : nat) :
  agree [a; b; c; d] t t' ->
  exists y y', transpose t 1 2 = Ok y /\ transpose t' 1 2 = Ok y' /\
               agree [a; c; b; d] y y'.
Proof.
  intros (S & S' & G). unfold transpose, permute, rank. rewrite S, S'. simpl.
  eexists; eexists. split; [reflexivity|]. split; [reflexivity|].
  repeat split. intros idx Hi. inv_bounds Hi. simpl. apply G. in_bounds_now.
Qed.

Lemma select0_agree (t t' : Tensor) (k d : nat) (s : list nat) :
  agree (d :: s) t t' -> k < d ->
  exists y y', select0 t k = Ok y /\ select0 t' k = Ok y' /\ agree s y y'.
Proof.
  intros (S & S' & G) Hk. unfold select0. rewrite S, S'.
  apply Nat.ltb_lt in Hk. rewrite Hk.
  eexists; eexists. split; [reflexivity|]. split; [reflexivity|].
  repeat split. intros idx Hi. simpl. apply G.
  apply Nat.ltb_lt in Hk. constructor; assumption.
Qed.

Lemma matmul4_agree (x x' y y' : Tensor) (a b n m p : nat) :
  agree [a; b; n; m] x x' -> agree [a; b; m; p] y y' ->
  exists z z', matmul x y = Ok z /\ matmul x' y' = Ok z' /\
               agree [a; b; n; p] z z'.
Proof.
  intros (Sx & Sx' & Gx) (Sy & Sy' & Gy). unfold matmul.
  rewrite Sx, Sx', Sy, Sy'. simpl. rewrite !Nat.eqb_refl. simpl.
  eexists; eexists. split; [reflexivity|]. split; [reflexivity|].
  repeat split. intros idx Hi. inv_bounds Hi. simpl.
  apply sum_upto_ext. intros k Hk. f_equal.
  - apply Gx. in_bounds_now.
  - apply Gy. in_bounds_now.
Qed.

Lemma tmap_agree (f : R -> R) (s : list nat) (a b : Tensor) :
  agree s a b -> agree s (tmap f a) (tmap f b).
Proof.
  intros (Sa & Sb & G). repeat split; auto.
  intros idx Hi. simpl. now rewrite G.
Qed.

Lemma softmax_last_agree (pre : list nat) (n : nat) (a b : Tensor) :
  agree (pre ++ [n]) a b ->
  exists y y', softmax_last a = Ok y /\ softmax_last b = Ok y' /\
               agree (pre ++ [n]) y y'.
Proof.
  intros (Sa & Sb & G). unfold softmax_last.
  rewrite Sa, Sb, rev_app_distr. simpl.
  eexists; eexists. split; [reflexivity|]. split; [reflexivity|].
  repeat split; auto. intros idx Hi. simpl. f_equal; [f_equal; now apply G|].
  apply sum_upto_ext. intros j Hj. f_equal.
  apply in_bounds_snoc_inv in Hi as (idx1 & i & -> & H1 & _).
  rewrite removelast_last. apply G. now apply in_bounds_snoc.
Qed.

Lemma add_agree (s : list nat) (a a' b b' : Tensor) :
  agree s a a' -> agree s b b' ->
  exists y y', add a b = Ok y /\ add a' b' = Ok y' /\ agree s y y'.
Proof.
  intros (Sa & Sa' & Ga) (Sb & Sb' & Gb).
  destruct (add_same_shape a b) as (y & Ey & Sy & Gy); [congruence|].
  destruct (add_same_shape a' b') as (y' & Ey' & Sy' & Gy'); [congruence|].
  exists y, y'. split; [exact Ey|]. split; [exact Ey'|].
  repeat split; try congruence.
  intros idx Hi. rewrite Gy, Gy' by congruence. now rewrite Ga, Gb.
Qed.

Ltac chain :=
  repeat match goal with
         | H : ?op = Ok _ |- context [?op] => rewrite H; cbn [bind]
         end.

Lemma SelfAttention_agree (D H : nat) (sa : SelfAttention.t) (x x' : Tensor)
  (B L : nat) :
  H <> 0 -> D mod H = 0 -> SelfAttention_wf D H sa -> agree [B; L; D] x x' ->
  exists y y', SelfAttention.forward sa x = Ok y /\
               SelfAttention.forward sa x' = Ok y' /\
               agree [B; L; D] y y'.
Proof.
  intros HH Hm (Hh & Hdk & Hq & Ho) Hx.
  pose proof (heads_times_dk D H HH Hm) as HD.
  pose proof Hx as (Sx & Sx' & _).
  destruct (linear_agree _ [B; L] _ _ x x' Hq Hx) as (t1 & u1 & E1 & F1 & A1).
  destruct (view_agree _ [B; L; 3; H; D / H] _ _ A1) as (t2 & u2 & E2 & F2 & A2).
  { simpl. nia. }
  destruct (permute5_agree _ _ _ _ _ _ _ A2) as (t3 & u3 & E3 & F3 & A3).
  destruct (select0_agree _ _ 0 _ _ A3 ltac:(lia)) as (Q & Q' & EQ & FQ & AQ).
  destruct (select0_agree _ _ 1 _ _ A3 ltac:(lia)) as (K & K' & EK & FK & AK).
  destruct (select0_agree _ _ 2 _ _ A3 ltac:(lia)) as (V & V' & EV & FV & AV).
  destruct (transpose_last2_agree _ _ _ _ _ _ AK) as (Kt & Kt' & EKt & FKt & AKt).
  destruct (matmul4_agree _ _ _ _ _ _ _ _ _ AQ AKt) as (W & W' & EW & FW & AW).
  destruct (softmax_last_agree [B; H; L] L _ _
              (tmap_agree (fun v => (v / sqrt (INR (D / H)))%R) _ _ _ AW))
    as (A & A' & EA & FA & AA).
  destruct (matmul4_agree _ _ _ _ _ _ _ _ _ AA AV) as (P & P' & EP & FP & AP).
  destruct (transpose12_agree _ _ _ _ _ _ AP) as (Pt & Pt' & EPt & FPt & APt).
  destruct (view_agree _ [B; L; D] _ _ APt) as (r & r' & Er & Fr & Ar).
  { simpl. nia. }
  destruct (linear_agree _ [B; L] _ _ r r' Ho Ar) as (o & o' & Eo & Fo & Ao).
  destruct (add_agree _ o o' x x' Ao Hx) as (y & y' & Ey & Fy & Ay).
  exists y, y'. split; [|split; [|exact Ay]].
  - unfold SelfAttention.forward. rewrite Sx, Hh, Hdk.
    unfold div_scalar. chain. reflexivity.
  - unfold SelfAttention.forward. rewrite Sx', Hh, Hdk.
    unfold div_scalar. chain. reflexivity.
Qed.

Lemma CrossAttention_agree (D H : nat) (ca : MultiHeadCrossAttention.t)
  (x x' m m' : Tensor) (B T Sm : nat) :
  H <> 0 -> D mod H = 0 -> CrossAttention_wf D H ca ->
  agree [B; T; D] x x' -> agree [B; Sm; D] m m' ->
  exists y y', MultiHeadCrossAttention.forward ca x m = Ok y /\
               MultiHeadCrossAttention.forward ca x' m' = Ok y' /\
               agree [B; T; D] y y'.
Proof.
  intros HH Hm (Hh & Hdk & Hq & Hkv & Ho) Hx Hmem.
  pose proof (heads_times_dk D H HH Hm) as HD.
  pose proof Hx as (Sx & Sx' & _). pose proof Hmem as (Sm1 & Sm2 & _).
  destruct (linear_agree _ [B; T] _ _ x x' Hq Hx) as (t1 & u1 & E1 & F1 & A1).
  destruct (view_agree _ [B; T; H; D / H] _ _ A1) as (t2 & u2 & E2 & F2 & A2).
  { simpl. nia. }
  destruct (permute4_agree _ _ _ _ _ _ A2) as (Q & Q' & EQ & FQ & AQ).
  destruct (linear_agree _ [B; Sm] _ _ m m' Hkv Hmem)
    as (t3 & u3 & E3 & F3 & A3).
  destruct (view_agree _ [B; Sm; 2; H; D / H] _ _ A3)
    as (t4 & u4 & E4 & F4 & A4).
  { simpl. nia. }
  destruct (permute5_agree _ _ _ _ _ _ _ A4) as (t5 & u5 & E5 & F5 & A5).
  destruct (select0_agree _ _ 0 _ _ A5 ltac:(lia)) as (K & K' & EK & FK & AK).
  destruct (select0_agree _ _ 1 _ _ A5 ltac:(lia)) as (V & V' & EV & FV & AV).
  destruct (transpose_last2_agree _ _ _ _ _ _ AK) as (Kt & Kt' & EKt & FKt & AKt).
  destruct (matmul4_agree _ _ _ _ _ _ _ _ _ AQ AKt) as (W & W' & EW & FW & AW).
  destruct (softmax_last_agree [B; H; T] Sm _ _
              (tmap_agree (fun v => (v / sqrt (INR (D / H)))%R) _ _ _ AW))
    as (A & A' & EA & FA & AA).
  destruct (matmul4_agree _ _ _ _ _ _ _ _ _ AA AV) as (P & P' & EP & FP & AP).
  destruct (transpose12_agree _ _ _ _ _ _ AP) as (Pt & Pt' & EPt & FPt & APt).
  destruct (view_agree _ [B; T; D] _ _ APt) as (r & r' & Er & Fr & Ar).
  { simpl. nia. }
  destruct (linear_agree _ [B; T] _ _ r r' Ho Ar) as (o & o' & Eo & Fo & Ao).
  destruct (add_agree _ o o' x x' Ao Hx) as (y & y' & Ey & Fy & Ay).
  exists y, y'. split; [|split; [|exact Ay]].
  - unfold MultiHeadCrossAttention.forward. rewrite Sx, Sm1, Hh, Hdk.
    unfold div_scalar. cbn [bind]. chain. reflexivity.
  - unfold MultiHeadCrossAttention.forward. rewrite Sx', Sm2, Hh, Hdk.
    unfold div_scalar. cbn [bind]. chain. reflexivity.
Qed.

Lemma FeedForward_agree (d : nat) (ff : FeedForward.t) (pre : list nat)
  (x x' : Tensor) :
  FeedForward_wf d ff -> agree (pre ++ [d]) x x' ->
  exists y y', FeedForward.forward ff x = Ok y /\
               FeedForward.forward ff x' = Ok y' /\
               agree (pre ++ [d]) y y'.
Proof.
  intros Hwf Hx.
  destruct (Sequential_forward_agree _ d d pre x x' Hwf Hx)
    as (v & v' & Ev & Ev' & Av).
  destruct (add_agree _ v v' x x' Av Hx) as (y & y' & Ey & Ey' & Ay).
  exists y, y'. unfold FeedForward.forward. rewrite Ev, Ev'. cbn [bind]. auto.
Qed.

Lemma Encoder_agree (D H : nat) (enc : Encoder.t) (B L : nat) :
  H <> 0 -> D mod H = 0 -> Encoder_wf D H enc ->
  forall x x', agree [B; L; D] x x' ->
  exists y y', Encoder.forward enc x = Ok y /\ Encoder.forward enc x' = Ok y' /\
               agree [B; L; D] y y'.
Proof.
  intros HH Hm Hwf. unfold Encoder.forward, Encoder_wf in *.
  induction Hwf as [|l ls (Hsa & Hff) _ IH]; intros x x' Hx; simpl.
  - now exists x, x'.
  - destruct (SelfAttention_agree D H (fst l) x x' B L HH Hm Hsa Hx)
      as (y & y' & -> & -> & Ay).
    cbn [bind].
    destruct (FeedForward_agree D (snd l) [B; L] y y' Hff Ay)
      as (z & z' & -> & -> & Az).
    cbn [bind]. now apply IH.
Qed.

Lemma Decoder_agree (D H : nat) (dec : Decoder.t) (B T Sm : nat)
  (m m' : Tensor) :
  H <> 0 -> D mod H = 0 -> Decoder_wf D H dec -> agree [B; Sm; D] m m' ->
  forall x x', agree [B; T; D] x x' ->
  exists y y', Decoder.forward dec x m = Ok y /\
               Decoder.forward dec x' m' = Ok y' /\
               agree [B; T; D] y y'.
Proof.
  intros HH Hm (Hs & Hc & Hf) Hmem. unfold Decoder.forward.
  assert (Hall : Forall (fun l => SelfAttention_wf D H (fst (fst l)) /\
                                  CrossAttention_wf D H (snd (fst l)) /\
                                  FeedForward_wf D (snd l))
                   (combine (combine (Decoder.self_layers dec)
                                     (Decoder.cross_layers dec))
                            (Decoder.ffns dec))).
  { apply Forall_forall. intros ((sa & ca) & ff) Hin. simpl.
    pose proof (in_combine_l _ _ _ _ Hin) as H1.
    pose proof (in_combine_r _ _ _ _ Hin) as H2.
    pose proof (in_combine_l _ _ _ _ H1) as H3.
    pose proof (in_combine_r _ _ _ _ H1) as H4.
    rewrite Forall_forall in Hs, Hc, Hf. auto. }
  induction Hall as [|((sa & ca) & ff) ls (Hsa & Hca & Hff) _ IH];
    intros x x' Hx; simpl in *.
  - now exists x, x'.
  - destruct (SelfAttention_agree D H sa x x' B T HH Hm Hsa Hx)
      as (y & y' & -> & -> & Ay).
    cbn [bind].
    destruct (CrossAttention_agree D H ca y y' m m' B T Sm HH Hm Hca Ay Hmem)
      as (z & z' & -> & -> & Az).
    cbn [bind].
    destruct (FeedForward_agree D ff [B; T] z z' Hff Az)
      as (u & u' & -> & -> & Au).
    cbn [bind]. now apply IH.
Qed.

Lemma RULHead_agree (D : nat) (hd : RULHead.t) (x x' : Tensor) (B T : nat) :
  RULHead_wf D hd -> 1 <= T -> agree [B; T; D] x x' ->
  exists out out', RULHead.forward hd x = Ok out /\
                   RULHead.forward hd x' = Ok out' /\
                   agree [B] out out'.
Proof.
  intros Hwf HT (Sx & Sx' & G).
  destruct (select_last_step_ok x B T D Sx HT) as (v & Ev & Sv & Gv).
  destruct (select_last_step_ok x' B T D Sx' HT) as (v' & Ev' & Sv' & Gv').
  assert (Ha : agree ([B] ++ [D]) v v').
  { repeat split; auto. intros idx Hi. inv_bounds Hi.
    rewrite Gv, Gv'. apply G. unfold in_bounds. repeat constructor; auto. lia. }
  destruct (Sequential_forward_agree _ D 1 [B] v v' Hwf Ha)
    as (y & y' & Ey & Ey' & (Sy & Sy' & Gy)).
  exists (squeeze_last y), (squeeze_last y').
  unfold RULHead.forward. rewrite Ev, Ev'. cbn [bind]. rewrite Ey, Ey'.
  cbn [bind].
  destruct (squeeze_last_col y B Sy) as (S1 & G1).
  destruct (squeeze_last_col y' B Sy') as (S2 & G2).
  repeat split; auto.
  intros idx Hi. inv_bounds Hi. rewrite G1, G2. apply Gy. simpl.
  unfold in_bounds. repeat constructor; auto.
Qed.

Lemma unsqueeze0_agree (s : list nat) (a b : Tensor) :
  agree s a b -> agree (1 :: s) (unsqueeze0 a) (unsqueeze0 b).
Proof.
  intros (Sa & Sb & G). unfold unsqueeze0. repeat split; simpl; try congruence.
  intros idx Hi. inversion Hi; subst. simpl. now apply G.
Qed.

Lemma add_positional_encoding_agree (x x' : Tensor) (B L D : nat) :
  D <> 0 -> Nat.even D = true -> agree [B; L; D] x x' ->
  exists y y', add_positional_encoding x = Ok y /\
               add_positional_encoding x' = Ok y' /\
               agree [B; L; D] y y'.
Proof.
  intros HD Hev (Sx & Sx' & G).
  destruct (add_positional_encoding_even x B L D Sx HD Hev) as (y & Ey & Sy & Gy).
  destruct (add_positional_encoding_even x' B L D Sx' HD Hev)
    as (y' & Ey' & Sy' & Gy').
  exists y, y'. repeat split; auto.
  intros idx Hi. inv_bounds Hi.
  match goal with
  | |- get y [?b; ?p; ?c] = _ => rename c into cc
  end.
  match goal with
  | |- get y [?b; ?p; ?c] = _ =>
      destruct (Gy b p (c / 2) ltac:(assumption) ltac:(assumption)) as (Ge & Go);
      destruct (Gy' b p (c / 2) ltac:(assumption) ltac:(assumption))
        as (Ge' & Go');
      assert (Hx : get x [b; p; c] = get x' [b; p; c])
        by (apply G; unfold in_bounds; repeat constructor; assumption);
      destruct (Nat.Even_or_Odd c) as [(i & Hi)|(i & Hi)]
  end.
  - assert (Hc2 : 2 * (cc / 2) = cc).
    { subst cc. now rewrite (Nat.mul_comm 2 i), Nat.div_mul, Nat.mul_comm by lia. }
    rewrite Hc2 in Ge, Ge'. rewrite Ge, Ge', Hx by assumption. reflexivity.
  - assert (Hc2 : 2 * (cc / 2) + 1 = cc).
    { subst cc. replace (2 * i + 1) with (1 + i * 2) by lia.
      rewrite Nat.div_add by lia. simpl. lia. }
    assert (Hlt : 2 * (cc / 2) + 1 < D) by lia.
    specialize (Go Hlt). specialize (Go' Hlt). rewrite Hc2 in Go, Go'.
    rewrite Go, Go', Hx. reflexivity.
Qed.

(** ** What a session reads of its tables (lines 143-148) *)

Lemma train_tensor_agree (D : nat) (a b : DataFrame) :
  D <= ncols a -> D <= ncols b -> same_columns D a b ->
  exists t t', cols_prefix D (values a) = Ok t /\
               cols_prefix D (values b) = Ok t' /\
               agree [nrows a; D] t t'.
Proof.
  intros Ha Hb (Hn & Hc). unfold cols_prefix, values. cbn [shape].
  eexists; eexists. split; [reflexivity|]. split; [reflexivity|].
  repeat split; cbn [shape get].
  - now rewrite Nat.min_l.
  - now rewrite Nat.min_l, Hn.
  - intros idx Hi. inv_bounds Hi. simpl. now apply Hc.
Qed.

Lemma window_agree (D ws : nat) (a b : DataFrame) :
  D <= ncols a -> D <= ncols b -> same_window D ws a b ->
  exists v v' t t',
    cols_prefix D (values a) = Ok v /\ cols_prefix D (values b) = Ok v' /\
    last_rows ws v = Ok t /\ last_rows ws v' = Ok t' /\
    agree [nrows a - window_start ws (nrows a); D] t t'.
Proof.
  intros Ha Hb (Hn & Hc). unfold cols_prefix, values. cbn [shape].
  eexists; eexists; eexists; eexists.
  split; [reflexivity|]. split; [reflexivity|].
  unfold last_rows. cbn [shape].
  split; [reflexivity|]. split; [reflexivity|].
  fold (window_start ws (nrows a)). fold (window_start ws (nrows b)).
  repeat split; cbn [shape get].
  - now rewrite Nat.min_l.
  - now rewrite Nat.min_l, Hn.
  - intros idx Hi. inv_bounds Hi. simpl. now apply Hc.
Qed.

Lemma window_rows_positive (ws n : nat) : 1 <= n -> 1 <= n - window_start ws n.
Proof. unfold window_start. destruct (Nat.eqb_spec ws 0); lia. Qed.

(** Two sessions on tables that look alike get the same scalar. *)
Lemma session_alike (w w' : World) (dd dd' : string) (D ws : nat)
  (entry : string * string) (st : Locals) :
  D <> 0 -> D mod 4 = 0 ->
  Encoder_wf D 4 (encoder st) -> Decoder_wf D 4 (decoder st) ->
  RULHead_wf D (rul_head st) ->
  Session_alike w w' dd dd' D ws entry ->
  exists s, session_scalar w dd D ws entry st = Ok s /\
            session_scalar w' dd' D ws entry st = Ok s.
Proof.
  intros HD Hm He Hd Hh
    (base & base' & vdf & vdf' & tdf & tdf' & Hb & Hb' & Hv & Hv' & Ht & Ht' &
     Hcv & Hcv' & Hct & Hct' & Hdv & Hdv' & Hdt & Hdt' & Hwin & Hcols).
  destruct entry as (val_name & train_file). simpl in Hv, Hv', Ht, Ht'.
  pose proof (mod4_even D Hm) as Hev.
  pose proof (values_dtype_rows vdf Hdv) as Hrows.
  destruct (train_tensor_agree D tdf tdf' Hct Hct' Hcols)
    as (tt & tt' & Ett & Ett' & Att).
  destruct (add_positional_encoding_agree _ _ 1 (nrows tdf) D HD Hev
              (unsqueeze0_agree _ _ _ Att)) as (tp & tp' & Etp & Etp' & Atp).
  destruct (window_agree D ws vdf vdf' Hcv Hcv' Hwin)
    as (vt & vt' & di & di' & Evt & Evt' & Edi & Edi' & Adi).
  set (T := nrows vdf - window_start ws (nrows vdf)) in *.
  assert (HT : 1 <= T) by (apply window_rows_positive; exact Hrows).
  destruct (add_positional_encoding_agree _ _ 1 T D HD Hev
              (unsqueeze0_agree _ _ _ Adi)) as (dp & dp' & Edp & Edp' & Adp).
  destruct (Encoder_agree D 4 (encoder st) 1 (nrows tdf) ltac:(lia) Hm He
              tp tp' Atp) as (eo & eo' & Eeo & Eeo' & Aeo).
  destruct (Decoder_agree D 4 (decoder st) 1 T (nrows tdf) eo eo' ltac:(lia)
              Hm Hd Aeo dp dp' Adp) as (dout & dout' & Edo & Edo' & Ado).
  destruct (RULHead_agree D (rul_head st) dout dout' 1 T Hh HT Ado)
    as (out & out' & Eout & Eout' & (So & So' & Go)).
  assert (Ei : item out = Ok (get out [0])) by (unfold item; now rewrite So).
  assert (Ei' : item out' = Ok (get out [0])).
  { unfold item. rewrite So'. simpl. f_equal. symmetry. apply Go.
    unfold in_bounds. repeat constructor. }
  pose proof (torch_tensor_ok _ tt Hdt) as Ktt.
  pose proof (torch_tensor_ok _ tt' Hdt') as Ktt'.
  pose proof (torch_tensor_ok _ vt Hdv) as Kvt.
  pose proof (torch_tensor_ok _ vt' Hdv') as Kvt'.
  eexists. split.
  - unfold session_scalar, global_base_dir, read_csv. rewrite Hb. cbn [bind].
    rewrite Hv, Ht. cbn [bind]. chain. reflexivity.
  - unfold session_scalar, global_base_dir, read_csv. rewrite Hb'. cbn [bind].
    rewrite Hv', Ht'. cbn [bind]. chain. reflexivity.
Qed.

Lemma sessions_alike (w w' : World) (dd dd' : string) (D ws : nat)
  (entries : list (string * string)) :
  D <> 0 -> D mod 4 = 0 -> float64 w = float64 w' ->
  Forall (Session_alike w w' dd dd' D ws) entries ->
  forall st,
    Encoder_wf D 4 (encoder st) -> Decoder_wf D 4 (decoder st) ->
    RULHead_wf D (rul_head st) ->
    foldM (session w dd D ws) entries st =
    foldM (session w' dd' D ws) entries st.
Proof.
  intros HD Hm HF Hall. induction Hall as [|e es Ha _ IH]; intros st He Hd Hh.
  - reflexivity.
  - destruct (session_alike w w' dd dd' D ws e st HD Hm He Hd Hh Ha)
      as (s & E1 & E1').
    assert (Es : session w' dd' D ws e st = session w dd D ws e st).
    { unfold session. now rewrite E1, E1', HF. }
    simpl. rewrite Es.
    destruct (session w dd D ws e st) as [st1|err] eqn:E; [|reflexivity].
    cbn [bind].
    destruct (session_frame w dd D ws e st st1 E) as (F1 & F2 & F3).
    apply IH; congruence.
Qed.

(** X19: a run reads of each validation table only the window of its
    last window_size rows and the first feature_dim columns, and of each
    training table only the first feature_dim columns: two worlds whose
    numeric tables agree there, with the same loaded models, the same
    arithmetic and the same answer to writing the output, end in the same
    way, with the same output or the same exception, whatever numbers
    the earlier rows and the further columns hold. *)
Theorem run_reads_window_and_columns (w w' : World)
  (mp : list (string * string)) (dd dd' out : string) (D ws : nat)
  (st0 : Locals) :
  load_models w mp D = Ok st0 -> load_models w' mp D = Ok st0 -> D <> 0 ->
  float64 w = float64 w' -> can_write w out = can_write w' out ->
  Forall (Session_alike w w' dd dd' D ws) best_matches ->
  infer_rul_without_gt w mp dd out D ws =
  infer_rul_without_gt w' mp dd' out D ws.
Proof.
  intros El El' HD HF Hw Hall.
  destruct (load_models_wf w mp D st0 El) as (Hm & He & Hd & Hh & _).
  unfold infer_rul_without_gt. rewrite El, El'. cbn [bind].
  rewrite (sessions_alike w w' dd dd' D ws best_matches HD Hm HF Hall st0
             He Hd Hh).
  now rewrite Hw.
Qed.

Lemma load_models_same_files (w w' : World) (mp : list (string * string))
  (D : nat) :
  seeded_rng w = seeded_rng w' -> torch_files w = torch_files w' ->
  load_models w mp D = load_models w' mp D.
Proof.
  intros Hr Ht. unfold load_models, set_seed, torch_load.
  now rewrite Hr, Ht.
Qed.

Lemma same_window_refl (D ws : nat) (a : DataFrame) : same_window D ws a a.
Proof. split; auto. Qed.

Lemma same_columns_refl (D : nat) (a : DataFrame) : same_columns D a a.
Proof. split; auto. Qed.

Lemma padded_df_window : same_window 4 21 (zero_df 30 4) padded_df.
Proof.
  split; [reflexivity|].
  intros i j Hi Hj. cbn [zero_df padded_df cell nrows]. 
  change (window_start 21 30) with 9. change (window_start 21 40) with 19.
  destruct (Nat.ltb_spec (19 + i) 19); [lia|].
  destruct (Nat.leb_spec 4 j); [lia|]. reflexivity.
Qed.

Lemma run_reads_window_and_columns_witness :
  infer_rul_without_gt
    (example_world_tables (fun _ => Some (zero_df 30 4)))
    example_paths "train" "out.csv" 4 21 =
  infer_rul_without_gt
    (example_world_tables
       (tables_with ["data"; "validation"; "feature"; "validation2.csv"]%string
                    padded_df))
    example_paths "train" "out.csv" 4 21.
Proof.
  destruct (example_tables_load (fun _ => Some (zero_df 30 4)))
    as (st0 & El & _).
  assert (El' : load_models
                  (example_world_tables
                     (tables_with
                        ["data"; "validation"; "feature"; "validation2.csv"]%string
                        padded_df)) example_paths 4 = Ok st0).
  { rewrite <- El. apply load_models_same_files; reflexivity. }
  refine (run_reads_window_and_columns _ _ _ "train"%string "train"%string
            "out.csv"%string 4 21 st0 El El' ltac:(lia) eq_refl eq_refl _).
  assert (Hsame : forall v t,
             path_eqb ["data"; "validation"; "feature"; v ++ ".csv"]%string
                      ["data"; "validation"; "feature"; "validation2.csv"]%string
               = false ->
             Session_alike
               (example_world_tables (fun _ => Some (zero_df 30 4)))
               (example_world_tables
                  (tables_with
                     ["data"; "validation"; "feature"; "validation2.csv"]%string
                     padded_df))
               "train" "train" 4 21 (v, t)).
  { intros v t Hp.
    exists "data"%string, "data"%string, (zero_df 30 4), (zero_df 30 4),
      (zero_df 30 4), (zero_df 30 4).
    cbn [example_world_tables base_dir csv_files fst snd].
    unfold tables_with. rewrite Hp.
    split; [reflexivity|]. split; [reflexivity|]. split; [reflexivity|].
    split; [reflexivity|]. split; [reflexivity|]. split; [reflexivity|].
    split; [simpl; lia|]. split; [simpl; lia|]. split; [simpl; lia|].
    split; [simpl; lia|].
    split; [discriminate|]. split; [discriminate|].
    split; [discriminate|]. split; [discriminate|].
    split; [apply same_window_refl|apply same_columns_refl]. }
  repeat apply Forall_cons; try apply Forall_nil;
    try (apply Hsame; reflexivity).
  exists "data"%string, "data"%string, (zero_df 30 4), padded_df,
    (zero_df 30 4), (zero_df 30 4).
  split; [reflexivity|]. split; [reflexivity|]. split; [reflexivity|].
  split; [reflexivity|]. split; [reflexivity|]. split; [reflexivity|].
  split; [simpl; lia|]. split; [simpl; lia|]. split; [simpl; lia|].
  split; [simpl; lia|].
  split; [discriminate|]. split; [discriminate|].
  split; [discriminate|]. split; [discriminate|].
  split; [exact padded_df_window|apply same_columns_refl].
Defined.

(** * The storage of tensors *)

(** ** Stores *)

Lemma extends_refl (h : Storage.Heap) : Storage.extends h h.
Proof. split; [lia|]. split; [intros l _; reflexivity|reflexivity]. Qed.

Lemma extends_trans (h1 h2 h3 : Storage.Heap) :
  Storage.extends h1 h2 -> Storage.extends h2 h3 -> Storage.extends h1 h3.
Proof.
  intros (N1 & S1 & L1) (N2 & S2 & L2). split; [lia|]. split; [|congruence].
  intros l Hl. rewrite S2 by lia. now apply S1.
Qed.

Lemma extends_grow_r (h h' : Storage.Heap) (t : Tensor) :
  Storage.extends h h' -> Storage.extends h (Storage.grow h' t).
Proof.
  intros (N & Sb & L). split; [simpl; lia|]. split; [|exact L].
  intros l Hl. simpl. destruct (Nat.eqb_spec l (Storage.next h')); [lia|].
  now apply Sb.
Qed.

(** Overwriting a storage that [h] does not have keeps what [h] has. *)
Lemma extends_put_r (h h' : Storage.Heap) (l : Storage.loc) (t : Tensor) :
  Storage.extends h h' -> Storage.next h <= l ->
  Storage.extends h (Storage.put h' l t).
Proof.
  intros (N & Sb & L) Hl. split; [exact N|]. split; [|exact L].
  intros l' Hl'. simpl. destruct (Nat.eqb_spec l' l); [lia|]. now apply Sb.
Qed.

Lemma deref_grow_new (h : Storage.Heap) (t : Tensor) :
  Storage.deref (Storage.grow h t) (Storage.owner (Storage.next h)) = t.
Proof. unfold Storage.deref. simpl. now rewrite Nat.eqb_refl. Qed.

Lemma deref_grow_old (h : Storage.Heap) (t : Tensor) (r : Storage.TRef) :
  Storage.valid h r ->
  Storage.deref (Storage.grow h t) r = Storage.deref h r.
Proof.
  unfold Storage.valid, Storage.deref. intros H. simpl.
  destruct (Nat.eqb_spec (Storage.base r) (Storage.next h)); [lia|reflexivity].
Qed.

Lemma deref_put_same (h : Storage.Heap) (l : Storage.loc) (t : Tensor) :
  Storage.deref (Storage.put h l t) (Storage.owner l) = t.
Proof. unfold Storage.deref. simpl. now rewrite Nat.eqb_refl. Qed.

Lemma deref_put_other (h : Storage.Heap) (l : Storage.loc) (t : Tensor)
  (r : Storage.TRef) :
  Storage.base r <> l ->
  Storage.deref (Storage.put h l t) r = Storage.deref h r.
Proof.
  unfold Storage.deref. intros H. simpl.
  destruct (Nat.eqb_spec (Storage.base r) l); [contradiction|reflexivity].
Qed.

Lemma deref_view_of (h : Storage.Heap) (f : Tensor -> result Tensor)
  (r : Storage.TRef) :
  Storage.deref h (Storage.view_of f r) =
    match f (Storage.deref h r) with
    | Ok y => y
    | Err _ => Storage.deref h r
    end.
Proof. reflexivity. Qed.

(** A tensor object of [h] has the same value in every later store. *)
Lemma deref_ext (h h' : Storage.Heap) (r : Storage.TRef) :
  Storage.extends h h' -> Storage.valid h r ->
  Storage.deref h' r = Storage.deref h r.
Proof.
  intros (_ & Sb & _) Hv. unfold Storage.deref. now rewrite Sb.
Qed.

Lemma valid_ext (h h' : Storage.Heap) (r : Storage.TRef) :
  Storage.extends h h' -> Storage.valid h r -> Storage.valid h' r.
Proof. intros (N & _) Hv. unfold Storage.valid in *. lia. Qed.

Lemma stable_ext {A : Type} (n : Storage.loc) (rd : Storage.Reader A)
  (h h' : Storage.Heap) :
  Storage.stable n rd -> n <= Storage.next h -> Storage.extends h h' ->
  rd h' = rd h.
Proof.
  intros Hs Hn (_ & Sb & _). apply Hs. intros l Hl. apply Sb. lia.
Qed.

Lemma stable_grow {A : Type} (n : Storage.loc) (rd : Storage.Reader A)
  (h : Storage.Heap) (t : Tensor) :
  Storage.stable n rd -> n <= Storage.next h -> rd (Storage.grow h t) = rd h.
Proof.
  intros Hs Hn. apply (stable_ext n rd h _ Hs Hn).
  apply extends_grow_r, extends_refl.
Qed.

Lemma stable_mono {A : Type} (n m : Storage.loc) (rd : Storage.Reader A) :
  Storage.stable n rd -> n <= m -> Storage.stable m rd.
Proof.
  intros Hs Hn h h' Sb. apply Hs. intros l Hl. apply Sb. lia.
Qed.

(** ** Running one operation *)

Lemma mbind_ret {A B : Type} (a : A) (k : A -> Storage.M B) (h : Storage.Heap) :
  Storage.mbind (Storage.ret a) k h = k a h.
Proof. reflexivity. Qed.

Lemma mbind_lift {A B : Type} (r : result A) (k : A -> Storage.M B)
  (h : Storage.Heap) :
  Storage.mbind (Storage.lift r) k h =
    match r with
    | Ok a => k a h
    | Err e => Err e
    end.
Proof. unfold Storage.mbind, Storage.lift. now destruct r. Qed.

Lemma mbind_shape_of {B : Type} (x : Storage.TRef)
  (k : list nat -> Storage.M B) (h : Storage.Heap) :
  Storage.mbind (Storage.shape_of x) k h = k (shape (Storage.deref h x)) h.
Proof. reflexivity. Qed.

Lemma mbind_read {A B : Type} (rd : Storage.Reader A) (k : A -> Storage.M B)
  (h : Storage.Heap) :
  Storage.mbind (Storage.read rd) k h = k (rd h) h.
Proof. reflexivity. Qed.

Lemma mbind_alloc {B : Type} (t : Tensor) (k : Storage.TRef -> Storage.M B)
  (h : Storage.Heap) :
  Storage.mbind (Storage.alloc t) k h =
    k (Storage.owner (Storage.next h)) (Storage.grow h t).
Proof. reflexivity. Qed.

Lemma mbind_compute {B : Type} (e : Storage.Heap -> result Tensor)
  (k : Storage.TRef -> Storage.M B) (h : Storage.Heap) :
  Storage.mbind (Storage.compute e) k h =
    match e h with
    | Ok y => k (Storage.owner (Storage.next h)) (Storage.grow h y)
    | Err err => Err err
    end.
Proof. unfold Storage.mbind, Storage.compute. now destruct (e h). Qed.

Lemma mbind_alias {B : Type} (f : Tensor -> result Tensor) (r : Storage.TRef)
  (k : Storage.TRef -> Storage.M B) (h : Storage.Heap) :
  Storage.mbind (Storage.alias f r) k h =
    match f (Storage.deref h r) with
    | Ok _ => k (Storage.view_of f r) h
    | Err err => Err err
    end.
Proof.
  unfold Storage.mbind, Storage.alias. now destruct (f (Storage.deref h r)).
Qed.

Lemma mbind_setitem {B : Type} (dst : Storage.TRef) (start : nat)
  (src : Storage.Heap -> result Tensor) (k : unit -> Storage.M B)
  (h : Storage.Heap) :
  Storage.mbind (Storage.setitem_cols_in_place dst start src) k h =
    match src h with
    | Ok v =>
        match setitem_cols (Storage.deref h dst) start v with
        | Ok t => k tt (Storage.put h (Storage.base dst) t)
        | Err err => Err err
        end
    | Err err => Err err
    end.
Proof.
  unfold Storage.mbind, Storage.setitem_cols_in_place.
  destruct (src h); [|reflexivity]. now destruct (setitem_cols _ _ _).
Qed.

Ltac solve_valid :=
  unfold Storage.valid in *;
  cbn [Storage.base Storage.view_of Storage.owner Storage.next Storage.grow
       Storage.put] in *;
  lia.

Ltac solve_extends :=
  repeat first [ apply extends_grow_r
               | apply extends_put_r; [|cbn [Storage.next Storage.grow]; lia] ];
  apply extends_refl.

(** Reads in the current store are replaced by what they return. *)
Ltac hsimp :=
  cbn beta;
  repeat first
    [ rewrite deref_view_of
    | rewrite deref_grow_new
    | rewrite deref_put_same
    | rewrite deref_grow_old by solve_valid
    | rewrite deref_put_other by
        (cbn [Storage.base Storage.view_of Storage.owner]; solve_valid)
    | match goal with
      | Hs : Storage.stable ?n ?rd |- context [?rd (Storage.grow ?h ?t)] =>
          rewrite (stable_grow n rd h t Hs) by
            (cbn [Storage.next Storage.grow]; lia)
      end
    | match goal with
      | E : ?a = Ok _ |- context [?a] => rewrite E
      end ].

(** One operation of the run on the store, and the same operation on
    values. *)
Ltac hstep :=
  first [ rewrite mbind_compute | rewrite mbind_alias | rewrite mbind_alloc
        | rewrite mbind_lift | rewrite mbind_shape_of | rewrite mbind_setitem
        | rewrite mbind_read | rewrite mbind_ret ];
  hsimp;
  try match goal with
      | |- Storage.matches _ (match ?op with _ => _ end) (bind ?op _) =>
          let E := fresh "E" in
          destruct op eqn:E; cbn [bind]; [|reflexivity]
      end.

(** The end of a run that returns a new tensor. *)
Ltac hfinish :=
  unfold Storage.compute; hsimp;
  match goal with
  | |- Storage.matches _ (match ?op with _ => _ end) ?op =>
      let E := fresh "E" in
      destruct op eqn:E; [|reflexivity];
      eexists; eexists; split; [reflexivity|];
      split; [apply deref_grow_new|]; split; [solve_extends|solve_valid]
  end.

(** ** The attention blocks on the store *)

Lemma SelfAttention_sim (self : Storage.Reader SelfAttention.t)
  (x : Storage.TRef) (h : Storage.Heap) (n : Storage.loc) :
  Storage.stable n self -> n <= Storage.next h -> Storage.valid h x ->
  Storage.matches h (Storage.SelfAttention_forward self x h)
    (SelfAttention.forward (self h) (Storage.deref h x)).
Proof.
  intros Hs Hn Hx.
  unfold Storage.SelfAttention_forward, SelfAttention.forward.
  rewrite mbind_shape_of.
  destruct (shape (Storage.deref h x)) as [|B [|L [|D [|? ?]]]];
    try reflexivity.
  unfold Storage.Linear_forward.
  do 15 hstep.
  hfinish.
Qed.

Lemma CrossAttention_sim (self : Storage.Reader MultiHeadCrossAttention.t)
  (x memory : Storage.TRef) (h : Storage.Heap) (n : Storage.loc) :
  Storage.stable n self -> n <= Storage.next h ->
  Storage.valid h x -> Storage.valid h memory ->
  Storage.matches h (Storage.CrossAttention_forward self x memory h)
    (MultiHeadCrossAttention.forward (self h) (Storage.deref h x)
       (Storage.deref h memory)).
Proof.
  intros Hs Hn Hx Hmem.
  unfold Storage.CrossAttention_forward, MultiHeadCrossAttention.forward.
  rewrite mbind_shape_of.
  destruct (shape (Storage.deref h x)) as [|B [|T [|D [|? ?]]]];
    try reflexivity.
  unfold Storage.Linear_forward.
  do 19 hstep.
  hfinish.
Qed.

(** ** The positional encoding on the store

    The two slice assignments write the storage of [pe], which line 25
    has just allocated: no storage that existed before the call is
    written. *)
Lemma add_positional_encoding_sim (x : Storage.TRef) (h : Storage.Heap) :
  Storage.valid h x ->
  Storage.matches h (Storage.add_positional_encoding x h)
    (add_positional_encoding (Storage.deref h x)).
Proof.
  intros Hx.
  unfold Storage.add_positional_encoding, add_positional_encoding.
  rewrite mbind_shape_of.
  destruct (shape (Storage.deref h x)) as [|B [|L [|D [|? ?]]]];
    try reflexivity.
  do 4 hstep.
  rewrite mbind_setitem. hsimp.
  destruct (mul _ _) as [a0|] eqn:Em; cbn [bind]; [|reflexivity].
  destruct (setitem_cols _ 0 _) as [pe1|] eqn:E1; cbn [bind]; [|reflexivity].
  cbn [Storage.base Storage.owner].
  rewrite mbind_setitem. hsimp. cbn [bind].
  destruct (setitem_cols pe1 1 _) as [pe2|] eqn:E2; cbn [bind]; [|reflexivity].
  cbn [Storage.base Storage.owner].
  unfold Storage.compute. hsimp.
  destruct (expand _ _) as [e|] eqn:Ee; cbn [bind]; [|reflexivity].
  destruct (add _ e) as [y|] eqn:Ea; [|reflexivity].
  eexists; eexists; split; [reflexivity|].
  split; [apply deref_grow_new|]. split; [solve_extends|solve_valid].
Qed.

(** ** Composition *)

Lemma matches_bind (h0 h : Storage.Heap) (m : Storage.M Storage.TRef)
  (k : Storage.TRef -> Storage.M Storage.TRef) (v : result Tensor)
  (kv : Tensor -> result Tensor) :
  Storage.extends h0 h ->
  Storage.matches h (m h) v ->
  (forall r h' y,
     Storage.deref h' r = y -> Storage.extends h h' -> Storage.valid h' r ->
     Storage.matches h' (k r h') (kv y)) ->
  Storage.matches h0 (Storage.mbind m k h) (bind v kv).
Proof.
  intros H0 Hm Hk. destruct v as [y|e]; simpl in Hm.
  - destruct Hm as (r & h' & E & Hd & Hext & Hv).
    unfold Storage.mbind. rewrite E. cbn [bind].
    specialize (Hk r h' y Hd Hext Hv).
    destruct (kv y) as [z|e]; simpl in *; [|exact Hk].
    destruct Hk as (r' & h'' & E' & Hd' & Hext' & Hv').
    exists r', h''. repeat split; try assumption.
    all: try (apply (extends_trans h0 h h''); [exact H0|];
              apply (extends_trans h h' h''); assumption).
  - unfold Storage.mbind. now rewrite Hm.
Qed.

Lemma NetLayer_sim (l : Storage.NetLayerH) (x : Storage.TRef)
  (h : Storage.Heap) :
  Storage.valid h x ->
  Storage.matches h (Storage.NetLayer_forward l x h)
    (NetLayer_forward (Storage.NetLayer_at h l) (Storage.deref h x)).
Proof.
  intros Hx. destruct l as [rd|]; simpl.
  - unfold Storage.Linear_forward. hfinish.
  - unfold Storage.compute.
    eexists; eexists; split; [reflexivity|].
    split; [apply deref_grow_new|]. split; [solve_extends|solve_valid].
Qed.

(** A loop on the store against the same loop on values, for objects
    whose values are the same in every store after [h0]. *)
Lemma foldH_sim {AH A : Type}
  (stepH : AH -> Storage.TRef -> Storage.M Storage.TRef)
  (pstep : A -> Tensor -> result Tensor) (at_ : Storage.Heap -> AH -> A)
  (ok : AH -> Prop) (h0 : Storage.Heap) :
  (forall a h x, ok a -> Storage.extends h0 h -> Storage.valid h x ->
     Storage.matches h (stepH a x h) (pstep (at_ h a) (Storage.deref h x))) ->
  (forall a h, ok a -> Storage.extends h0 h -> at_ h a = at_ h0 a) ->
  forall ls h x,
    Forall ok ls -> Storage.extends h0 h -> Storage.valid h x ->
    Storage.matches h (Storage.foldH stepH ls x h)
      (foldM pstep (map (at_ h0) ls) (Storage.deref h x)).
Proof.
  intros Hstep Hat. induction ls as [|a ls IH]; intros h x Hok Hext Hx.
  - simpl. exists x, h. repeat split; try assumption; try apply extends_refl.
    all: try lia; try (intros l _; reflexivity).
  - inversion Hok as [|? ? Ha Hls]; subst. simpl.
    apply (matches_bind h h); [apply extends_refl| |].
    + rewrite <- (Hat a h Ha Hext). now apply Hstep.
    + intros r h' y <- Hext' Hv.
      apply IH; [exact Hls| |exact Hv].
      now apply (extends_trans h0 h h').
Qed.

Lemma Net_at_ext (n : Storage.loc) (net : list Storage.NetLayerH)
  (h h' : Storage.Heap) :
  Forall (Storage.NetLayer_stable n) net -> n <= Storage.next h ->
  Storage.extends h h' -> Storage.Net_at h' net = Storage.Net_at h net.
Proof.
  intros Hall Hn Hext. unfold Storage.Net_at.
  induction Hall as [|l ls Hl _ IH]; simpl; [reflexivity|].
  f_equal; [|exact IH].
  destruct l as [rd|]; simpl; [|reflexivity].
  f_equal. exact (stable_ext n rd h h' Hl Hn Hext).
Qed.

Lemma Sequential_sim (n : Storage.loc) (net : list Storage.NetLayerH)
  (x : Storage.TRef) (h : Storage.Heap) :
  Forall (Storage.NetLayer_stable n) net -> n <= Storage.next h ->
  Storage.valid h x ->
  Storage.matches h (Storage.Sequential_forward net x h)
    (Sequential_forward (Storage.Net_at h net) (Storage.deref h x)).
Proof.
  intros Hall Hn Hx.
  assert (Hf : forall net' v,
             Sequential_forward net' v = foldM NetLayer_forward net' v).
  { induction net' as [|l ls IH]; intros v; simpl; [reflexivity|].
    destruct (NetLayer_forward l v); simpl; auto. }
  rewrite Hf. unfold Storage.Sequential_forward, Storage.Net_at.
  apply (foldH_sim Storage.NetLayer_forward NetLayer_forward
           Storage.NetLayer_at (Storage.NetLayer_stable n) h);
    try assumption; try apply extends_refl.
  - intros a h1 x1 _ _ Hx1. now apply NetLayer_sim.
  - intros a h1 Ha Hext. destruct a as [rd|]; simpl; [|reflexivity].
    f_equal. exact (stable_ext n rd h h1 Ha Hn Hext).
Qed.

Lemma FeedForward_sim (n : Storage.loc) (net : list Storage.NetLayerH)
  (x : Storage.TRef) (h : Storage.Heap) :
  Forall (Storage.NetLayer_stable n) net -> n <= Storage.next h ->
  Storage.valid h x ->
  Storage.matches h (Storage.FeedForward_forward net x h)
    (FeedForward.forward (FeedForward.mk (Storage.Net_at h net))
       (Storage.deref h x)).
Proof.
  intros Hall Hn Hx. unfold Storage.FeedForward_forward, FeedForward.forward.
  cbn [FeedForward.net].
  apply (matches_bind h h); [apply extends_refl| |].
  - now apply (Sequential_sim n).
  - intros r h' y Hd Hext Hv.
    pose proof (deref_ext h h' x Hext Hx) as Hx'.
    unfold Storage.compute. rewrite Hd, Hx'.
    destruct (add y (Storage.deref h x)) as [z|e]; [|reflexivity].
    eexists; eexists; split; [reflexivity|].
    split; [apply deref_grow_new|]. split; [solve_extends|solve_valid].
Qed.

(** ** The stacks and the head on the store *)

Lemma Encoder_sim (n : Storage.loc) (e : Storage.EncoderH) (x : Storage.TRef)
  (h : Storage.Heap) :
  Forall (fun l => Storage.stable n (fst l) /\
                   Forall (Storage.NetLayer_stable n) (snd l)) e ->
  n <= Storage.next h -> Storage.valid h x ->
  Storage.matches h (Storage.Encoder_forward e x h)
    (Encoder.forward (Storage.Encoder_at h e) (Storage.deref h x)).
Proof.
  intros Hall Hn Hx.
  unfold Storage.Encoder_forward, Encoder.forward, Storage.Encoder_at.
  cbn [Encoder.layers].
  apply (foldH_sim _
           (fun layer x => x <- SelfAttention.forward (fst layer) x ;;
                           FeedForward.forward (snd layer) x)
           (fun h l => (fst l h, FeedForward.mk (Storage.Net_at h (snd l))))
           (fun l => Storage.stable n (fst l) /\
                     Forall (Storage.NetLayer_stable n) (snd l)) h);
    try assumption; try apply extends_refl.
  - intros a h1 x1 (Hsa & Hff) Hext Hx1. cbn [fst snd].
    assert (Hn1 : n <= Storage.next h1) by (destruct Hext; lia).
    apply (matches_bind h1 h1); [apply extends_refl| |].
    + now apply (SelfAttention_sim _ _ _ n).
    + intros r h' y <- Hext' Hv.
      rewrite <- (Net_at_ext n (snd a) h1 h' Hff Hn1 Hext').
      apply (FeedForward_sim n); try assumption. destruct Hext'; lia.
  - intros a h1 (Hsa & Hff) Hext. f_equal.
    + exact (stable_ext n _ h h1 Hsa Hn Hext).
    + f_equal. exact (Net_at_ext n _ h h1 Hff Hn Hext).
Qed.

Lemma combine_map2 {A B C D : Type} (f : A -> C) (g : B -> D)
  (a : list A) (b : list B) :
  combine (map f a) (map g b) =
    map (fun p => (f (fst p), g (snd p))) (combine a b).
Proof.
  revert b. induction a as [|x a IH]; intros [|y b]; simpl; try reflexivity.
  now rewrite IH.
Qed.

Lemma Forall_combine {A B : Type} (P : A -> Prop) (Q : B -> Prop)
  (a : list A) (b : list B) :
  Forall P a -> Forall Q b ->
  Forall (fun p => P (fst p) /\ Q (snd p)) (combine a b).
Proof.
  intros Ha. revert b. induction Ha as [|x a Hx _ IH]; intros b Hb; simpl;
    [constructor|].
  destruct Hb as [|y b Hy Hb]; constructor; auto.
Qed.

Lemma Decoder_sim (n : Storage.loc) (d : Storage.DecoderH)
  (x mem : Storage.TRef) (h : Storage.Heap) :
  Forall (Storage.stable n) (Storage.self_layers d) ->
  Forall (Storage.stable n) (Storage.cross_layers d) ->
  Forall (Forall (Storage.NetLayer_stable n)) (Storage.ffns d) ->
  n <= Storage.next h -> Storage.valid h x -> Storage.valid h mem ->
  Storage.matches h (Storage.Decoder_forward d x mem h)
    (Decoder.forward (Storage.Decoder_at h d) (Storage.deref h x)
       (Storage.deref h mem)).
Proof.
  intros Hs Hc Hf Hn Hx Hmem.
  unfold Storage.Decoder_forward, Decoder.forward, Storage.Decoder_at.
  cbn [Decoder.self_layers Decoder.cross_layers Decoder.ffns].
  rewrite !combine_map2.
  apply (foldH_sim _
           (fun l x => let '(sa, ca, ff) := l in
                       x <- SelfAttention.forward sa x ;;
                       x <- MultiHeadCrossAttention.forward ca x
                              (Storage.deref h mem) ;;
                       FeedForward.forward ff x)
           (fun h l => (fst (fst l) h, snd (fst l) h,
                        FeedForward.mk (Storage.Net_at h (snd l))))
           (fun l => (Storage.stable n (fst (fst l)) /\
                      Storage.stable n (snd (fst l))) /\
                     Forall (Storage.NetLayer_stable n) (snd l)) h);
    try assumption; try apply extends_refl.
  - intros ((sa & ca) & ff) h1 x1 ((Hsa & Hca) & Hff) Hext Hx1.
    cbn [fst snd].
    assert (Hn1 : n <= Storage.next h1) by (destruct Hext; lia).
    apply (matches_bind h1 h1); [apply extends_refl| |].
    + now apply (SelfAttention_sim _ _ _ n).
    + intros r h2 y <- Hext2 Hv.
      assert (Hn2 : n <= Storage.next h2) by (destruct Hext2; lia).
      rewrite <- (stable_ext n ca h1 h2 Hca Hn1 Hext2).
      rewrite <- (deref_ext h h2 mem
                    (extends_trans h h1 h2 Hext Hext2) Hmem).
      apply (matches_bind h2 h2); [apply extends_refl| |].
      * apply (CrossAttention_sim _ _ _ _ n); try assumption.
        apply (valid_ext h h2); [|exact Hmem].
        exact (extends_trans h h1 h2 Hext Hext2).
      * intros r' h3 y' <- Hext3 Hv'.
        rewrite <- (Net_at_ext n ff h1 h3 Hff Hn1
                      (extends_trans h1 h2 h3 Hext2 Hext3)).
        apply (FeedForward_sim n); try assumption. destruct Hext3; lia.
  - intros ((sa & ca) & ff) h1 ((Hsa & Hca) & Hff) Hext. cbn [fst snd].
    f_equal; [f_equal|].
    + exact (stable_ext n _ h h1 Hsa Hn Hext).
    + exact (stable_ext n _ h h1 Hca Hn Hext).
    + f_equal. exact (Net_at_ext n _ h h1 Hff Hn Hext).
  - apply (Forall_combine
             (fun p => Storage.stable n (fst p) /\ Storage.stable n (snd p))
             (Forall (Storage.NetLayer_stable n))); [|exact Hf].
    now apply Forall_combine.
Qed.

Lemma RULHead_sim (n : Storage.loc) (net : list Storage.NetLayerH)
  (x : Storage.TRef) (h : Storage.Heap) :
  Forall (Storage.NetLayer_stable n) net -> n <= Storage.next h ->
  Storage.valid h x ->
  Storage.matches h (Storage.RULHead_forward net x h)
    (RULHead.forward (Storage.RULHead_at h net) (Storage.deref h x)).
Proof.
  intros Hall Hn Hx.
  unfold Storage.RULHead_forward, RULHead.forward, Storage.RULHead_at.
  cbn [RULHead.net]. rewrite mbind_alias.
  destruct (select_last_step (Storage.deref h x)) as [v|e] eqn:Ev;
    cbn [bind]; [|reflexivity].
  assert (Hd : Storage.deref h (Storage.view_of select_last_step x) = v)
    by (rewrite deref_view_of; now rewrite Ev).
  rewrite <- Hd.
  apply (matches_bind h h); [apply extends_refl| |].
  - apply (Sequential_sim n); assumption.
  - intros r h' y Hy Hext Hv. unfold Storage.alias.
    eexists; eexists; split; [reflexivity|].
    split; [rewrite deref_view_of; now rewrite Hy|].
    split; [apply extends_refl|solve_valid].
Qed.

(** ** A session on the store *)

Lemma matches_bind_returns {A : Type} (h0 h : Storage.Heap)
  (m : Storage.M Storage.TRef) (k : Storage.TRef -> Storage.M A)
  (v : result Tensor) (kv : Tensor -> result A) :
  Storage.extends h0 h ->
  Storage.matches h (m h) v ->
  (forall r h' y,
     Storage.deref h' r = y -> Storage.extends h h' -> Storage.valid h' r ->
     Storage.returns h' (k r h') (kv y)) ->
  Storage.returns h0 (Storage.mbind m k h) (bind v kv).
Proof.
  intros H0 Hm Hk. destruct v as [y|e]; simpl in Hm.
  - destruct Hm as (r & h' & E & Hd & Hext & Hv).
    unfold Storage.mbind. rewrite E. cbn [bind].
    specialize (Hk r h' y Hd Hext Hv).
    destruct (kv y) as [z|e]; simpl in *; [|exact Hk].
    destruct Hk as (h'' & E' & Hext').
    exists h''. split; [exact E'|].
    apply (extends_trans h0 h h''); [exact H0|].
    now apply (extends_trans h h' h'').
  - unfold Storage.mbind. now rewrite Hm.
Qed.

Lemma Encoder_at_ext (n : Storage.loc) (e : Storage.EncoderH)
  (h h' : Storage.Heap) :
  Forall (fun l => Storage.stable n (fst l) /\
                   Forall (Storage.NetLayer_stable n) (snd l)) e ->
  n <= Storage.next h -> Storage.extends h h' ->
  Storage.Encoder_at h' e = Storage.Encoder_at h e.
Proof.
  intros Hall Hn Hext. unfold Storage.Encoder_at. f_equal.
  induction Hall as [|l ls (Hsa & Hff) _ IH]; simpl; [reflexivity|].
  f_equal; [|exact IH]. f_equal.
  - exact (stable_ext n _ h h' Hsa Hn Hext).
  - f_equal. exact (Net_at_ext n _ h h' Hff Hn Hext).
Qed.

Lemma map_stable_ext {A : Type} (n : Storage.loc)
  (rs : list (Storage.Reader A)) (h h' : Storage.Heap) :
  Forall (Storage.stable n) rs -> n <= Storage.next h ->
  Storage.extends h h' ->
  map (fun r => r h') rs = map (fun r => r h) rs.
Proof.
  intros Hall Hn Hext. induction Hall as [|r rs Hr _ IH]; simpl; [reflexivity|].
  f_equal; [|exact IH]. exact (stable_ext n r h h' Hr Hn Hext).
Qed.

Lemma Decoder_at_ext (n : Storage.loc) (d : Storage.DecoderH)
  (h h' : Storage.Heap) :
  Forall (Storage.stable n) (Storage.self_layers d) ->
  Forall (Storage.stable n) (Storage.cross_layers d) ->
  Forall (Forall (Storage.NetLayer_stable n)) (Storage.ffns d) ->
  n <= Storage.next h -> Storage.extends h h' ->
  Storage.Decoder_at h' d = Storage.Decoder_at h d.
Proof.
  intros Hs Hc Hf Hn Hext. unfold Storage.Decoder_at.
  rewrite (map_stable_ext n _ h h' Hs Hn Hext).
  rewrite (map_stable_ext n _ h h' Hc Hn Hext).
  f_equal.
  induction Hf as [|f fs Hff _ IH]; simpl; [reflexivity|].
  f_equal; [|exact IH]. f_equal. exact (Net_at_ext n _ h h' Hff Hn Hext).
Qed.

(** Lines 137-154 on the store, for module objects whose parameters hold
    in [h] the values of the modules of [st]: the same exception as on
    values, or the same scalar in a store that comes after [h]. *)
Lemma session_scalar_sim (w : World) (dd : string) (D ws : nat)
  (entry : string * string) (ob : Storage.Objects) (st : Locals)
  (h : Storage.Heap) (n : Storage.loc) :
  Storage.Objects_stable n ob -> n <= Storage.next h ->
  encoder st = Storage.Encoder_at h (Storage.encoder_obj ob) ->
  decoder st = Storage.Decoder_at h (Storage.decoder_obj ob) ->
  rul_head st = Storage.RULHead_at h (Storage.rul_head_obj ob) ->
  Storage.returns h (Storage.session_scalar w dd D ws entry ob h)
    (session_scalar w dd D ws entry st).
Proof.
  intros (Henc & (Hds & Hdc & Hdf) & Hhd) Hn Ee Ed Eh.
  unfold Storage.session_scalar, session_scalar.
  destruct entry as (val_name & train_file). rewrite Ee, Ed, Eh.
  rewrite mbind_lift.
  destruct (global_base_dir w) as [base|]; cbn [bind]; [|reflexivity].
  rewrite mbind_lift.
  destruct (read_csv w _) as [val_df|]; cbn [bind]; [|reflexivity].
  rewrite mbind_lift.
  destruct (read_csv w _) as [train_df|]; cbn [bind]; [|reflexivity].
  rewrite mbind_lift.
  destruct (cols_prefix D (values train_df)) as [ta|]; cbn [bind];
    [|reflexivity].
  rewrite mbind_compute.
  destruct (torch_tensor _ ta) as [tt|]; cbn [bind]; [|reflexivity].
  rewrite mbind_alias. cbn iota.
  set (h1 := Storage.grow h tt).
  set (r1 := Storage.view_of (fun t => Ok (unsqueeze0 t))
               (Storage.owner (Storage.next h))).
  assert (X1 : Storage.extends h h1) by (subst h1; solve_extends).
  assert (V1 : Storage.valid h1 r1) by (subst h1 r1; solve_valid).
  assert (D1 : Storage.deref h1 r1 = unsqueeze0 tt).
  { subst h1 r1. rewrite deref_view_of. now rewrite deref_grow_new. }
  rewrite <- D1.
  apply (matches_bind_returns h h1); [exact X1| |].
  { now apply add_positional_encoding_sim. }
  intros r2 h2 tp D2 X2 V2.
  rewrite mbind_lift.
  destruct (cols_prefix D (values val_df)) as [va|]; cbn [bind];
    [|reflexivity].
  rewrite mbind_compute.
  destruct (torch_tensor _ va) as [vt|]; cbn [bind]; [|reflexivity].
  rewrite mbind_alias. rewrite deref_grow_new.
  destruct (last_rows ws vt) as [di|] eqn:Edi; cbn [bind]; [|reflexivity].
  rewrite mbind_alias. cbn iota.
  set (h3 := Storage.grow h2 vt).
  set (r3 := Storage.view_of (fun t => Ok (unsqueeze0 t))
               (Storage.view_of (last_rows ws)
                  (Storage.owner (Storage.next h2)))).
  assert (X3 : Storage.extends h2 h3) by (subst h3; solve_extends).
  assert (V3 : Storage.valid h3 r3) by (subst h3 r3; solve_valid).
  assert (D3 : Storage.deref h3 r3 = unsqueeze0 di).
  { subst h3 r3. rewrite !deref_view_of, deref_grow_new. now rewrite Edi. }
  rewrite <- D3.
  apply (matches_bind_returns h2 h3); [exact X3| |].
  { now apply add_positional_encoding_sim. }
  intros r4 h4 dp D4 X4 V4.
  assert (X04 : Storage.extends h h4).
  { apply (extends_trans h h1 h4); [exact X1|].
    apply (extends_trans h1 h2 h4); [exact X2|].
    now apply (extends_trans h2 h3 h4). }
  assert (X24 : Storage.extends h2 h4)
    by now apply (extends_trans h2 h3 h4).
  assert (N4 : n <= Storage.next h4) by (destruct X04; lia).
  rewrite <- (Encoder_at_ext n _ h h4 Henc Hn X04).
  rewrite <- D2, <- (deref_ext h2 h4 r2 X24 V2).
  apply (matches_bind_returns h4 h4); [apply extends_refl| |].
  { apply (Encoder_sim n); try assumption. now apply (valid_ext h2 h4). }
  intros r5 h5 eo D5 X5 V5.
  assert (X05 : Storage.extends h h5) by now apply (extends_trans h h4 h5).
  assert (N5 : n <= Storage.next h5) by (destruct X05; lia).
  rewrite <- (Decoder_at_ext n _ h h5 Hds Hdc Hdf Hn X05).
  rewrite <- D5, <- D4, <- (deref_ext h4 h5 r4 X5 V4).
  apply (matches_bind_returns h5 h5); [apply extends_refl| |].
  { apply (Decoder_sim n); try assumption. now apply (valid_ext h4 h5). }
  intros r6 h6 dout D6 X6 V6.
  assert (X06 : Storage.extends h h6) by now apply (extends_trans h h5 h6).
  assert (N6 : n <= Storage.next h6) by (destruct X06; lia).
  unfold Storage.RULHead_at at 1.
  rewrite <- (Net_at_ext n _ h h6 Hhd Hn X06). rewrite <- D6.
  apply (matches_bind_returns h6 h6); [apply extends_refl| |].
  { now apply (RULHead_sim n). }
  intros r7 h7 out D7 X7 V7.
  rewrite mbind_read. rewrite D7. unfold Storage.lift.
  destruct (item out) as [s|]; [|reflexivity].
  exists h7. split; [reflexivity|apply extends_refl].
Qed.

Lemma session_sim (w : World) (dd : string) (D ws : nat)
  (entry : string * string) (ob : Storage.Objects) (st : Locals)
  (sth : Storage.Locals) (h : Storage.Heap) (n : Storage.loc) :
  Storage.Objects_stable n ob -> n <= Storage.next h ->
  encoder st = Storage.Encoder_at h (Storage.encoder_obj ob) ->
  decoder st = Storage.Decoder_at h (Storage.decoder_obj ob) ->
  rul_head st = Storage.RULHead_at h (Storage.rul_head_obj ob) ->
  results st = Storage.results sth -> stdout st = Storage.stdout sth ->
  match session w dd D ws entry st with
  | Ok st' =>
      exists sth' h',
        Storage.session w dd D ws ob entry sth h = Ok (sth', h') /\
        Storage.extends h h' /\
        results st' = Storage.results sth' /\
        stdout st' = Storage.stdout sth'
  | Err e => Storage.session w dd D ws ob entry sth h = Err e
  end.
Proof.
  intros Hob Hn Ee Ed Eh Er Es.
  pose proof (session_scalar_sim w dd D ws entry ob st h n Hob Hn Ee Ed Eh)
    as Hsim.
  unfold session, Storage.session, Storage.mbind.
  destruct (session_scalar w dd D ws entry st) as [s|e]; simpl in Hsim.
  - destruct Hsim as (h' & -> & Hext). cbn [bind]. unfold Storage.lift.
    destruct (inverse_transform (float64 w) s) as [r|e]; cbn [bind];
      [|reflexivity].
    eexists; eexists. split; [reflexivity|]. split; [exact Hext|].
    simpl. now rewrite Er, Es.
  - now rewrite Hsim.
Qed.

Lemma Objects_at_ext (n : Storage.loc) (ob : Storage.Objects)
  (h h' : Storage.Heap) :
  Storage.Objects_stable n ob -> n <= Storage.next h ->
  Storage.extends h h' ->
  Storage.Encoder_at h' (Storage.encoder_obj ob) =
    Storage.Encoder_at h (Storage.encoder_obj ob) /\
  Storage.Decoder_at h' (Storage.decoder_obj ob) =
    Storage.Decoder_at h (Storage.decoder_obj ob) /\
  Storage.RULHead_at h' (Storage.rul_head_obj ob) =
    Storage.RULHead_at h (Storage.rul_head_obj ob).
Proof.
  intros (Henc & (Hds & Hdc & Hdf) & Hhd) Hn Hext. split; [|split].
  - exact (Encoder_at_ext n _ h h' Henc Hn Hext).
  - exact (Decoder_at_ext n _ h h' Hds Hdc Hdf Hn Hext).
  - unfold Storage.RULHead_at. f_equal.
    exact (Net_at_ext n _ h h' Hhd Hn Hext).
Qed.

(** The loop on the store against the loop on values: the same
    exception, or the same rows and printed lines in a store that comes
    after the one the loop started in. *)
Lemma sessions_sim (w : World) (dd : string) (D ws : nat)
  (ob : Storage.Objects) (n : Storage.loc)
  (entries : list (string * string)) :
  Storage.Objects_stable n ob ->
  forall (st : Locals) (sth : Storage.Locals) (h : Storage.Heap),
    n <= Storage.next h ->
    encoder st = Storage.Encoder_at h (Storage.encoder_obj ob) ->
    decoder st = Storage.Decoder_at h (Storage.decoder_obj ob) ->
    rul_head st = Storage.RULHead_at h (Storage.rul_head_obj ob) ->
    results st = Storage.results sth -> stdout st = Storage.stdout sth ->
    match foldM (session w dd D ws) entries st with
    | Ok st' =>
        exists sth' h',
          Storage.sessions w dd D ws ob entries sth h = Ok (sth', h') /\
          Storage.extends h h' /\
          results st' = Storage.results sth' /\
          stdout st' = Storage.stdout sth'
    | Err e => Storage.sessions w dd D ws ob entries sth h = Err e
    end.
Proof.
  intros Hob. induction entries as [|e es IH]; intros st sth h Hn Ee Ed Eh Er Es.
  - simpl. exists sth, h. split; [reflexivity|].
    split; [apply extends_refl|]. split; assumption.
  - simpl.
    pose proof (session_sim w dd D ws e ob st sth h n Hob Hn Ee Ed Eh Er Es)
      as Hs.
    destruct (session w dd D ws e st) as [st1|err] eqn:E1; cbn [bind].
    + destruct Hs as (sth1 & h1 & Eh1 & Hext & Er1 & Es1).
      unfold Storage.mbind. rewrite Eh1.
      destruct (session_frame w dd D ws e st st1 E1) as (F1 & F2 & F3).
      destruct (Objects_at_ext n ob h h1 Hob Hn Hext) as (A1 & A2 & A3).
      assert (Hn1 : n <= Storage.next h1) by (destruct Hext; lia).
      specialize (IH st1 sth1 h1 Hn1 ltac:(congruence) ltac:(congruence)
                    ltac:(congruence) Er1 Es1).
      destruct (foldM (session w dd D ws) es st1) as [st'|err].
      * destruct IH as (sth' & h' & E' & Hext' & Er' & Es').
        exists sth', h'. split; [exact E'|].
        split; [exact (extends_trans h h1 h' Hext Hext')|]. split; assumption.
      * exact IH.
    + unfold Storage.mbind. now rewrite Hs.
Qed.

(** ** The parameters in the store *)

Lemma place_Linear_spec (l : Linear) (h : Storage.Heap) :
  exists rd h',
    Storage.place_Linear l h = Ok (rd, h') /\ Storage.extends h h' /\
    Storage.stable (Storage.next h') rd /\ rd h' = l.
Proof.
  unfold Storage.place_Linear. rewrite !mbind_alloc. unfold Storage.ret.
  eexists; eexists. split; [reflexivity|]. split; [solve_extends|]. split.
  - intros h1 h2 Sb. unfold Storage.deref. cbn [Storage.base Storage.owner
      Storage.look Storage.next Storage.grow] in *.
    rewrite !Sb by lia. reflexivity.
  - rewrite deref_grow_old by solve_valid. rewrite !deref_grow_new.
    now destruct l.
Qed.

(** Placing the elements of a list one after the other. *)
Lemma mapH_spec {A B : Type} (f : A -> Storage.M B)
  (ok : Storage.loc -> B -> Prop) (at_ : Storage.Heap -> B -> A) :
  (forall a h, exists b h',
      f a h = Ok (b, h') /\ Storage.extends h h' /\
      ok (Storage.next h') b /\ at_ h' b = a) ->
  (forall n m b, ok n b -> n <= m -> ok m b) ->
  (forall n b h h', ok n b -> n <= Storage.next h -> Storage.extends h h' ->
                    at_ h' b = at_ h b) ->
  forall xs h, exists bs h',
    Storage.mapH f xs h = Ok (bs, h') /\ Storage.extends h h' /\
    Forall (ok (Storage.next h')) bs /\ map (at_ h') bs = xs.
Proof.
  intros Hf Hmono Hat. induction xs as [|x xs IH]; intros h; simpl.
  - exists [], h. split; [reflexivity|]. split; [apply extends_refl|].
    split; [constructor|reflexivity].
  - destruct (Hf x h) as (b & h1 & E1 & X1 & O1 & A1).
    destruct (IH h1) as (bs & h2 & E2 & X2 & O2 & A2).
    exists (b :: bs), h2. unfold Storage.mbind. rewrite E1, E2.
    split; [reflexivity|].
    split; [exact (extends_trans h h1 h2 X1 X2)|]. split.
    + constructor; [|exact O2]. apply (Hmono (Storage.next h1)); [exact O1|].
      destruct X2; lia.
    + simpl. f_equal; [|exact A2].
      rewrite (Hat (Storage.next h1) b h1 h2 O1 (le_n _) X2). exact A1.
Qed.

Lemma NetLayer_stable_mono (n m : Storage.loc) (l : Storage.NetLayerH) :
  Storage.NetLayer_stable n l -> n <= m -> Storage.NetLayer_stable m l.
Proof.
  destruct l as [rd|]; simpl; [|auto]. intros H Hn.
  exact (stable_mono n m rd H Hn).
Qed.

Lemma NetLayer_at_ext (n : Storage.loc) (l : Storage.NetLayerH)
  (h h' : Storage.Heap) :
  Storage.NetLayer_stable n l -> n <= Storage.next h ->
  Storage.extends h h' ->
  Storage.NetLayer_at h' l = Storage.NetLayer_at h l.
Proof.
  destruct l as [rd|]; simpl; [|reflexivity]. intros H Hn Hext.
  f_equal. exact (stable_ext n rd h h' H Hn Hext).
Qed.

Lemma place_Net_spec (net : list NetLayer) (h : Storage.Heap) :
  exists nh h',
    Storage.mapH Storage.place_NetLayer net h = Ok (nh, h') /\
    Storage.extends h h' /\
    Forall (Storage.NetLayer_stable (Storage.next h')) nh /\
    Storage.Net_at h' nh = net.
Proof.
  apply (mapH_spec Storage.place_NetLayer Storage.NetLayer_stable
           Storage.NetLayer_at).
  - intros [l|] h1; simpl.
    + destruct (place_Linear_spec l h1) as (rd & h2 & E & X & S1 & A1).
      exists (Some rd), h2. unfold Storage.mbind. rewrite E.
      split; [reflexivity|]. split; [exact X|]. split; [exact S1|].
      simpl. now rewrite A1.
    + exists None, h1. split; [reflexivity|]. split; [apply extends_refl|].
      split; [exact I|reflexivity].
  - exact NetLayer_stable_mono.
  - exact NetLayer_at_ext.
Qed.

Lemma place_SelfAttention_spec (m : SelfAttention.t) (h : Storage.Heap) :
  exists rd h',
    Storage.place_SelfAttention m h = Ok (rd, h') /\ Storage.extends h h' /\
    Storage.stable (Storage.next h') rd /\ rd h' = m.
Proof.
  unfold Storage.place_SelfAttention, Storage.mbind.
  destruct (place_Linear_spec (SelfAttention.qkv m) h)
    as (q & h1 & -> & X1 & S1 & A1).
  destruct (place_Linear_spec (SelfAttention.out m) h1)
    as (o & h2 & -> & X2 & S2 & A2).
  unfold Storage.ret. eexists; eexists. split; [reflexivity|].
  split; [exact (extends_trans h h1 h2 X1 X2)|]. split.
  - intros ha hb Sb.
    rewrite (S2 ha hb Sb).
    rewrite (stable_mono _ (Storage.next h2) q S1 ltac:(destruct X2; lia)
               ha hb Sb).
    reflexivity.
  - rewrite A2, (stable_ext _ q h1 h2 S1 (le_n _) X2), A1. now destruct m.
Qed.

Lemma place_CrossAttention_spec (m : MultiHeadCrossAttention.t)
  (h : Storage.Heap) :
  exists rd h',
    Storage.place_CrossAttention m h = Ok (rd, h') /\ Storage.extends h h' /\
    Storage.stable (Storage.next h') rd /\ rd h' = m.
Proof.
  unfold Storage.place_CrossAttention, Storage.mbind.
  destruct (place_Linear_spec (MultiHeadCrossAttention.q m) h)
    as (q & h1 & -> & X1 & S1 & A1).
  destruct (place_Linear_spec (MultiHeadCrossAttention.kv m) h1)
    as (kv & h2 & -> & X2 & S2 & A2).
  destruct (place_Linear_spec (MultiHeadCrossAttention.out m) h2)
    as (o & h3 & -> & X3 & S3 & A3).
  pose proof (extends_trans h1 h2 h3 X2 X3) as X13.
  unfold Storage.ret. eexists; eexists. split; [reflexivity|].
  split; [exact (extends_trans h h1 h3 X1 X13)|]. split.
  - intros ha hb Sb.
    rewrite (S3 ha hb Sb).
    rewrite (stable_mono _ (Storage.next h3) q S1 ltac:(destruct X13; lia)
               ha hb Sb).
    rewrite (stable_mono _ (Storage.next h3) kv S2 ltac:(destruct X3; lia)
               ha hb Sb).
    reflexivity.
  - rewrite A3, (stable_ext _ q h1 h3 S1 (le_n _) X13), A1.
    rewrite (stable_ext _ kv h2 h3 S2 (le_n _) X3), A2. now destruct m.
Qed.

Lemma place_Encoder_spec (m : Encoder.t) (h : Storage.Heap) :
  exists e h',
    Storage.place_Encoder m h = Ok (e, h') /\ Storage.extends h h' /\
    Forall (fun l => Storage.stable (Storage.next h') (fst l) /\
                     Forall (Storage.NetLayer_stable (Storage.next h')) (snd l))
           e /\
    Storage.Encoder_at h' e = m.
Proof.
  unfold Storage.place_Encoder.
  destruct (mapH_spec
              (fun l => Storage.mbind (Storage.place_SelfAttention (fst l))
                          (fun sa =>
                             Storage.mbind
                               (Storage.mapH Storage.place_NetLayer
                                  (FeedForward.net (snd l)))
                               (fun ff => Storage.ret (sa, ff))))
              (fun n (b : Storage.Reader SelfAttention.t *
                          list Storage.NetLayerH) =>
                 Storage.stable n (fst b) /\
                 Forall (Storage.NetLayer_stable n) (snd b))
              (fun h b => (fst b h, FeedForward.mk (Storage.Net_at h (snd b))))
              ) with (xs := Encoder.layers m) (h := h)
    as (e & h' & E & X & O & A).
  - intros (sa & ff) h0. cbn [fst snd]. unfold Storage.mbind.
    destruct (place_SelfAttention_spec sa h0) as (rd & h1 & -> & X1 & S1 & A1).
    destruct (place_Net_spec (FeedForward.net ff) h1)
      as (nh & h2 & -> & X2 & S2 & A2).
    unfold Storage.ret. eexists; eexists. split; [reflexivity|].
    split; [exact (extends_trans h0 h1 h2 X1 X2)|]. cbn [fst snd]. split.
    + split; [|exact S2].
      apply (stable_mono (Storage.next h1)); [exact S1|]. destruct X2; lia.
    + rewrite (stable_ext _ rd h1 h2 S1 (le_n _) X2), A1, A2. now destruct ff.
  - intros n k b (Hs & Hf) Hn. split; [exact (stable_mono n k _ Hs Hn)|].
    eapply Forall_impl; [|exact Hf].
    intros l Hl. exact (NetLayer_stable_mono n k l Hl Hn).
  - intros n b h0 h1 (Hs & Hf) Hn Hext. f_equal.
    + exact (stable_ext n _ h0 h1 Hs Hn Hext).
    + f_equal. exact (Net_at_ext n _ h0 h1 Hf Hn Hext).
  - exists e, h'. split; [exact E|]. split; [exact X|]. split; [exact O|].
    unfold Storage.Encoder_at. destruct m as [ls]. cbn [Encoder.layers] in A.
    f_equal. exact A.
Qed.

Lemma place_Decoder_spec (m : Decoder.t) (h : Storage.Heap) :
  exists d h',
    Storage.place_Decoder m h = Ok (d, h') /\ Storage.extends h h' /\
    (Forall (Storage.stable (Storage.next h')) (Storage.self_layers d) /\
     Forall (Storage.stable (Storage.next h')) (Storage.cross_layers d) /\
     Forall (Forall (Storage.NetLayer_stable (Storage.next h')))
            (Storage.ffns d)) /\
    Storage.Decoder_at h' d = m.
Proof.
  unfold Storage.place_Decoder, Storage.mbind.
  destruct (mapH_spec Storage.place_SelfAttention
              (fun n rd => Storage.stable n rd) (fun h rd => rd h)
              place_SelfAttention_spec
              (fun n k b H Hn => stable_mono n k b H Hn)
              (fun n b h0 h1 H Hn Hext => stable_ext n b h0 h1 H Hn Hext)
              (Decoder.self_layers m) h)
    as (sl & h1 & -> & X1 & O1 & A1).
  destruct (mapH_spec Storage.place_CrossAttention
              (fun n rd => Storage.stable n rd) (fun h rd => rd h)
              place_CrossAttention_spec
              (fun n k b H Hn => stable_mono n k b H Hn)
              (fun n b h0 h1 H Hn Hext => stable_ext n b h0 h1 H Hn Hext)
              (Decoder.cross_layers m) h1)
    as (cl & h2 & -> & X2 & O2 & A2).
  destruct (mapH_spec
              (fun ff => Storage.mapH Storage.place_NetLayer (FeedForward.net ff))
              (fun n b => Forall (Storage.NetLayer_stable n) b)
              (fun h b => FeedForward.mk (Storage.Net_at h b)))
    with (xs := Decoder.ffns m) (h := h2)
    as (fl & h3 & E3 & X3 & O3 & A3).
  - intros ff h0.
    destruct (place_Net_spec (FeedForward.net ff) h0)
      as (nh & h' & E & X & S1 & A).
    exists nh, h'. split; [exact E|]. split; [exact X|]. split; [exact S1|].
    rewrite A. now destruct ff.
  - intros n k b Hf Hn. eapply Forall_impl; [|exact Hf].
    intros l Hl. exact (NetLayer_stable_mono n k l Hl Hn).
  - intros n b h0 h' Hf Hn Hext. f_equal.
    exact (Net_at_ext n _ h0 h' Hf Hn Hext).
  - rewrite E3. unfold Storage.ret.
    pose proof (extends_trans h1 h2 h3 X2 X3) as X13.
    eexists; eexists. split; [reflexivity|].
    split; [exact (extends_trans h h1 h3 X1 X13)|].
    cbn [Storage.self_layers Storage.cross_layers Storage.ffns]. split.
    + split; [|split; [|exact O3]].
      * eapply Forall_impl; [|exact O1]. intros rd Hrd.
        apply (stable_mono (Storage.next h1)); [exact Hrd|]. destruct X13; lia.
      * eapply Forall_impl; [|exact O2]. intros rd Hrd.
        apply (stable_mono (Storage.next h2)); [exact Hrd|]. destruct X3; lia.
    + unfold Storage.Decoder_at.
      cbn [Storage.self_layers Storage.cross_layers Storage.ffns].
      rewrite (map_stable_ext _ sl h1 h3 O1 (le_n _) X13).
      rewrite (map_stable_ext _ cl h2 h3 O2 (le_n _) X3).
      destruct m as [ms mc mf]. cbn [Decoder.self_layers Decoder.cross_layers
                                      Decoder.ffns] in *.
      f_equal; assumption.
Qed.

Lemma mbind_torch_load {B : Type} (w : World) (file : string)
  (k : Checkpoint -> Storage.M B) (h : Storage.Heap) :
  Storage.mbind (Storage.torch_load_logged w file) k h =
    match torch_load w file with
    | Ok c => k c (Storage.mkHeap (Storage.next h) (Storage.cells h)
                     (Storage.loads h ++ [file]))
    | Err e => Err e
    end.
Proof.
  unfold Storage.mbind, Storage.torch_load_logged.
  now destruct (torch_load w file).
Qed.

(** Lines 110-123 on the store: the same exception as on values, or the
    three files loaded once each, in that order, no storage of the
    given store written, and parameters that hold the loaded values. *)
Lemma load_models_spec (w : World) (mp : list (string * string)) (D : nat)
  (h : Storage.Heap) :
  match load_models w mp D with
  | Ok st0 =>
      exists ob h' pe pd ph,
        Storage.load_models w mp D h = Ok (ob, h') /\
        Storage.next h <= Storage.next h' /\
        Storage.same_below (Storage.next h) h h' /\
        dict_get mp "encoder" = Ok pe /\ dict_get mp "decoder" = Ok pd /\
        dict_get mp "regressor" = Ok ph /\
        Storage.loads h' = Storage.loads h ++ [pe; pd; ph] /\
        Storage.Objects_stable (Storage.next h') ob /\
        Storage.Encoder_at h' (Storage.encoder_obj ob) = encoder st0 /\
        Storage.Decoder_at h' (Storage.decoder_obj ob) = decoder st0 /\
        Storage.RULHead_at h' (Storage.rul_head_obj ob) = rul_head st0
  | Err e => Storage.load_models w mp D h = Err e
  end.
Proof.
  unfold load_models, Storage.load_models.
  rewrite mbind_lift.
  destruct (Encoder.init _ _ _ _ _) as [enc0|]; cbn [bind]; [|reflexivity].
  rewrite mbind_lift.
  destruct (Decoder.init _ _ _ _ _) as [dec0|]; cbn [bind]; [|reflexivity].
  rewrite mbind_lift.
  destruct (dict_get mp "encoder") as [pe|]; cbn [bind]; [|reflexivity].
  rewrite mbind_torch_load.
  destruct (torch_load w pe) as [ce|]; cbn [bind]; [|reflexivity].
  rewrite mbind_lift.
  match goal with
  | |- context [bind ?m _] => destruct m as [enc|]; cbn [bind]; [|reflexivity]
  end.
  rewrite mbind_lift.
  destruct (dict_get mp "decoder") as [pd|]; cbn [bind]; [|reflexivity].
  rewrite mbind_torch_load.
  destruct (torch_load w pd) as [cd|]; cbn [bind]; [|reflexivity].
  rewrite mbind_lift.
  match goal with
  | |- context [bind ?m _] => destruct m as [dec|]; cbn [bind]; [|reflexivity]
  end.
  rewrite mbind_lift.
  destruct (dict_get mp "regressor") as [ph|]; cbn [bind]; [|reflexivity].
  rewrite mbind_torch_load.
  destruct (torch_load w ph) as [ch|]; cbn [bind]; [|reflexivity].
  rewrite mbind_lift.
  match goal with
  | |- context [bind ?m _] => destruct m as [hd|]; cbn [bind]; [|reflexivity]
  end.
  cbn [Storage.next Storage.cells Storage.loads].
  set (hL := Storage.mkHeap _ _ _).
  unfold Storage.mbind.
  destruct (place_Encoder_spec enc hL) as (e & h1 & -> & X1 & O1 & A1).
  destruct (place_Decoder_spec dec h1) as (d & h2 & -> & X2 & O2 & A2).
  destruct (place_Net_spec (RULHead.net hd) h2) as (r & h3 & -> & X3 & O3 & A3).
  pose proof (extends_trans h1 h2 h3 X2 X3) as X13.
  pose proof (extends_trans hL h1 h3 X1 X13) as XL.
  unfold Storage.ret.
  exists (Storage.mkObjects e d r), h3, pe, pd, ph.
  cbn [Storage.encoder_obj Storage.decoder_obj Storage.rul_head_obj
       encoder decoder rul_head].
  split; [reflexivity|].
  destruct XL as (NL & SL & LL). subst hL.
  cbn [Storage.next Storage.cells Storage.loads] in *.
  split; [exact NL|]. split; [exact SL|].
  split; [reflexivity|]. split; [reflexivity|]. split; [reflexivity|].
  split; [rewrite LL, <- !app_assoc; reflexivity|].
  destruct O2 as (Os & Oc & Of).
  split; [|split; [|split]].
  - split; [|split; [|exact O3]].
    + eapply Forall_impl; [|exact O1]. intros l (Hs & Hf). split.
      * apply (stable_mono (Storage.next h1)); [exact Hs|]. destruct X13; lia.
      * eapply Forall_impl; [|exact Hf]. intros nl Hnl.
        apply (NetLayer_stable_mono (Storage.next h1)); [exact Hnl|].
        destruct X13; lia.
    + split; [|split].
      * eapply Forall_impl; [|exact Os]. intros rd Hrd.
        apply (stable_mono (Storage.next h2)); [exact Hrd|]. destruct X3; lia.
      * eapply Forall_impl; [|exact Oc]. intros rd Hrd.
        apply (stable_mono (Storage.next h2)); [exact Hrd|]. destruct X3; lia.
      * eapply Forall_impl; [|exact Of]. intros net Hnet.
        eapply Forall_impl; [|exact Hnet]. intros nl Hnl.
        apply (NetLayer_stable_mono (Storage.next h2)); [exact Hnl|].
        destruct X3; lia.
  - rewrite (Encoder_at_ext _ e h1 h3 O1 (le_n _) X13). exact A1.
  - rewrite (Decoder_at_ext _ d h2 h3 Os Oc Of (le_n _) X3). exact A2.
  - unfold Storage.RULHead_at. rewrite A3. now destruct hd.
Qed.

(** ** The parameters during inference *)

Lemma Storage_sessions_app (w : World) (dd : string) (D ws : nat)
  (ob : Storage.Objects) (pre post : list (string * string))
  (sth : Storage.Locals) (h : Storage.Heap) :
  Storage.sessions w dd D ws ob (pre ++ post) sth h =
    Storage.mbind (Storage.sessions w dd D ws ob pre sth)
      (fun mid => Storage.sessions w dd D ws ob post mid) h.
Proof.
  revert sth h. induction pre as [|e es IH]; intros sth h; simpl.
  - reflexivity.
  - unfold Storage.mbind.
    destruct (Storage.session w dd D ws ob e sth h) as [(st1 & h1)|];
      [|reflexivity].
    rewrite IH. reflexivity.
Qed.

(** A loop that returns on the store returned in a later store. *)
Lemma Storage_sessions_extends (w : World) (dd : string) (D ws : nat)
  (ob : Storage.Objects) (n : Storage.loc)
  (entries : list (string * string)) (sth sth' : Storage.Locals)
  (h h' : Storage.Heap) :
  Storage.Objects_stable n ob -> n <= Storage.next h ->
  Storage.sessions w dd D ws ob entries sth h = Ok (sth', h') ->
  Storage.extends h h'.
Proof.
  intros Hob Hn E.
  pose proof (sessions_sim w dd D ws ob n entries Hob
                (mkLocals (Storage.Encoder_at h (Storage.encoder_obj ob))
                          (Storage.Decoder_at h (Storage.decoder_obj ob))
                          (Storage.RULHead_at h (Storage.rul_head_obj ob))
                          (Storage.results sth) (Storage.stdout sth))
                sth h Hn eq_refl eq_refl eq_refl eq_refl eq_refl) as Hsim.
  destruct (foldM _ entries _) as [st'|e].
  - destruct Hsim as (sth2 & h2 & E2 & Hext & _). congruence.
  - congruence.
Qed.

(** X22: the run on the store, where views share storage and lines 28-29
    write in place, ends as the run on values does: with the same
    exception, or with the same rows, the same file written and the same
    printed lines. *)
Theorem Storage_run_agrees (w : World) (mp : list (string * string))
  (dd out : string) (D ws : nat) (h : Storage.Heap) :
  match infer_rul_without_gt w mp dd out D ws with
  | Ok o => exists h', Storage.infer_rul_without_gt w mp dd out D ws h
                         = Ok (o, h')
  | Err e => Storage.infer_rul_without_gt w mp dd out D ws h = Err e
  end.
Proof.
  unfold infer_rul_without_gt, Storage.infer_rul_without_gt, Storage.mbind.
  pose proof (load_models_spec w mp D h) as Hl.
  destruct (load_models w mp D) as [st0|e] eqn:El; cbn [bind].
  - destruct Hl as (ob & h1 & pe & pd & ph & -> & N1 & _ & _ & _ & _ & _ &
                    Hob & Ae & Ad & Ah).
    destruct (load_models_wf w mp D st0 El) as (_ & _ & _ & _ & Hr & Hs).
    pose proof (sessions_sim w dd D ws ob (Storage.next h1) best_matches Hob
                  st0 (Storage.mkLocals [] []) h1 (le_n _)
                  (eq_sym Ae) (eq_sym Ad) (eq_sym Ah) Hr Hs) as Hsim.
    destruct (foldM _ best_matches st0) as [st'|e]; cbn [bind].
    + destruct Hsim as (sth' & h2 & -> & _ & Er & Es).
      unfold Storage.lift. rewrite Er, Es.
      destruct (can_write w out); [|reflexivity]. now eexists.
    + now rewrite Hsim.
  - now rewrite Hl.
Qed.

(** C8: on the store, the three checkpoints are loaded once each, before
    the loop, and inference never writes a parameter.  After the loading
    of lines 110-123, whatever sessions are run and however many,
    every storage that existed when the loading ended holds at the end
    what it held then, the parameters of the three modules among them;
    no file is loaded again; and every session of the loop, wherever the
    loop is cut, starts from a store in which the three modules have the
    parameter values they had after loading.  The only storages a
    session writes are the ones it allocates itself ([pe] at lines
    28-29). *)
Theorem inference_leaves_parameters_unchanged (w : World)
  (mp : list (string * string)) (dd : string) (D ws : nat)
  (ob : Storage.Objects) (h0 h1 : Storage.Heap) :
  Storage.load_models w mp D h0 = Ok (ob, h1) ->
  (exists pe pd ph,
     dict_get mp "encoder" = Ok pe /\ dict_get mp "decoder" = Ok pd /\
     dict_get mp "regressor" = Ok ph /\
     Storage.loads h1 = Storage.loads h0 ++ [pe; pd; ph]) /\
  (forall entries sth sth' h2,
     Storage.sessions w dd D ws ob entries sth h1 = Ok (sth', h2) ->
     Storage.extends h1 h2 /\
     (Storage.Encoder_at h2 (Storage.encoder_obj ob) =
        Storage.Encoder_at h1 (Storage.encoder_obj ob) /\
      Storage.Decoder_at h2 (Storage.decoder_obj ob) =
        Storage.Decoder_at h1 (Storage.decoder_obj ob) /\
      Storage.RULHead_at h2 (Storage.rul_head_obj ob) =
        Storage.RULHead_at h1 (Storage.rul_head_obj ob)) /\
     (forall pre post, entries = pre ++ post ->
        exists mid hm,
          Storage.sessions w dd D ws ob pre sth h1 = Ok (mid, hm) /\
          Storage.extends h1 hm /\
          (Storage.Encoder_at hm (Storage.encoder_obj ob) =
             Storage.Encoder_at h1 (Storage.encoder_obj ob) /\
           Storage.Decoder_at hm (Storage.decoder_obj ob) =
             Storage.Decoder_at h1 (Storage.decoder_obj ob) /\
           Storage.RULHead_at hm (Storage.rul_head_obj ob) =
             Storage.RULHead_at h1 (Storage.rul_head_obj ob)) /\
          Storage.sessions w dd D ws ob post mid hm = Ok (sth', h2))).
Proof.
  intros El.
  pose proof (load_models_spec w mp D h0) as Hl.
  destruct (load_models w mp D) as [st0|e]; [|congruence].
  destruct Hl as (ob' & h1' & pe & pd & ph & El' & _ & _ & Kp & Kd & Kh &
                  Hloads & Hob & _).
  assert (ob' = ob /\ h1' = h1) as (-> & ->) by (split; congruence).
  split; [exists pe, pd, ph; auto|].
  intros entries sth sth' h2 E.
  pose proof (Storage_sessions_extends w dd D ws ob _ entries sth sth' h1 h2
                Hob (le_n _) E) as Hext.
  split; [exact Hext|].
  split; [exact (Objects_at_ext _ ob h1 h2 Hob (le_n _) Hext)|].
  intros pre post ->. rewrite Storage_sessions_app in E.
  unfold Storage.mbind in E.
  destruct (Storage.sessions w dd D ws ob pre sth h1) as [(mid & hm)|] eqn:Ep;
    [|discriminate].
  pose proof (Storage_sessions_extends w dd D ws ob _ pre sth mid h1 hm
                Hob (le_n _) Ep) as Hextm.
  exists mid, hm. split; [reflexivity|]. split; [exact Hextm|].
  split; [exact (Objects_at_ext _ ob h1 hm Hob (le_n _) Hextm)|exact E].
Qed.

Lemma inference_leaves_parameters_unchanged_witness :
  exists ob h1 sth' h2,
    Storage.load_models (example_world_tables (fun _ => Some (zero_df 30 4)))
      example_paths 4 (Storage.mkHeap 0 (fun _ => zeros []) []) = Ok (ob, h1) /\
    Storage.loads h1 = ["encoder.pth"; "decoder.pth"; "head.pth"]%string /\
    Storage.sessions (example_world_tables (fun _ => Some (zero_df 30 4)))
      "train" 4 21 ob best_matches (Storage.mkLocals [] []) h1
      = Ok (sth', h2) /\
    length (Storage.results sth') = 6 /\
    Storage.extends h1 h2 /\
    Storage.Encoder_at h2 (Storage.encoder_obj ob) =
      Storage.Encoder_at h1 (Storage.encoder_obj ob).
Proof.
  set (w := example_world_tables (fun _ => Some (zero_df 30 4))).
  set (h0 := Storage.mkHeap 0 (fun _ => zeros []) []).
  destruct (example_tables_load (fun _ => Some (zero_df 30 4)))
    as (st0 & El & _).
  fold w in El.
  pose proof (load_models_spec w example_paths 4 h0) as Hl.
  rewrite El in Hl.
  destruct Hl as (ob & h1 & pe & pd & ph & Eh & _ & _ & Kp & Kd & Kh &
                  Hloads & Hob & Ae & Ad & Ah).
  injection Kp as <-. injection Kd as <-. injection Kh as <-.
  destruct (load_models_wf w _ _ _ El) as (_ & _ & _ & _ & Hr & Hs).
  destruct (example_tables_sessions_ok (fun _ => Some (zero_df 30 4)) 21
              best_matches st0 El) as (st1 & rows & Ef & Er & Ev & _).
  { repeat apply Forall_cons; try apply Forall_nil;
      apply zero_tables_files; reflexivity. }
  fold w in Ef.
  pose proof (sessions_sim w "train"%string 4 21 ob (Storage.next h1)
                best_matches Hob st0 (Storage.mkLocals [] []) h1 (le_n _)
                (eq_sym Ae) (eq_sym Ad) (eq_sym Ah) Hr Hs) as Hsim.
  rewrite Ef in Hsim. destruct Hsim as (sth' & h2 & Es & _ & Ers & _).
  destruct (inference_leaves_parameters_unchanged w example_paths
              "train"%string 4 21 ob h0 h1 Eh) as (_ & Hframe).
  destruct (Hframe best_matches _ sth' h2 Es) as (Hext & (Henc & _) & _).
  exists ob, h1, sth', h2. split; [exact Eh|]. split; [exact Hloads|].
  split; [exact Es|]. split; [|split; assumption].
  rewrite <- Ers, Er, Hr. simpl.
  rewrite <- (length_map Validation), Ev. reflexivity.
Defined.
